(** * Portfolio-disclosure ingestion and identifier reconciliation

    A shallow embedding of the core of two scripts:

    - [scripts/convert_mf_portfolio.py]: grand-total location, schema
      detection, row extraction, identifier assignment and name resolution;
    - [scripts/isin_validation_mapping.py]: the reconciliation engine that
      classifies identifiers and writes the mapping artifact.

    Modelling conventions.

    - Python [str] values are [string]s; a character is read as a code point
      below 128 (ASCII text).  Case conversion and the whitespace class follow
      Python on that range; bytes above 127 are left alone by [lower]/[upper]
      and are never whitespace, digits or word characters.
    - A spreadsheet cell is an untyped Python object; the code observes it only
      through [pd.notna], [str] and [float], so a cell is one of: a missing
      value, a text, a number (with the text [str] shows for it) or another
      object on which [float] raises [TypeError].
    - Python's [float] values are kept abstract ([PyFloat]): the code only
      parses them, compares them with [0] and [10000] and adds them up.
    - Exceptions are values of [result]; [try/except] is [catch].
    - [dict]s whose iteration order reaches the output are association lists
      in insertion order; the [set] of processed identifiers is a [gset]; the
      validation mapping, only ever looked up, is a [gmap]. *)

From Stdlib Require Import Ascii String ZArith Lia.
From Stdlib Require Strings.Byte.
From stdpp Require Import base option list strings pretty gmap sets sorting.

(** ** Python text operations *)

Module Text.

Definition code (c : ascii) : nat := nat_of_ascii c.

Definition between (lo hi : nat) (c : ascii) : bool :=
  (lo <=? code c) && (code c <=? hi).

Definition is_upper (c : ascii) : bool := between 65 90 c.
Definition is_lower (c : ascii) : bool := between 97 122 c.
Definition is_digit (c : ascii) : bool := between 48 57 c.
Definition is_alnum (c : ascii) : bool := is_upper c || is_lower c || is_digit c.

(** [\w] of the [re] module on ASCII text. *)
Definition is_word (c : ascii) : bool := is_alnum c || (code c =? 95).

(** [str.isspace] on code points below 128: TAB..CR, FS..US and SPACE. *)
Definition is_space (c : ascii) : bool :=
  between 9 13 c || between 28 32 c.

Definition lower_char (c : ascii) : ascii :=
  if is_upper c then ascii_of_nat (code c + 32) else c.

Definition upper_char (c : ascii) : ascii :=
  if is_lower c then ascii_of_nat (code c - 32) else c.

Fixpoint map (f : ascii -> ascii) (s : string) : string :=
  match s with
  | EmptyString => EmptyString
  | String c s' => String (f c) (map f s')
  end.

Fixpoint filter (p : ascii -> bool) (s : string) : string :=
  match s with
  | EmptyString => EmptyString
  | String c s' => if p c then String c (filter p s') else filter p s'
  end.

Fixpoint forallb (p : ascii -> bool) (s : string) : bool :=
  match s with
  | EmptyString => true
  | String c s' => p c && forallb p s'
  end.

(** [s.lower()], [s.upper()] *)
Definition lower : string -> string := map lower_char.
Definition upper : string -> string := map upper_char.

(** [s.lstrip()], [s.rstrip()], [s.strip()] *)
Fixpoint lstrip (s : string) : string :=
  match s with
  | EmptyString => EmptyString
  | String c s' => if is_space c then lstrip s' else s
  end.

Fixpoint rstrip (s : string) : string :=
  match s with
  | EmptyString => EmptyString
  | String c s' =>
      match rstrip s' with
      | EmptyString => if is_space c then EmptyString else String c EmptyString
      | r => String c r
      end
  end.

Definition strip (s : string) : string := rstrip (lstrip s).

(** [bool(s)]: a string is truthy when it is not empty. *)
Definition truthy (s : string) : bool :=
  match s with EmptyString => false | _ => true end.

(** [s.startswith(p)] *)
Definition startswith (p s : string) : bool := String.prefix p s.

(** [sub in s] *)
Fixpoint contains (sub s : string) : bool :=
  String.prefix sub s ||
  match s with
  | EmptyString => false
  | String _ s' => contains sub s'
  end.

(** [s[:n]] and [s[a:b]] for non-negative literal bounds. *)
Definition take (n : nat) (s : string) : string := String.substring 0 n s.
Definition slice (a b : nat) (s : string) : string := String.substring a (b - a) s.

(** [sep.join(l)] *)
Definition join (sep : string) (l : list string) : string := String.concat sep l.

(** [s.split(c)] for a one-character separator. *)
Fixpoint split (c : ascii) (s : string) : list string :=
  match s with
  | EmptyString => [EmptyString]
  | String x s' =>
      if Ascii.eqb x c then EmptyString :: split c s'
      else match split c s' with
           | h :: t => String x h :: t
           | [] => [String x EmptyString]
           end
  end.

(** [s.split()]: the maximal runs of non-whitespace characters. *)
Fixpoint words_go (cur : option string) (s : string) : list string :=
  match s with
  | EmptyString => match cur with Some w => [String.rev w] | None => [] end
  | String c s' =>
      if is_space c
      then match cur with
           | Some w => String.rev w :: words_go None s'
           | None => words_go None s'
           end
      else words_go (Some (String c (default EmptyString cur))) s'
  end.
Definition words (s : string) : list string := words_go None s.

(** Lexicographic order on code points: Python's [<=] on [str]. *)
Definition leb (s1 s2 : string) : bool := String.leb s1 s2.

End Text.

(** ** Exceptions *)

Inductive exn := ValueError | TypeError | IndexError.

Inductive result (A : Type) :=
| Ok (a : A)
| Raise (e : exn).
Arguments Ok {A} a.
Arguments Raise {A} e.

Definition bind {A B : Type} (m : result A) (k : A -> result B) : result B :=
  match m with
  | Ok a => k a
  | Raise e => Raise e
  end.

Notation "'let!' x ':=' m 'in' k" := (bind m (fun x => k))
  (at level 10, x name, m at level 100, k at level 200).

(** [try: m  except (ValueError, TypeError): h] *)
Definition catch {A : Type} (m : result A) (h : A) : result A :=
  match m with
  | Ok a => Ok a
  | Raise ValueError | Raise TypeError => Ok h
  | Raise IndexError => Raise IndexError
  end.

(** ** Python floats, as far as the code looks at them *)

Class PyFloat := {
  num : Type;
(** [float(s)] on a [str]; [None] stands for [ValueError]. *)
float_of_str : string -> option num;
(** [float('nan')], what [float] returns on a missing cell. *)
nan : num;
(** the literal [0] *)
zero : num;
(** [x > 10000] *)
gt_10000 : num -> bool;
(** [x == 0] *)
is_zero : num -> bool;
(** [x + y], used by [sum] *)
fadd : num -> num -> num;
}.

(** ** [convert_mf_portfolio.py] *)

Module Convert.

Definition ISIN_OTHER : string := "IN9999999999".
Definition ISIN_OTHER_DISPLAY_NAME : string := "Cash & Other Assets".

(** *** Identifier validity and assignment *)

Definition is_valid_isin (isin : string) : bool :=
  if negb (Text.truthy isin) then false
  else Text.startswith "IN" isin && (12 <=? String.length isin).

Definition assign_isin (isin_original instrument_name : string) : string :=
  if is_valid_isin isin_original then isin_original else ISIN_OTHER.

(** *** Aggregation rows and section headers *)

Definition skip_patterns : list string :=
  ["sub total"; "subtotal"; "grand total"; "grandtotal"].

Definition section_headers : list string :=
  [ "treasury bills"; "treasury bill";
    "money market instruments"; "money market";
    "debt instruments"; "debt";
    "equity & equity related"; "equity and equity";
    "listed / awaiting"; "listed/awaiting";
    "privately placed"; "unlisted";
    "certificate of deposit"; "commercial paper";
    "government securities"; "government security";
    "corporate debt"; "corporate bond";
    "securitised debt"; "pass through";
    "units of real estate"; "reits";
    "units of an alternative"; "aif";
    "zero coupon bonds"; "deep discount bonds";
    "others" ].

(** [s[n:]] *)
Fixpoint drop (n : nat) (s : string) : string :=
  match n, s with
  | O, _ => s
  | S n', String _ s' => drop n' s'
  | S _, EmptyString => EmptyString
  end.

(** [re.search(r'\bW\b', s)] for a literal [W] made of word characters:
    an occurrence of [W] with no word character right before or after. *)
Fixpoint search_word_from (prev_is_word : bool) (w s : string) : bool :=
  (negb prev_is_word && String.prefix w s &&
     match drop (String.length w) s with
     | EmptyString => true
     | String c _ => negb (Text.is_word c)
     end) ||
  match s with
  | EmptyString => false
  | String c s' => search_word_from (Text.is_word c) w s'
  end.
Definition search_word (w s : string) : bool := search_word_from false w s.

(** The four checks of [is_aggregation_row], in the order of the source. *)
Definition skip_pattern_hit (name_lower isin_lower : string) : bool :=
  existsb (fun pattern => Text.contains pattern name_lower
                          || Text.contains pattern isin_lower) skip_patterns.

Definition section_header_hit (name_lower isin_lower : string) : bool :=
  if negb (Text.startswith "in" isin_lower)
     || negb (String.length isin_lower =? 12)
  then existsb (fun header => String.eqb name_lower header
                              || Text.startswith header name_lower) section_headers
  else false.

Definition exact_total_hit (name_lower isin_lower : string) : bool :=
  String.eqb name_lower "total" || String.eqb isin_lower "total".

Definition standalone_total_hit (row_lower : string) : bool :=
  if Text.truthy row_lower
  then search_word "total" row_lower && negb (Text.contains "net" row_lower)
  else false.

Definition is_aggregation_row (name isin full_row_text : string) : bool :=
  let name_lower := Text.strip (Text.lower name) in
  let isin_lower := Text.strip (Text.lower isin) in
  let row_lower := if Text.truthy full_row_text then Text.lower full_row_text
                   else EmptyString in
  if skip_pattern_hit name_lower isin_lower then true
  else if section_header_hit name_lower isin_lower then true
  else if exact_total_hit name_lower isin_lower then true
  else if standalone_total_hit row_lower then true
  else false.

(** *** Sheets *)

Section Sheets.
Context `{PyFloat}.

Inductive cell :=
| CNaN
| CStr (s : string)
| CNum (x : num) (shown : string)
| CObj (shown : string).

(** [pd.notna(v)] *)
Definition notna (c : cell) : bool :=
  match c with CNaN => false | _ => true end.

(** [str(v)] *)
Definition cell_str (c : cell) : string :=
  match c with
  | CNaN => "nan"
  | CStr s => s
  | CNum _ shown => shown
  | CObj shown => shown
  end.

(** [float(v)] *)
Definition cell_float (c : cell) : result num :=
  match c with
  | CNaN => Ok nan
  | CStr s => match float_of_str s with
              | Some x => Ok x
              | None => Raise ValueError
              end
  | CNum x _ => Ok x
  | CObj _ => Raise TypeError
  end.

Definition row := list cell.
Definition sheet := list row.

(** Positional indexing [xs.iloc[k]]: [None] is not an integer
    ([TypeError]); a negative position counts from the end; anything
    outside [-len, len) is [IndexError]. *)
Definition position (len : nat) (k : option Z) : result nat :=
  match k with
  | None => Raise TypeError
  | Some i =>
      if (0 <=? i)%Z && (i <? Z.of_nat len)%Z then Ok (Z.to_nat i)
      else if (- Z.of_nat len <=? i)%Z && (i <? 0)%Z
           then Ok (Z.to_nat (Z.of_nat len + i))
           else Raise IndexError
  end.

Definition iloc {A : Type} (xs : list A) (k : option Z) : result A :=
  let! i := position (length xs) k in
  match xs !! i with
  | Some x => Ok x
  | None => Raise IndexError
  end.

(** [' '.join([str(v) for v in row if pd.notna(v)])] *)
Definition full_text (r : row) : string :=
  Text.join " " (cell_str <$> List.filter notna r).

(** [str(row.iloc[0]).strip().lower() if pd.notna(row.iloc[0]) else ''] *)
Definition first_cell_lower (r : row) : result string :=
  let! c := iloc r (Some 0%Z) in
  Ok (if notna c then Text.lower (Text.strip (cell_str c)) else EmptyString).

(** [str(c).strip() if pd.notna(c) else ''] *)
Definition cell_text (c : cell) : string :=
  if notna c then Text.strip (cell_str c) else EmptyString.

(** [float(c) if pd.notna(c) else 0], under
    [try ... except (ValueError, TypeError): 0]. *)
Definition cell_value (r : row) (col : option Z) : result num :=
  catch (let! c := iloc r col in if notna c then cell_float c else Ok zero) zero.

(** *** [find_grand_total] *)

(** "Find first large numeric value in row": the inner [for cell in row]
    loop shared by patterns 2 and 3. *)
Fixpoint first_large (r : row) : option num :=
  match r with
  | [] => None
  | c :: r' =>
      if notna c
      then match cell_float c with
           | Ok val => if gt_10000 val then Some val else first_large r'
           | Raise _ => first_large r'
           end
      else first_large r'
  end.

(** Pattern 1: [float(row.iloc[market_value_col])] under [try]. *)
Definition grand_total_cell (r : row) (market_value_col : option Z)
  : result (option num) :=
  catch (let! c := iloc r market_value_col in let! value := cell_float c in Ok (Some value)) None.

(** Pattern 1, "Grand Total": the value column of the row. *)
Definition pattern1 (r : row) (market_value_col : option Z) : result (option num) :=
  if Text.contains "grand total" (Text.lower (full_text r))
  then grand_total_cell r market_value_col else Ok None.

(** Pattern 2, "Total Net Assets": the first large value of the row. *)
Definition pattern2 (r : row) : option num :=
  if Text.contains "total net assets" (Text.lower (full_text r))
  then first_large r else None.

(** Pattern 3, a first cell that is exactly "Total". *)
Definition pattern3 (r : row) : result (option num) :=
  let! first_cell := first_cell_lower r in
  Ok (if String.eqb first_cell "total" then first_large r else None).

(** The body of the [for idx, row in df.iterrows()] loop: the value the
    row returns, if it returns one. *)
Definition total_in_row (r : row) (market_value_col : option Z)
  : result (option num) :=
  let! p1 := pattern1 r market_value_col in
  match p1 with
  | Some value => Ok (Some value)
  | None =>
      match pattern2 r with
      | Some val => Ok (Some val)
      | None => pattern3 r
      end
  end.

Fixpoint find_grand_total_from (idx : Z) (rows : list row)
    (market_value_col : option Z) : result (option Z * option num) :=
  match rows with
  | [] => Ok (None, None)
  | r :: rows' =>
      let! found := total_in_row r market_value_col in
      match found with
      | Some value => Ok (Some (idx + 1)%Z, Some value)
      | None => find_grand_total_from (idx + 1)%Z rows' market_value_col
      end
  end.

Definition find_grand_total (df : sheet) (market_value_col : option Z)
  : result (option Z * option num) :=
  find_grand_total_from 0%Z df market_value_col.

(** *** [detect_schema] *)

Record Schema := {
  data_start_row : option Z;
  isin_col : option Z;
  name_col : option Z;
  market_value_col : option Z;
  quantity_col : option Z;
  grand_total_row : option Z;
  grand_total : option num;
}.

(** [str(v).lower() if pd.notna(v) else ''] *)
Definition cell_lower (c : cell) : string :=
  if notna c then Text.lower (cell_str c) else EmptyString.

Definition has_isin (r : row) : bool :=
  existsb (fun val => Text.contains "isin" val) (cell_lower <$> r).

(** The header search: index of the first row with an "isin" cell. *)
Fixpoint find_header_from (idx : Z) (rows : list row) : option Z :=
  match rows with
  | [] => None
  | r :: rows' => if has_isin r then Some idx
                  else find_header_from (idx + 1)%Z rows'
  end.

Definition any_term (terms : list string) (val_lower : string) : bool :=
  existsb (fun term => Text.contains term val_lower) terms.

Definition is_none {A : Type} (o : option A) : bool :=
  match o with None => true | Some _ => false end.

(** The column roles found so far while walking the header row:
    [(isin_col, name_col, market_value_col, quantity_col)]. *)
Definition roles : Type := option Z * option Z * option Z * option Z.

Definition classify (acc : roles) (col_idx : Z) (val : cell) : roles :=
  let '(ic, nc, mc, qc) := acc in
  let val_lower := cell_lower val in
  if Text.contains "isin" val_lower && is_none ic
  then (Some col_idx, nc, mc, qc)
  else if any_term ["instrument"; "name of"; "security"; "company"] val_lower
          && is_none nc
  then (ic, Some col_idx, mc, qc)
  else if any_term ["market"; "fair value"; "nav"; "value"] val_lower
          && negb (Text.contains "net" val_lower) && is_none mc
  then (ic, nc, Some col_idx, qc)
  else if any_term ["quantity"; "qty"; "units"; "nos"] val_lower && is_none qc
  then (ic, nc, mc, Some col_idx)
  else acc.

Fixpoint classify_from (col_idx : Z) (header : row) (acc : roles) : roles :=
  match header with
  | [] => acc
  | val :: header' => classify_from (col_idx + 1)%Z header' (classify acc col_idx val)
  end.

(** [range(a, b)] *)
Definition range (a b : Z) : list Z :=
  (fun k => (a + Z.of_nat k)%Z) <$> seq 0 (Z.to_nat (b - a)).

(** The data-start search over [range(header_row + 1, len(df))]. *)
Fixpoint find_data_start (df : sheet) (ic : option Z) (idxs : list Z)
  : result (option Z) :=
  match idxs with
  | [] => Ok None
  | idx :: idxs' =>
      if is_none ic then find_data_start df ic idxs'
      else
        let! r := iloc df (Some idx) in
        let! c := iloc r ic in
        let isin_val := if notna c then cell_str c else EmptyString in
        if Text.startswith "IN" (Text.strip isin_val)
        then Ok (Some (idx + 1)%Z)
        else find_data_start df ic idxs'
  end.

Definition detect_schema (df : sheet) : result Schema :=
  match find_header_from 0%Z df with
  | None => Raise ValueError
  | Some header_row =>
      let! header := iloc df (Some header_row) in
      let '(ic, nc, mc, qc) := classify_from 0%Z header (None, None, None, None) in
      let! dsr := find_data_start df ic (range (header_row + 1) (Z.of_nat (length df))) in
      let! gt := find_grand_total df mc in
      Ok {| data_start_row := dsr;
            isin_col := ic;
            name_col := nc;
            market_value_col := mc;
            quantity_col := qc;
            grand_total_row := gt.1;
            grand_total := gt.2 |}
  end.

(** *** [load_isin_master] and [load_isin_validation_mapping] results *)

Record master_entry := {
  master_name_nsdl : string;
  master_nse_symbol : string;
}.

Record val_entry := {
  val_isin_mapped : string;
  val_name_mapped : string;
  val_category : string;
  val_reason : string;
}.

(** *** [process_sheet] *)

Record ProcessedRow := {
  isin_original : string;
  isin_assigned : string;
  instrument_name : string;
  market_value : num;
  quantity : num;
  nse_symbol : string;
  name_nsdl : string;
  name_final : string;
  isin_mapped : string;
  name_mapped : string;
  mapping_category : string;
  mapping_reason : string;
}.

(** The three [break] tests, on the row's full text and first cell. *)
Definition is_stop_row (row_data : row) : result bool :=
  let full_row_lower := Text.lower (full_text row_data) in
  if Text.contains "grand total" full_row_lower then Ok true
  else if Text.contains "total net assets" full_row_lower then Ok true
  else
    let! first_cell := first_cell_lower row_data in
    Ok (String.eqb first_cell "total").

(** The "Reverse Repo" look-ahead over [range(idx + 1, len(df))]:
    the value [is_subtotal] has when the inner loop ends. *)
Fixpoint look_ahead (df : sheet) (schema : Schema) (js : list Z) : result bool :=
  match js with
  | [] => Ok false
  | j :: js' =>
      let! next_row := iloc df (Some j) in
      let! nc := iloc next_row (name_col schema) in
      let next_name := cell_text nc in
      let! next_mv := cell_value next_row (market_value_col schema) in
      if is_zero next_mv then look_ahead df schema js'
      else Ok (Text.startswith "reverse repo" (Text.lower next_name)
               && negb (String.eqb (Text.strip (Text.lower next_name)) "reverse repo"))
  end.

(** Identifier assignment and name resolution for an accepted row
    (from "Assign ISIN" to the [ProcessedRow] constructor). *)
Definition resolve (isin_mapping : gmap string master_entry)
    (validation_mapping : gmap string val_entry)
    (isin_original name : string) (market_value quantity : num) : ProcessedRow :=
  let isin_assigned := assign_isin isin_original name in
  let mapping := isin_mapping !! isin_assigned in
  let name_nsdl := from_option master_name_nsdl EmptyString mapping in
  let name_final :=
    if Text.truthy name_nsdl then name_nsdl
    else if String.eqb isin_assigned ISIN_OTHER then ISIN_OTHER_DISPLAY_NAME
    else name in
  let val_mapping := validation_mapping !! isin_assigned in
  let isin_mapped := from_option val_isin_mapped isin_assigned val_mapping in
  let name_mapped := from_option val_name_mapped name_final val_mapping in
  let mapping_category := from_option val_category EmptyString val_mapping in
  let mapping_reason := from_option val_reason EmptyString val_mapping in
  let cash := String.eqb isin_assigned ISIN_OTHER && negb (Text.truthy mapping_category) in
  {| isin_original := isin_original;
     isin_assigned := isin_assigned;
     instrument_name := name;
     market_value := market_value;
     quantity := quantity;
     nse_symbol := from_option master_nse_symbol EmptyString mapping;
     name_nsdl := name_nsdl;
     name_final := name_final;
     isin_mapped := isin_mapped;
     name_mapped := name_mapped;
     mapping_category := if cash then "CASH_AGGREGATE" else mapping_category;
     mapping_reason :=
       if cash
       then "Cash, TREPS, repos, futures, and other non-ISIN items consolidated under synthetic ISIN"
       else mapping_reason |}.

(** What one iteration of the main loop decides for its row. *)
Inductive decision :=
| Stop
| Skip
| Emit (p : ProcessedRow).

(** One iteration of [for idx in range(start_idx, len(df))]; [js] is
    [range(idx + 1, len(df))]. *)
Definition step (df : sheet) (schema : Schema)
    (isin_mapping : gmap string master_entry)
    (validation_mapping : gmap string val_entry)
    (idx : Z) (js : list Z) : result decision :=
  let! row_data := iloc df (Some idx) in
  let! ic := iloc row_data (isin_col schema) in
  let isin_original := cell_text ic in
  let! nc := iloc row_data (name_col schema) in
  let name := cell_text nc in
  let full_row_text := full_text row_data in
  let! stop := is_stop_row row_data in
  if stop then Ok Stop
  else if is_aggregation_row name isin_original full_row_text then Ok Skip
  else
    let! is_subtotal :=
      (if String.eqb (Text.strip (Text.lower name)) "reverse repo"
          && negb (is_valid_isin isin_original)
       then look_ahead df schema js else Ok false) in
    if is_subtotal then Ok Skip
    else
      let! market_value := cell_value row_data (market_value_col schema) in
      if is_zero market_value then Ok Skip
      else
        let! quantity := cell_value row_data (quantity_col schema) in
        Ok (Emit (resolve isin_mapping validation_mapping
                    isin_original name market_value quantity)).

(** The main loop; every emitted row is paired with the index [idx] of
    the sheet row it was read from. *)
Fixpoint walk (df : sheet) (schema : Schema)
    (isin_mapping : gmap string master_entry)
    (validation_mapping : gmap string val_entry)
    (idxs : list Z) : result (list (Z * ProcessedRow)) :=
  match idxs with
  | [] => Ok []
  | idx :: idxs' =>
      let! d := step df schema isin_mapping validation_mapping idx idxs' in
      match d with
      | Stop => Ok []
      | Skip => walk df schema isin_mapping validation_mapping idxs'
      | Emit p =>
          let! rows := walk df schema isin_mapping validation_mapping idxs' in
          Ok ((idx, p) :: rows)
      end
  end.

(** [schema.data_start_row - 1] *)
Definition start_idx (schema : Schema) : result Z :=
  match data_start_row schema with
  | None => Raise TypeError
  | Some r => Ok (r - 1)%Z
  end.

Definition emitted (df : sheet) (schema : Schema)
    (isin_mapping : gmap string master_entry)
    (validation_mapping : gmap string val_entry)
  : result (list (Z * ProcessedRow)) :=
  let! start := start_idx schema in
  walk df schema isin_mapping validation_mapping
       (range start (Z.of_nat (length df))).

(** The sheet rows the emitted rows were read from. *)
Definition emitted_indices (df : sheet) (schema : Schema)
    (isin_mapping : gmap string master_entry)
    (validation_mapping : gmap string val_entry) : result (list Z) :=
  let! indexed := emitted df schema isin_mapping validation_mapping in
  Ok (fst <$> indexed).

Definition process_sheet (df : sheet) (schema : Schema)
    (isin_mapping : gmap string master_entry)
    (validation_mapping : gmap string val_entry)
  : result (list ProcessedRow * num * list (string * string)) :=
  let! indexed := emitted df schema isin_mapping validation_mapping in
  let rows := snd <$> indexed in
  let unmapped :=
    (fun r => (isin_assigned r, instrument_name r)) <$>
    List.filter (fun r => is_none (isin_mapping !! isin_assigned r)
                          && is_valid_isin (isin_assigned r)) rows in
  let calculated_total := foldl fadd zero (market_value <$> rows) in
  Ok (rows, calculated_total, unmapped).

End Sheets.

(** *** [load_isin_validation_mapping] *)

Definition TAB : ascii := "009"%char.
Definition LF : ascii := "010"%char.
Definition CR : ascii := "013"%char.

(** Text-mode reading translates ["\r\n"] and ["\r"] to ["\n"]. *)
Fixpoint universal_newlines (s : string) : string :=
  match s with
  | EmptyString => EmptyString
  | String c s' =>
      if Ascii.eqb c CR
      then match s' with
           | String c' s'' =>
               if Ascii.eqb c' LF then String LF (universal_newlines s'')
               else String LF (universal_newlines s')
           | EmptyString => String LF EmptyString
           end
      else String c (universal_newlines s')
  end.

(** Lines with their terminator, as [f.readlines()] returns them. *)
Fixpoint keep_ends (s : string) : list string :=
  match s with
  | EmptyString => []
  | String c s' =>
      if Ascii.eqb c LF then String LF EmptyString :: keep_ends s'
      else match keep_ends s' with
           | [] => [String c EmptyString]
           | h :: t => String c h :: t
           end
  end.

Definition readlines (content : string) : list string :=
  keep_ends (universal_newlines content).

(** One pass of the [for line in lines[1:]] loop. *)
Definition load_line (mapping : gmap string val_entry) (line : string)
  : gmap string val_entry :=
  let parts := Text.split TAB (Text.strip line) in
  if 3 <=? length parts
  then <[ nth 0 parts EmptyString :=
          {| val_isin_mapped := nth 1 parts EmptyString;
             val_name_mapped := nth 2 parts EmptyString;
             val_category := if 4 <=? length parts then nth 3 parts EmptyString
                             else EmptyString;
             val_reason := if 5 <=? length parts then nth 4 parts EmptyString
                           else EmptyString |} ]> mapping
  else mapping.

(** [mapping_file] is the content of the file, [None] when it does not
    exist. *)
Definition load_isin_validation_mapping (mapping_file : option string)
  : gmap string val_entry :=
  match mapping_file with
  | None => ∅
  | Some content => foldl load_line ∅ (List.skipn 1 (readlines content))
  end.

End Convert.

(** ** [isin_validation_mapping.py] *)

Module Recon.

Definition NAME_CUT_LENGTH : nat := 7.
Definition SYNTHETIC_PREFIX : string := "SYN".
Definition LF : ascii := Convert.LF.

(** [re.sub(r"[^a-z0-9]", "", s)] keeps the characters of the class. *)
Definition standardize_name (name : string) : string :=
  if negb (Text.truthy name) then EmptyString
  else Text.filter (fun c => Text.is_lower c || Text.is_digit c)
                   (Text.strip (Text.lower name)).

(** *** The regular expressions of [extract_company_name]

    Every pattern is matched by hand.  A greedy run followed by something
    its class rejects ([\s+] before a letter, [\d+] before ["."] or ["D"])
    can only succeed with the whole run, so [skip] takes it whole. *)

Fixpoint skip (p : ascii -> bool) (s : string) : string :=
  match s with
  | EmptyString => EmptyString
  | String c s' => if p c then skip p s' else s
  end.

Fixpoint run (p : ascii -> bool) (s : string) : string :=
  match s with
  | EmptyString => EmptyString
  | String c s' => if p c then String c (run p s') else EmptyString
  end.

Definition starts (p : ascii -> bool) (s : string) : bool :=
  match s with
  | EmptyString => false
  | String c _ => p c
  end.

(** [\b] after a word character: the next character, if any, is not one. *)
Definition boundary (s : string) : bool := negb (starts Text.is_word s).

(** [re.search]: a head match at some position. *)
Fixpoint search (m : string -> bool) (s : string) : bool :=
  m s || match s with
         | EmptyString => false
         | String _ s' => search m s'
         end.

(** [.*$] at the head of [t]: [.] stops at a line feed, [$] holds at the
    end and before a final line feed.  The result is what the match
    leaves. *)
Definition dot_star_end (t : string) : option string :=
  let rest := skip (fun c => negb (Ascii.eqb c LF)) t in
  match rest with
  | EmptyString => Some EmptyString
  | String _ EmptyString => Some rest
  | _ => None
  end.

(** [\s+LIT] then [k]: one or more whitespace, the literal, the rest. *)
Definition ws_lit (lit : string) (k : string -> option string) (t : string)
  : option string :=
  if starts Text.is_space t
  then let r := skip Text.is_space t in
       if String.prefix lit r then k (Convert.drop (String.length lit) r) else None
  else None.

(** [\s.*$] *)
Definition ws_one_rest (t : string) : option string :=
  match t with
  | String c t' => if Text.is_space c then dot_star_end t' else None
  | EmptyString => None
  end.

(** [\s+.*$] *)
Definition ws_many_rest (t : string) : option string :=
  if starts Text.is_space t then dot_star_end (skip Text.is_space t) else None.

(** [\.?.*$]: the optional dot first, then without it. *)
Definition opt_dot_rest (t : string) : option string :=
  match t with
  | String "." t' => match dot_star_end t' with
                     | Some r => Some r
                     | None => dot_star_end t
                     end
  | _ => dot_star_end t
  end.

(** [\s+\d+D\s.*$] *)
Definition ws_tenor (t : string) : option string :=
  if starts Text.is_space t
  then let r := skip Text.is_space t in
       if starts Text.is_digit r
       then match skip Text.is_digit r with
            | String "D" t' => ws_one_rest t'
            | _ => None
            end
       else None
  else None.

(** The list [suffixes], each as its head matcher. *)
Definition suffixes : list (string -> option string) :=
  [ ws_lit "LIMITED" dot_star_end;
    ws_lit "LTD" opt_dot_rest;
    ws_lit "BANK" ws_many_rest;
    ws_lit "EQ" ws_one_rest;
    ws_lit "CD" ws_one_rest;
    ws_lit "CP" ws_one_rest;
    ws_lit "NCD" ws_one_rest;
    ws_tenor ].

(** [re.sub(suffix, '', name)] for a pattern that ends in [.*$]: the
    leftmost match is removed, and it reaches the end of the name. *)
Fixpoint sub_suffix (m : string -> option string) (s : string) : string :=
  match m s with
  | Some kept => kept
  | None => match s with
            | EmptyString => EmptyString
            | String c s' => String c (sub_suffix m s')
            end
  end.

(** [re.sub(r'\s+', ' ', name)] *)
Fixpoint squeeze (s : string) : string :=
  match s with
  | EmptyString => EmptyString
  | String c s' =>
      if Text.is_space c
      then if starts Text.is_space s' then squeeze s'
           else String " " (squeeze s')
      else String c (squeeze s')
  end.

(** [re.match(r'^(.+?\s+BANK)\b', name)], from inside the lazy [.+?]:
    what group 1 holds from the current position on. *)
Fixpoint bank_from (s : string) : option string :=
  let here :=
    if starts Text.is_space s
    then let r := skip Text.is_space s in
         if String.prefix "BANK" r && boundary (Convert.drop 4 r)
         then Some (run Text.is_space s +:+ "BANK") else None
    else None in
  match here with
  | Some g => Some g
  | None =>
      match s with
      | EmptyString => None
      | String c s' => if Ascii.eqb c LF then None
                       else String c <$> bank_from s'
      end
  end.

Definition bank_match (name : string) : option string :=
  match name with
  | EmptyString => None
  | String c s' => if Ascii.eqb c LF then None else String c <$> bank_from s'
  end.

Definition extract_company_name (full_name : string) : string :=
  if negb (Text.truthy full_name) then EmptyString
  else
    let name := Text.strip (Text.upper full_name) in
    match bank_match name with
    | Some g => g
    | None =>
        let name := foldl (fun name suffix => sub_suffix suffix name) name suffixes in
        let name := Text.strip (squeeze name) in
        if String.length name <? 5
        then Text.join " " (take 3 (Text.words (Text.upper full_name)))
        else name
    end.

(** *** Identifier structure *)

(** [seq:02d] *)
Definition two_digits (seq : nat) : string :=
  if seq <? 10 then "0" +:+ pretty seq else pretty seq.

Definition generate_synthetic_isin (issuer_code category : string) (seq : nat)
  : string :=
  SYNTHETIC_PREFIX +:+ issuer_code +:+ category +:+ two_digits seq.

Definition get_security_category (sec_type : string) : string :=
  if String.eqb sec_type "01" then "EQUITY"
  else if String.eqb sec_type "16" || String.eqb sec_type "D6" then "CD"
  else if String.eqb sec_type "14" then "CP"
  else if String.eqb sec_type "07" || String.eqb sec_type "08" then "NCD"
  else "OTHER".

(** *** GOI securities *)

Inductive goi_kind := TBILL | GSEC.

(** [\d+\.\d+\s*(FV|%)] at the head of [s]. *)
Definition coupon_here (s : string) : bool :=
  if starts Text.is_digit s
  then match skip Text.is_digit s with
       | String "." r =>
           if starts Text.is_digit r
           then let t := skip Text.is_space (skip Text.is_digit r) in
                String.prefix "FV" t || String.prefix "%" t
           else false
       | _ => false
       end
  else false.

(** [GOI\s+\d{2}[A-Z]{2}\d{2}] at the head of [s]. *)
Definition dated_here (s : string) : bool :=
  if String.prefix "GOI" s
  then let r := Convert.drop 3 s in
       if starts Text.is_space r
       then match skip Text.is_space r with
            | String d1 (String d2 (String a1 (String a2 (String d3 (String d4 _))))) =>
                Text.is_digit d1 && Text.is_digit d2 && Text.is_upper a1
                && Text.is_upper a2 && Text.is_digit d3 && Text.is_digit d4
            | _ => false
            end
       else false
  else false.

Definition detect_goi_security (name : string) : option goi_kind :=
  if negb (Text.truthy name) then None
  else
    let name_upper := Text.upper name in
    if negb (Text.contains "GOVERNMENT OF INDIA" name_upper)
       && negb (Text.contains "GOI" name_upper) then None
    else if Text.contains "TBILL" name_upper || Text.contains "T-BILL" name_upper
            || Text.contains "T BILL" name_upper then Some TBILL
    else if search coupon_here name_upper then Some GSEC
    else if search dated_here name_upper then Some GSEC
    else None.

(** *** Items: the dictionaries built by [load_holdings_data] *)

Module Item.
Record t `{PyFloat} := {
  isin : string;
  country : string;
  issuer_type : string;
  issuer_code : string;
  security_type : string;
  serial : string;
  check : string;
  base_9 : string;
  name : string;
  name_std : string;
  name_cut : string;
  mv : num;
  funds : Z;
  months : string;
  sec_category : string;
}.
End Item.

(** A row of the aggregate query:
    [(isin, name_final, instrument_name, mv, funds, months)]; a [NULL]
    text is the empty string, a [NULL] sum is [None]. *)
Definition query_row `{PyFloat} : Type :=
  string * string * string * option num * Z * string.

(** [parse_isin] together with the fields added in the loop of
    [load_holdings_data]; [None] when [parse_isin] returns [None]. *)
Definition load_row `{PyFloat} (r : query_row) : option Item.t :=
  let '(isin, name_final, instrument_name, mv, funds, months) := r in
  if negb (Text.truthy isin) || (String.length isin <? 12) then None
  else
    let display_name := if Text.truthy name_final then name_final
                        else instrument_name in
    let name_std := standardize_name display_name in
    let security_type := Text.slice 7 9 isin in
    Some {| Item.isin := isin;
            Item.country := Text.take 2 isin;
            Item.issuer_type := Text.slice 2 3 isin;
            Item.issuer_code := Text.slice 3 7 isin;
            Item.security_type := security_type;
            Item.serial := Text.slice 9 11 isin;
            Item.check := Text.slice 11 12 isin;
            Item.base_9 := Text.take 9 isin;
            Item.name := display_name;
            Item.name_std := name_std;
            Item.name_cut := Text.take NAME_CUT_LENGTH name_std;
            Item.mv := match mv with
                       | Some x => if is_zero x then zero else x
                       | None => zero
                       end;
            Item.funds := funds;
            Item.months := months;
            Item.sec_category := get_security_category security_type |}.

Definition load_holdings_data `{PyFloat} (rows : list query_row) : list Item.t :=
  omap load_row rows.

Definition generate_aggregated_name `{PyFloat} (items : list Item.t)
    (category : string) : string :=
  match items with
  | [] => EmptyString
  | first :: _ =>
      let first_name := Item.name first in
      let base_name := extract_company_name first_name in
      if String.eqb category "CD" then base_name +:+ " CD"
      else if String.eqb category "CP"
      then if Text.contains "365D" (Text.upper first_name)
           then base_name +:+ " 365D CP" else base_name +:+ " CP"
      else base_name +:+ " " +:+ category
  end.

(** *** Rows of the validation output *)

Module Row.
Record t `{PyFloat} := {
  name_cut : string;
  category : string;
  action : string;
  reason : string;
  isin_original : string;
  isin_mapped : string;
  name_original : string;
  name_mapped : string;
  mv : num;
  issuer_code : string;
  is_target : bool;
}.
End Row.

(** The categories; each is the key of one list of [results]. *)
Inductive category :=
| CORPORATE_ACTION
| CD_AGGREGATE
| CP_AGGREGATE
| TBILL_AGGREGATE
| GSEC_AGGREGATE
| NO_ACTION.

#[global] Instance category_eq_dec : EqDecision category.
Proof. solve_decision. Defined.

Section Engine.
Context `{PyFloat}.

(** The dictionary [results]. *)
Record results := {
  corporate_action : list Row.t;
  cd_aggregate : list Row.t;
  cp_aggregate : list Row.t;
  tbill_aggregate : list Row.t;
  gsec_aggregate : list Row.t;
  no_action : list Row.t;
  validation_rows : list Row.t;
}.

Definition rows_of (c : category) (r : results) : list Row.t :=
  match c with
  | CORPORATE_ACTION => corporate_action r
  | CD_AGGREGATE => cd_aggregate r
  | CP_AGGREGATE => cp_aggregate r
  | TBILL_AGGREGATE => tbill_aggregate r
  | GSEC_AGGREGATE => gsec_aggregate r
  | NO_ACTION => no_action r
  end.

(** [results[c].append(row); results['validation_rows'].append(row)] *)
Definition append_row (c : category) (row : Row.t) (r : results) : results :=
  let at_ c' l := if decide (c' = c) then l ++ [row] else l in
  {| corporate_action := at_ CORPORATE_ACTION (corporate_action r);
     cd_aggregate := at_ CD_AGGREGATE (cd_aggregate r);
     cp_aggregate := at_ CP_AGGREGATE (cp_aggregate r);
     tbill_aggregate := at_ TBILL_AGGREGATE (tbill_aggregate r);
     gsec_aggregate := at_ GSEC_AGGREGATE (gsec_aggregate r);
     no_action := at_ NO_ACTION (no_action r);
     validation_rows := validation_rows r ++ [row] |}.

(** [results] and [processed_isins], the two things the loops update. *)
Record state := {
  res : results;
  processed_isins : gset string;
}.

Definition append (c : category) (row : Row.t) (st : state) : state :=
  {| res := append_row c row (res st);
     processed_isins := processed_isins st |}.

(** [processed_isins.add(isin)] *)
Definition add (isin : string) (st : state) : state :=
  {| res := res st; processed_isins := {[isin]} ∪ processed_isins st |}.

Definition is_processed (st : state) (item : Item.t) : bool :=
  bool_decide (Item.isin item ∈ processed_isins st).

(** [defaultdict(list)] filled by [d[key(x)].append(x)], in insertion
    order. *)
Fixpoint group_insert {A : Type} (k : string) (x : A)
    (groups : list (string * list A)) : list (string * list A) :=
  match groups with
  | [] => [(k, [x])]
  | (k', xs) :: rest =>
      if String.eqb k k' then (k', xs ++ [x]) :: rest
      else (k', xs) :: group_insert k x rest
  end.

Definition group_by {A : Type} (f : A -> string) (l : list A)
  : list (string * list A) :=
  foldl (fun groups x => group_insert (f x) x groups) [] l.

(** [sorted(l, key=f)]: stable, by the order of [str]. *)
Fixpoint insert_by {A : Type} (f : A -> string) (x : A) (l : list A) : list A :=
  match l with
  | [] => [x]
  | y :: l' => if Text.leb (f x) (f y) then x :: l else y :: insert_by f x l'
  end.

Definition sorted {A : Type} (f : A -> string) (l : list A) : list A :=
  foldr (insert_by f) [] l.

(** [len(set(item['isin'] for item in items))] *)
Definition unique_isins (items : list Item.t) : nat :=
  size (list_to_set (Item.isin <$> items) : gset string).

(** **** The rows *)

Definition tbill_row (item : Item.t) : Row.t :=
  {| Row.name_cut := "governm";
     Row.category := "TBILL_AGGREGATE";
     Row.action := "AGGREGATE";
     Row.reason := "GOI T-Bill, aggregate to synthetic";
     Row.isin_original := Item.isin item;
     Row.isin_mapped := "SYNGOITBILL01";
     Row.name_original := Text.take 60 (Item.name item);
     Row.name_mapped := "GOI T-BILL";
     Row.mv := Item.mv item;
     Row.issuer_code := "GOI";
     Row.is_target := false |}.

Definition gsec_row (item : Item.t) : Row.t :=
  {| Row.name_cut := "governm";
     Row.category := "GSEC_AGGREGATE";
     Row.action := "AGGREGATE";
     Row.reason := "GOI G-Sec (dated bond), aggregate to synthetic";
     Row.isin_original := Item.isin item;
     Row.isin_mapped := "SYNGOIGSEC01";
     Row.name_original := Text.take 60 (Item.name item);
     Row.name_mapped := "GOI G-SEC";
     Row.mv := Item.mv item;
     Row.issuer_code := "GOI";
     Row.is_target := false |}.

Definition corporate_action_row (name_cut issuer_code : string)
    (newest item : Item.t) : Row.t :=
  let is_target := String.eqb (Item.isin item) (Item.isin newest) in
  {| Row.name_cut := name_cut;
     Row.category := "CORPORATE_ACTION";
     Row.action := if is_target then "TARGET" else "MAP";
     Row.reason :=
       ("Same issuer " +:+ issuer_code +:+ ", equity, serial " +:+ Item.serial item)
       +:+ (if is_target then " (TARGET - newest)"
            else " -> " +:+ Item.serial newest);
     Row.isin_original := Item.isin item;
     Row.isin_mapped := Item.isin newest;
     Row.name_original := Text.take 60 (Item.name item);
     Row.name_mapped := Text.take 60 (Item.name newest);
     Row.mv := Item.mv item;
     Row.issuer_code := issuer_code;
     Row.is_target := is_target |}.

(** The rows of [CD_AGGREGATE] ([kind = "CD"]) and [CP_AGGREGATE]
    ([kind = "CP"]) are built alike. *)
Definition aggregate_row (kind name_cut issuer_code synthetic_isin
    aggregated_name : string) (item : Item.t) : Row.t :=
  {| Row.name_cut := name_cut;
     Row.category := kind +:+ "_AGGREGATE";
     Row.action := "AGGREGATE";
     Row.reason := kind +:+ " for issuer " +:+ issuer_code
                   +:+ ", aggregate to synthetic";
     Row.isin_original := Item.isin item;
     Row.isin_mapped := synthetic_isin;
     Row.name_original := Text.take 60 (Item.name item);
     Row.name_mapped := aggregated_name;
     Row.mv := Item.mv item;
     Row.issuer_code := issuer_code;
     Row.is_target := false |}.

Definition no_action_row (name_cut issuer_code : string) (item : Item.t)
  : Row.t :=
  {| Row.name_cut := name_cut;
     Row.category := "NO_ACTION";
     Row.action := "NONE";
     Row.reason := "Different issuer " +:+ issuer_code
                   +:+ ", valid separate company";
     Row.isin_original := Item.isin item;
     Row.isin_mapped := Item.isin item;
     Row.name_original := Text.take 60 (Item.name item);
     Row.name_mapped := Text.take 60 (Item.name item);
     Row.mv := Item.mv item;
     Row.issuer_code := issuer_code;
     Row.is_target := false |}.

(** **** [detect_and_categorize] *)

Definition empty_results : results :=
  {| corporate_action := []; cd_aggregate := []; cp_aggregate := [];
     tbill_aggregate := []; gsec_aggregate := []; no_action := [];
     validation_rows := [] |}.

(** Pre-step, first loop: [(goi_tbills, goi_gsecs, processed_isins)]. *)
Definition goi_scan_step (acc : list Item.t * list Item.t * gset string)
    (item : Item.t) : list Item.t * list Item.t * gset string :=
  let '(goi_tbills, goi_gsecs, processed) := acc in
  match detect_goi_security (Item.name item) with
  | Some TBILL => (goi_tbills ++ [item], goi_gsecs, {[Item.isin item]} ∪ processed)
  | Some GSEC => (goi_tbills, goi_gsecs ++ [item], {[Item.isin item]} ∪ processed)
  | None => acc
  end.

Definition goi_scan (data : list Item.t)
  : list Item.t * list Item.t * gset string :=
  foldl goi_scan_step ([], [], ∅) data.

(** [for item in items: append the row] (the GOI loops, which do not
    touch [processed_isins]). *)
Definition append_all (c : category) (mk : Item.t -> Row.t)
    (items : list Item.t) (st : state) : state :=
  foldl (fun st item => append c (mk item) st) st items.

(** [for item in items: append the row; processed_isins.add(...)] *)
Definition record_all (c : category) (mk : Item.t -> Row.t)
    (items : list Item.t) (st : state) : state :=
  foldl (fun st item => add (Item.isin item) (append c (mk item) st)) st items.

Definition unprocessed (st : state) (items : list Item.t) : list Item.t :=
  List.filter (fun i => negb (is_processed st i)) items.

(** The body of [for base9, base9_items in by_base9.items()]. *)
Definition base9_step (name_cut issuer_code : string) (st : state)
    (g : string * list Item.t) : state :=
  let unique_base9_isins := unprocessed st g.2 in
  match unique_base9_isins with
  | first :: _ =>
      if (2 <=? length unique_base9_isins)
         && String.eqb (Item.security_type first) "01"
      then
        let sorted_items := sorted Item.serial unique_base9_isins in
        match last sorted_items with
        | Some newest =>
            record_all CORPORATE_ACTION
              (corporate_action_row name_cut issuer_code newest) sorted_items st
        | None => st
        end
      else st
  | [] => st
  end.

(** The CD and CP blocks: [kind] is ["CD"] or ["CP"]. *)
Definition aggregate_step (c : category) (kind name_cut issuer_code : string)
    (issuer_items : list Item.t) (st : state) : state :=
  let picked :=
    List.filter (fun i => String.eqb (Item.sec_category i) kind
                          && negb (is_processed st i)) issuer_items in
  if 2 <=? length picked
  then
    let synthetic_isin := generate_synthetic_isin issuer_code kind 1 in
    let aggregated_name := generate_aggregated_name picked kind in
    record_all c (aggregate_row kind name_cut issuer_code synthetic_isin
                    aggregated_name) picked st
  else st.

(** The body of the first [for issuer_code, issuer_items in
    by_issuer.items()]. *)
Definition issuer_step (name_cut : string) (st : state)
    (g : string * list Item.t) : state :=
  let '(issuer_code, issuer_items) := g in
  if unique_isins issuer_items <? 2 then st
  else
    let by_base9 := group_by Item.base_9 issuer_items in
    let st := foldl (base9_step name_cut issuer_code) st by_base9 in
    let st := aggregate_step CD_AGGREGATE "CD" name_cut issuer_code issuer_items st in
    aggregate_step CP_AGGREGATE "CP" name_cut issuer_code issuer_items st.

(** The [NO_ACTION] loops: each item is tested when its turn comes. *)
Definition no_action_item (name_cut issuer_code : string) (st : state)
    (item : Item.t) : state :=
  if negb (is_processed st item)
  then add (Item.isin item)
         (append NO_ACTION (no_action_row name_cut issuer_code item) st)
  else st.

Definition no_action_step (name_cut : string) (st : state)
    (g : string * list Item.t) : state :=
  foldl (no_action_item name_cut g.1) st g.2.

(** The body of [for name_cut, items in sorted(name_groups.items())]. *)
Definition name_group_step (st : state) (g : string * list Item.t) : state :=
  let '(name_cut, items) := g in
  if length items <? 2 then st
  else if unique_isins items <? 2 then st
  else
    let by_issuer := group_by Item.issuer_code items in
    let st := foldl (issuer_step name_cut) st by_issuer in
    if 1 <? length by_issuer
    then foldl (no_action_step name_cut) st by_issuer
    else st.

(** The state after the pre-step: both GOI lists are written out. *)
Definition goi_state (data : list Item.t) : state :=
  let '(goi_tbills, goi_gsecs, processed) := goi_scan data in
  let st := {| res := empty_results; processed_isins := processed |} in
  let st := append_all TBILL_AGGREGATE tbill_row goi_tbills st in
  append_all GSEC_AGGREGATE gsec_row goi_gsecs st.

(** Step 1: [name_groups]. *)
Definition name_groups (st : state) (data : list Item.t)
  : list (string * list Item.t) :=
  group_by Item.name_cut
    (List.filter (fun item => Text.truthy (Item.name_cut item)
                              && negb (is_processed st item)) data).

Definition run_engine (data : list Item.t) : state :=
  let st := goi_state data in
  foldl name_group_step st (sorted fst (name_groups st data)).

Definition detect_and_categorize (data : list Item.t) : results :=
  res (run_engine data).

(** **** [write_mapping_file] *)

Definition mapping_line (category : string) (row : Row.t) : list string :=
  [Row.isin_original row; Row.isin_mapped row; Row.name_mapped row;
   category; Row.reason row].

(** The fields of the lines after the header, in the order written. *)
Definition mapping_records (r : results) : list (list string) :=
  (mapping_line "CORPORATE_ACTION" <$>
     List.filter (fun row => String.eqb (Row.action row) "MAP") (corporate_action r))
  ++ (mapping_line "CD_AGGREGATE" <$> cd_aggregate r)
  ++ (mapping_line "CP_AGGREGATE" <$> cp_aggregate r)
  ++ (mapping_line "TBILL_AGGREGATE" <$> tbill_aggregate r)
  ++ (mapping_line "GSEC_AGGREGATE" <$> gsec_aggregate r).

Definition headers : list string :=
  ["isin_original"; "isin_mapped"; "name_mapped"; "category"; "reason"].

(** The content written to [isin_mapping_final.txt]. *)
Definition write_mapping_file (r : results) : string :=
  Text.join (String LF EmptyString)
    (Text.join (String Convert.TAB EmptyString) <$> (headers :: mapping_records r)).

End Engine.

End Recon.

(** ** A float model for worked examples

    Whole numbers and [nan]: enough to evaluate the code on sheets whose
    numeric cells hold integers.  [float] of a text accepts decimal digits
    with an optional minus sign in front, without blanks around them, and
    rejects everything else. *)

Module IntFloat.

(** The value of a decimal digit. *)
Definition digit (c : ascii) : option Z := Z.of_nat <$> Ascii.is_nat c.

Fixpoint digits (acc : Z) (s : string) : option Z :=
  match s with
  | EmptyString => Some acc
  | String c s' =>
      match digit c with
      | Some d => digits (10 * acc + d) s'
      | None => None
      end
  end.

Definition parse (s : string) : option (option Z) :=
  match s with
  | EmptyString => None
  | String "-" (String c r) => (fun z => Some (- z)%Z) <$> digits 0 (String c r)
  | String c r => Some <$> digits 0 (String c r)
  end.

Definition model : PyFloat :=
  {| num := option Z;
     float_of_str := parse;
     nan := None;
     zero := Some 0%Z;
     gt_10000 := fun x => match x with Some z => (10000 <? z)%Z | None => false end;
     is_zero := fun x => match x with Some z => (z =? 0)%Z | None => false end;
     fadd := fun x y => match x, y with
                        | Some a, Some b => Some (a + b)%Z
                        | _, _ => None
                        end |}.

(** A numeric cell holding the integer [z]. *)
Definition int (z : Z) : @Convert.cell model :=
  @Convert.CNum model (Some z) (pretty z).

Definition text (s : string) : @Convert.cell model := @Convert.CStr model s.

End IntFloat.

(** ** Vocabulary of the statements *)

Module Spec.
Section Spec.
Context `{PyFloat}.

(** A position a row can be read at: inside [[-len, len)]. *)
Definition col_ok (r : Convert.row) (k : Z) : Prop :=
  (- Z.of_nat (length r) <= k < Z.of_nat (length r))%Z.

(** A column index that is unset or can be read in the row. *)
Definition opt_col_ok (r : Convert.row) (k : option Z) : Prop :=
  match k with
  | None => True
  | Some i => col_ok r i
  end.

(** A sheet as a [DataFrame] holds it: every row has the [w] cells of the
    frame. *)
Definition rectangular (w : nat) (df : Convert.sheet) : Prop :=
  Forall (fun r => length r = w) df.


(** [c] is a numeric cell that exceeds the floor, with value [v]. *)
Definition large (c : Convert.cell) (v : num) : Prop :=
  Convert.notna c = true /\ Convert.cell_float c = Ok v /\ gt_10000 v = true.

(** [v] is the value of the first numeric cell of [r] above the floor. *)
Definition first_large_is (r : Convert.row) (v : num) : Prop :=
  exists pre c post,
    r = pre ++ c :: post /\ large c v /\ Forall (fun c' => forall v', ~ large c' v') pre.

(** What a row hands back as the declared total: the value column of a
    "grand total" row, or the first large numeric cell of a "total net
    assets" row or of a row whose first cell is exactly "total". *)
Definition declares (r : Convert.row) (col : option Z) (v : num) : Prop :=
  let row_str := Text.lower (Convert.full_text r) in
  (Text.contains "grand total" row_str = true
   /\ bind (Convert.iloc r col) Convert.cell_float = Ok v)
  \/ ((Text.contains "total net assets" row_str = true
       \/ Convert.first_cell_lower r = Ok "total")
      /\ first_large_is r v).

(** Every row of the sheet can be read at the columns of the schema. *)
Definition schema_fits (df : Convert.sheet) (s : Convert.Schema) : Prop :=
  exists ic nc,
    Convert.isin_col s = Some ic /\ Convert.name_col s = Some nc
    /\ Forall (fun r => col_ok r ic /\ col_ok r nc
                        /\ opt_col_ok r (Convert.market_value_col s)
                        /\ opt_col_ok r (Convert.quantity_col s)) df.




(** The identifier column among the roles found so far. *)
Definition isin_role (acc : Convert.roles) : option Z := acc.1.1.1.

End Spec.
End Spec.

(** ** Vocabulary of the reconciliation statements *)

Module ReconSpec.
Import Recon.
Section ReconSpec.
Context `{PyFloat}.

(** The text a category is written as. *)
Definition category_name (c : category) : string :=
  match c with
  | CORPORATE_ACTION => "CORPORATE_ACTION"
  | CD_AGGREGATE => "CD_AGGREGATE"
  | CP_AGGREGATE => "CP_AGGREGATE"
  | TBILL_AGGREGATE => "TBILL_AGGREGATE"
  | GSEC_AGGREGATE => "GSEC_AGGREGATE"
  | NO_ACTION => "NO_ACTION"
  end.

(** The aggregate query groups by identifier: no two items share one. *)
Definition distinct (data : list Item.t) : Prop := NoDup (Item.isin <$> data).

(** A list of items taken from [data], each identifier once. *)
Definition within (data l : list Item.t) : Prop :=
  distinct l /\ forall x, x ∈ l -> x ∈ data.

(** What holds of every row found under category [c]. *)
Definition good (data : list Item.t) (c : category) (row : Row.t) : Prop :=
  Row.category row = category_name c
  /\ (exists item, item ∈ data /\ Row.isin_original row = Item.isin item)
  /\ starts (fun ch => negb (Text.is_space ch)) (Row.reason row) = true
  /\ match c with
     | CORPORATE_ACTION =>
         (Row.action row = "TARGET" /\ Row.isin_mapped row = Row.isin_original row)
         \/ (Row.action row = "MAP" /\ Row.isin_mapped row <> Row.isin_original row)
     | NO_ACTION => Row.action row = "NONE"
     | _ => Row.action row = "AGGREGATE"
            /\ String.prefix "SYN" (Row.isin_mapped row) = true
     end.

(** A base-prefix group classified as a corporate action: the name prefix
    and issuer it was found under, its members in the order their rows are
    written, and the member taken as newest. *)
Record ca_group := {
  g_name_cut : string;
  g_issuer_code : string;
  g_members : list Item.t;
  g_newest : Item.t;
}.

Definition group_rows (g : ca_group) : list Row.t :=
  corporate_action_row (g_name_cut g) (g_issuer_code g) (g_newest g) <$> g_members g.

(** At least two items of [data] with distinct identifiers and one base
    prefix; the newest is the last member and no member has a higher
    serial. *)
Definition group_ok (data : list Item.t) (g : ca_group) : Prop :=
  2 <= length (g_members g)
  /\ within data (g_members g)
  /\ last (g_members g) = Some (g_newest g)
  /\ (forall m, m ∈ g_members g ->
        Text.leb (Item.serial m) (Item.serial (g_newest g)) = true)
  /\ (forall m, m ∈ g_members g -> Item.base_9 m = Item.base_9 (g_newest g)).

(** The rows under [CORPORATE_ACTION] are the rows of such groups, group
    after group. *)
Definition ca_decomposed (data : list Item.t) (rows : list Row.t) : Prop :=
  exists groups, rows = concat (group_rows <$> groups)
                 /\ Forall (group_ok data) groups.

(** The invariant of the engine's loops. *)
Record invariant (data : list Item.t) (st : state) : Prop := {
  inv_sublist : forall c, rows_of c (res st) `sublist_of` validation_rows (res st);
  inv_processed : forall row, row ∈ validation_rows (res st) ->
                              Row.isin_original row ∈ processed_isins st;
  inv_nodup : NoDup (Row.isin_original <$> validation_rows (res st));
  inv_good : forall c row, row ∈ rows_of c (res st) -> good data c row;
  inv_groups : ca_decomposed data (corporate_action (res st));
}.

(** The value of a serial made of two decimal digits. *)
Definition serial_number (serial : string) : option nat :=
  match serial with
  | String a (String b EmptyString) =>
      if Text.is_digit a && Text.is_digit b
      then Some (10 * (Text.code a - 48) + (Text.code b - 48))
      else None
  | _ => None
  end.

(** What holds of one corporate-action group, on its rows: one row is the
    canonical one, it belongs to the newest member, no member has a higher
    serial (numerically, when serials are numbers), and every other row maps
    to the canonical identifier and name. *)
Definition canonical (g : ca_group) : Prop :=
  exists t,
    t ∈ group_rows g
    /\ List.filter Row.is_target (group_rows g) = [t]
    /\ Row.action t = "TARGET"
    /\ Row.isin_original t = Item.isin (g_newest g)
    /\ (forall m, m ∈ g_members g ->
          Text.leb (Item.serial m) (Item.serial (g_newest g)) = true
          /\ forall a b, serial_number (Item.serial m) = Some a ->
                         serial_number (Item.serial (g_newest g)) = Some b -> a <= b)
    /\ (forall r, r ∈ group_rows g -> r <> t ->
          Row.is_target r = false /\ Row.action r = "MAP"
          /\ Row.isin_mapped r = Row.isin_original t
          /\ Row.name_mapped r = Row.name_original t).

(** The items the pre-step puts in [goi_tbills] and in [goi_gsecs]. *)
Definition is_goi (k : goi_kind) (item : Item.t) : bool :=
  match detect_goi_security (Item.name item), k with
  | Some TBILL, TBILL | Some GSEC, GSEC => true
  | _, _ => false
  end.

(** *** The base-prefix groups of the engine *)

(** The items the main loop groups: those with a name prefix that the
    pre-step left. *)
Definition eligible (item : Item.t) : bool :=
  Text.truthy (Item.name_cut item)
  && negb (is_goi TBILL item || is_goi GSEC item).

(** [key f k x]: the item [x] is filed under [k] by [d[f(x)].append(x)]. *)
Definition key {A : Type} (f : A -> string) (k : string) (x : A) : bool :=
  String.eqb (f x) k.

(** The base-prefix group the engine forms under the name prefix [nc], the
    issuer code [ic] and the base prefix [b]: the eligible items of the
    ledger with these three keys, in the order of the ledger. *)
Definition base_group (data : list Item.t) (nc ic b : string) : list Item.t :=
  List.filter (key Item.base_9 b)
    (List.filter (key Item.issuer_code ic)
       (List.filter (key Item.name_cut nc) (List.filter eligible data))).

(** The test of the engine for a corporate action: at least two members,
    the first of which is an equity (security type "01"). *)
Definition classified (g : list Item.t) : bool :=
  match g with
  | first :: _ => (2 <=? length g) && String.eqb (Item.security_type first) "01"
  | [] => false
  end.

(** The rows of a list that belong to the members of a group. *)
Definition member_rows (g : list Item.t) (rows : list Row.t) : list Row.t :=
  List.filter (fun row => bool_decide (Row.isin_original row ∈ Item.isin <$> g)) rows.

(** The group as the engine records it: the members by ascending serial,
    with the member it takes as newest. *)
Definition recorded (nc ic : string) (g : list Item.t) (newest : Item.t) : ca_group :=
  {| g_name_cut := nc; g_issuer_code := ic;
     g_members := sorted Item.serial g; g_newest := newest |}.

(** The rows the three nested loops add under [CORPORATE_ACTION] when every
    item they meet is still unprocessed. *)
Definition base9_rows (nc ic : string) (items : list Item.t) : list Row.t :=
  if classified items
  then match last (sorted Item.serial items) with
       | Some newest => corporate_action_row nc ic newest <$> sorted Item.serial items
       | None => []
       end
  else [].

Definition issuer_rows (nc : string) (g : string * list Item.t) : list Row.t :=
  if unique_isins g.2 <? 2 then []
  else concat ((fun b => base9_rows nc g.1 b.2) <$> group_by Item.base_9 g.2).

Definition name_rows (g : string * list Item.t) : list Row.t :=
  if length g.2 <? 2 then []
  else if unique_isins g.2 <? 2 then []
  else concat (issuer_rows g.1 <$> group_by Item.issuer_code g.2).

(** No item of the list is in [processed_isins]. *)
Definition fresh (st : state) (items : list Item.t) : Prop :=
  forall x, x ∈ items -> Item.isin x ∉ processed_isins st.

(** From [st] to [st'] only identifiers of [items] were added to
    [processed_isins]. *)
Definition covers (st st' : state) (items : list Item.t) : Prop :=
  forall k, k ∈ processed_isins st' ->
            k ∈ processed_isins st \/ k ∈ Item.isin <$> items.

End ReconSpec.

(** The order [sorted] sorts by. *)
Definition by_key {A : Type} (f : A -> string) : relation A :=
  fun x y => String.le (f x) (f y).

End ReconSpec.

(** ** Vocabulary of the artifact statements *)

Module Artifact.
Import Convert.

Definition free_of (c : ascii) (s : string) : bool :=
  Text.forallb (fun x => negb (Ascii.eqb x c)) s.

Definition plain (s : string) : bool :=
  free_of TAB s && free_of LF s && free_of CR s.

Definition solid (s : string) : bool :=
  Recon.starts (fun c => negb (Text.is_space c)) s.

Definition tabbed (a b : string) : string := a +:+ String TAB b.

(** What reading back makes of a written record. *)
Definition read_record (mapping : gmap string val_entry) (record : list string)
  : gmap string val_entry :=
  match record with
  | [f0; f1; f2; f3; f4] =>
      <[ f0 := {| val_isin_mapped := f1; val_name_mapped := f2;
                  val_category := f3; val_reason := Text.rstrip f4 |} ]> mapping
  | _ => mapping
  end.

(** A record that survives the tab-separated file: five fields without
    tabs or line breaks, the first and the last starting with a character
    that is not a blank. *)
Definition sound_record (record : list string) : Prop :=
  length record = 5
  /\ Forall (fun f => plain f = true) record
  /\ solid (hd EmptyString record) = true
  /\ solid (List.last record EmptyString) = true.

Definition line_of (record : list string) : string :=
  Text.join (String TAB EmptyString) record.

Section Rows.
Context `{PyFloat}.
Import Recon ReconSpec.

(** The rows that are written, with the category of each list. *)
Definition written (r : results) : list (category * list Row.t) :=
  [ (CORPORATE_ACTION,
     List.filter (fun row => String.eqb (Row.action row) "MAP") (corporate_action r));
    (CD_AGGREGATE, cd_aggregate r);
    (CP_AGGREGATE, cp_aggregate r);
    (TBILL_AGGREGATE, tbill_aggregate r);
    (GSEC_AGGREGATE, gsec_aggregate r) ].

(** The columns of a holdings record that the engine reads back from the
    ledger: [isin_assigned], [name_final], [instrument_name] and
    [market_value]. *)
Definition columns (p : Convert.ProcessedRow) : string * string * string * num :=
  (Convert.isin_assigned p, Convert.name_final p, Convert.instrument_name p,
   Convert.market_value p).



End Rows.
End Artifact.

(** ** Sample inputs *)

Module Sample.
Import IntFloat.

(** Scenario A of the specification: a header, two identifier rows, a cash
    row and the "Grand Total" row. *)
Definition scenario_a : @Convert.sheet model :=
  [ [text "Sr"; text "Name of Instrument"; text "ISIN"; text "Quantity"; text "Market Value"];
    [int 1; text "Alpha Ltd"; text "INE000000010"; int 10; int 100];
    [int 2; text "Beta Ltd"; text "INE000000028"; int 20; int 200];
    [int 3; text "TREPS"; @Convert.CNaN model; @Convert.CNaN model; int 50];
    [text "Grand Total"; @Convert.CNaN model; @Convert.CNaN model; @Convert.CNaN model; int 350] ].

(** A header row and a cash line: no row below the header holds an
    identifier that starts with "IN". *)
Definition header_only : @Convert.sheet model :=
  [ [text "Name of Instrument"; text "ISIN"; text "Market Value"];
    [text "Net Receivables"; @Convert.CNaN model; int 50] ].

(** Two holdings, their "Sub Total" line and the "Grand Total" line. *)
Definition with_subtotal : @Convert.sheet model :=
  [ [text "Name of Instrument"; text "ISIN"; text "Market Value"];
    [text "Alpha Ltd"; text "INE000000010"; int 100];
    [text "Beta Ltd"; text "INE000000028"; int 200];
    [text "Sub Total"; @Convert.CNaN model; int 300];
    [text "Grand Total"; @Convert.CNaN model; int 300] ].

Definition with_subtotal_schema : @Convert.Schema model :=
  {| Convert.data_start_row := Some 2%Z;
     Convert.isin_col := Some 1%Z;
     Convert.name_col := Some 0%Z;
     Convert.market_value_col := Some 2%Z;
     Convert.quantity_col := None;
     Convert.grand_total_row := Some 5%Z;
     Convert.grand_total := Some (Some 300%Z : @num model) |}.

(** A ledger as the aggregate query returns it: a corporate action, three
    certificates of deposit of one issuer, two issuers that share a name
    prefix, a government bond and a treasury bill. *)
Definition query (isin name : string) (mv : Z) : @Recon.query_row model :=
  (isin, name, EmptyString, Some (Some mv), 1%Z, "2025-12-31").

Definition ledger_rows : list (@Recon.query_row model) :=
  [ query "IN0020240019" "GOI 20JU27 7.38 FV RS 100" 5;
    query "IN0020240027" "Government of India 364 DAYS TBILL 06NV25" 5;
    query "INE012A01015" "Acme Industries Ltd" 10;
    query "INE012A01023" "Acme Industries Limited" 20;
    query "INE045B16011" "Zeta Bank Limited CD 08JAN26" 10;
    query "INE045B16029" "Zeta Bank Limited CD 09FEB26" 20;
    query "INE045B16037" "Zeta Bank Ltd CD" 5;
    query "INE111A01011" "Sundaram Finance" 10;
    query "INE222B01029" "Sundaram Clayton" 20 ].

Definition ledger : list (@Recon.Item.t model) :=
  Recon.load_holdings_data ledger_rows.

Definition blank : @Recon.Item.t model :=
  {| Recon.Item.isin := EmptyString; Recon.Item.country := EmptyString;
     Recon.Item.issuer_type := EmptyString; Recon.Item.issuer_code := EmptyString;
     Recon.Item.security_type := EmptyString; Recon.Item.serial := EmptyString;
     Recon.Item.check := EmptyString; Recon.Item.base_9 := EmptyString;
     Recon.Item.name := EmptyString; Recon.Item.name_std := EmptyString;
     Recon.Item.name_cut := EmptyString; Recon.Item.mv := (None : @num model);
     Recon.Item.funds := 0%Z; Recon.Item.months := EmptyString;
     Recon.Item.sec_category := EmptyString |}.

(** The item of one query row. *)
Definition item (isin name : string) (mv : Z) : @Recon.Item.t model :=
  default blank (Recon.load_row (query isin name mv)).

Definition tbill_item : @Recon.Item.t model :=
  item "IN0020240027" "Government of India 364 DAYS TBILL 06NV25" 5.

(** The two members of the corporate action of [ledger], and the row
    written for the older one. *)
Definition acme_old : @Recon.Item.t model :=
  item "INE012A01015" "Acme Industries Ltd" 10.

Definition acme_new : @Recon.Item.t model :=
  item "INE012A01023" "Acme Industries Limited" 20.

Definition acme_row : @Recon.Row.t model :=
  Recon.corporate_action_row "acmeind" "012A" acme_new acme_old.





End Sample.

(** ** Vocabulary of the identifier statements *)

Module IsinSpec.
Import Recon.
Section IsinSpec.
Context `{PyFloat}.

(** The identifier of a row of the aggregate query. *)
Definition query_isin (r : query_row) : string := r.1.1.1.1.1.

(** The six fields [parse_isin] cuts an identifier into, in order. *)
Definition fields (item : Item.t) : list string :=
  [Item.country item; Item.issuer_type item; Item.issuer_code item;
   Item.security_type item; Item.serial item; Item.check item].


End IsinSpec.
End IsinSpec.

(** ** Vocabulary of the name statements *)

Module NameSpec.

(** No lower-case letter. *)
Definition upper_case (s : string) : bool :=
  Text.forallb (fun c => negb (Text.is_lower c)) s.

(** A matcher that hands back part of what it was given: what holds of
    every character of the text holds of every character of the rest. *)
Definition hands_back (p : ascii -> bool) (m : string -> option string) : Prop :=
  forall t r, m t = Some r -> Text.forallb p t = true -> Text.forallb p r = true.

End NameSpec.

(** ** Vocabulary of the row statements *)

Module RowSpec.
Import Recon.
Section RowSpec.
Context `{PyFloat}.

(** An item of the ledger, seen from the name-prefix group [nc] and the
    issuer group [ic] it was put in. *)
Definition grouped (data : list Item.t) (nc ic : string) (item : Item.t) : Prop :=
  item ∈ data /\ Item.name_cut item = nc /\ Item.issuer_code item = ic.

(** The rows each list of [results] can receive, with the items they are
    built from. *)
Inductive emits (data : list Item.t) : category -> Row.t -> Prop :=
| emits_tbill (item : Item.t) :
    item ∈ data -> detect_goi_security (Item.name item) = Some TBILL ->
    emits data TBILL_AGGREGATE (tbill_row item)
| emits_gsec (item : Item.t) :
    item ∈ data -> detect_goi_security (Item.name item) = Some GSEC ->
    emits data GSEC_AGGREGATE (gsec_row item)
| emits_corporate_action (nc ic : string) (lead newest item : Item.t) :
    grouped data nc ic item -> grouped data nc ic newest -> grouped data nc ic lead ->
    Item.base_9 item = Item.base_9 newest ->
    Item.base_9 lead = Item.base_9 newest -> Item.security_type lead = "01" ->
    emits data CORPORATE_ACTION (corporate_action_row nc ic newest item)
| emits_cd (nc ic : string) (picked : list Item.t) (item : Item.t) :
    item ∈ picked -> 2 <= length picked ->
    Forall (fun i => grouped data nc ic i /\ Item.sec_category i = "CD") picked ->
    emits data CD_AGGREGATE
      (aggregate_row "CD" nc ic (generate_synthetic_isin ic "CD" 1)
         (generate_aggregated_name picked "CD") item)
| emits_cp (nc ic : string) (picked : list Item.t) (item : Item.t) :
    item ∈ picked -> 2 <= length picked ->
    Forall (fun i => grouped data nc ic i /\ Item.sec_category i = "CP") picked ->
    emits data CP_AGGREGATE
      (aggregate_row "CP" nc ic (generate_synthetic_isin ic "CP" 1)
         (generate_aggregated_name picked "CP") item)
| emits_no_action (nc ic : string) (item : Item.t) :
    grouped data nc ic item ->
    emits data NO_ACTION (no_action_row nc ic item).

(** The rows the main loop can add: everything but the two GOI lists. *)
Definition emits_later (data : list Item.t) (c : category) (row : Row.t) : Prop :=
  emits data c row /\ c <> TBILL_AGGREGATE /\ c <> GSEC_AGGREGATE.

End RowSpec.
End RowSpec.

(** ** [print_summary]: the figures under "TOTALS" *)

Module Summary.
Import Recon.
Section Summary.
Context `{PyFloat}.

Definition corp_map_count (r : results) : nat :=
  length (List.filter (fun row => String.eqb (Row.action row) "MAP") (corporate_action r)).

Definition corp_target_count (r : results) : nat :=
  length (List.filter (fun row => String.eqb (Row.action row) "TARGET")
            (corporate_action r)).

(** The six counts printed before "Total validation rows". *)
Definition counts (r : results) : list nat :=
  [length (corporate_action r); length (cd_aggregate r); length (cp_aggregate r);
   length (tbill_aggregate r); length (gsec_aggregate r); length (no_action r)].

End Summary.
End Summary.

(** ** Excel formats: [detect_excel_engine] and [fix_excel_extensions.py] *)

Module Formats.

Definition byte : Type := Byte.byte.

#[global] Instance byte_eq_dec : EqDecision byte := Byte.byte_eq_dec.

(** [b'PK'] *)
Definition ZIP_SIGNATURE : list byte := [Byte.x50; Byte.x4b].

(** [b'\xd0\xcf\x11\xe0\xa1\xb1\x1a\xe1'] *)
Definition OLE2_SIGNATURE : list byte :=
  [Byte.xd0; Byte.xcf; Byte.x11; Byte.xe0; Byte.xa1; Byte.xb1; Byte.x1a; Byte.xe1].

(** [f.read(8)] on a file opened in binary mode. *)
Definition read (n : nat) (content : list byte) : list byte := take n content.

Inductive engine := openpyxl | xlrd.

(** [convert_mf_portfolio.detect_excel_engine]; [None] is "let pandas
    guess". *)
Definition detect_excel_engine (content : list byte) : option engine :=
  let header := read 8 content in
  if bool_decide (take 2 header = ZIP_SIGNATURE) then Some openpyxl
  else if bool_decide (take 8 header = OLE2_SIGNATURE) then Some xlrd
  else None.

Inductive format := xlsx | xls | unknown.

(** [fix_excel_extensions.detect_format] *)
Definition detect_format (content : list byte) : format :=
  let header := read 8 content in
  if bool_decide (take 2 header = ZIP_SIGNATURE) then xlsx
  else if bool_decide (take 8 header = OLE2_SIGNATURE) then xls
  else unknown.

(** The engine that reads a format. *)
Definition engine_of (f : format) : option engine :=
  match f with
  | xlsx => Some openpyxl
  | xls => Some xlrd
  | unknown => None
  end.

End Formats.

(** ** Vocabulary of the mapping-file statements *)

Module MappingSpec.
Import Convert.

(** [line.strip().split('\t')] *)
Definition fields (line : string) : list string :=
  Text.split TAB (Text.strip line).

(** The entry a line of at least three fields stands for. *)
Definition entry_of (parts : list string) : val_entry :=
  {| val_isin_mapped := nth 1 parts EmptyString;
     val_name_mapped := nth 2 parts EmptyString;
     val_category := if 4 <=? length parts then nth 3 parts EmptyString
                     else EmptyString;
     val_reason := if 5 <=? length parts then nth 4 parts EmptyString
                   else EmptyString |}.

(** A line that sets the entry of [key]. *)
Definition binds (key : string) (parts : list string) : bool :=
  (3 <=? length parts) && String.eqb (nth 0 parts EmptyString) key.

(** The lines below the header, cut into fields. *)
Definition data_lines (content : string) : list (list string) :=
  fields <$> List.skipn 1 (readlines content).

End MappingSpec.

(** ** [process_fund]: the figures printed after extraction *)

Module Report.
Import Convert.
Section Report.
Context `{PyFloat}.

(** [sum(1 for r in rows if is_valid_isin(r.isin_assigned))] *)
Definition valid_isin_count (rows : list ProcessedRow) : nat :=
  length (List.filter (fun r => is_valid_isin (isin_assigned r)) rows).

(** [len(rows) - valid_isin_count] *)
Definition assigned_count (rows : list ProcessedRow) : nat :=
  length rows - valid_isin_count rows.

(** An entry of [assigned_breakdown]. *)
Record breakdown := {
  count : nat;
  total_mv : num;
  names : list string;
}.

(** One pass of [for row in rows] over [assigned_breakdown]. *)
Definition breakdown_step (assigned_breakdown : gmap string breakdown)
    (row : ProcessedRow) : gmap string breakdown :=
  if negb (is_valid_isin (isin_original row))
  then
    let key := isin_assigned row in
    let entry := default {| count := 0; total_mv := zero; names := [] |}
                         (assigned_breakdown !! key) in
    <[ key := {| count := count entry + 1;
                 total_mv := fadd (total_mv entry) (market_value row);
                 names := if length (names entry) <? 3
                          then names entry ++ [Text.take 40 (instrument_name row)]
                          else names entry |} ]> assigned_breakdown
  else assigned_breakdown.

(** What holds of every row the extractor returns. *)
Definition well_formed (p : ProcessedRow) : Prop :=
  is_valid_isin (isin_assigned p) = true
  /\ isin_assigned p = assign_isin (isin_original p) (instrument_name p)
  /\ is_zero (market_value p) = false
  /\ (isin_assigned p = ISIN_OTHER -> Text.truthy (mapping_category p) = true).

Definition assigned_breakdown (rows : list ProcessedRow) : gmap string breakdown :=
  foldl breakdown_step ∅ rows.

End Report.
End Report.

(** ** Vocabulary of the schema statements *)

Module SchemaSpec.
Import Convert.
Section SchemaSpec.
Context `{PyFloat}.

(** The columns that have a role, in the order identifier, name, market
    value, quantity. *)
Definition columns_of (acc : roles) : list Z :=
  let '(ic, nc, mc, qc) := acc in omap id [ic; nc; mc; qc].

Definition set_columns (s : Schema) : list Z :=
  columns_of (isin_col s, name_col s, market_value_col s, quantity_col s).

(** The roles found so far lie in [[lo, k)] and no column has two. *)
Definition roles_ok (lo k : Z) (acc : roles) : Prop :=
  Forall (fun c => (lo <= c < k)%Z) (columns_of acc) /\ NoDup (columns_of acc).

(** [str(df.iloc[idx, isin_col]).strip()], with [''] for a missing cell:
    the text the data-start search looks at. *)
Definition identifier_at (df : sheet) (ic : option Z) (idx : Z) : result string :=
  let! r := iloc df (Some idx) in
  let! c := iloc r ic in
  Ok (Text.strip (if notna c then cell_str c else EmptyString)).

(** A header cell that names the identifier column. *)
Definition names_isin (c : cell) : bool := Text.contains "isin" (cell_lower c).

End SchemaSpec.
End SchemaSpec.

(** ** The [holdings] table *)

Module Database.
Import Convert.
Section Database.
Context `{PyFloat}.

(** A row of [holdings]: the scheme, the month and the columns of a
    processed row.  [id] and [created_at], which the database fills in and
    no query of the scripts reads, are left out. *)
Record holding := {
  scheme_name : string;
  month_end : string;
  columns : ProcessedRow;
}.





End Database.
End Database.

(** ** More sample inputs *)

Module Cases.
Import IntFloat.

(** The schema detected on [Sample.scenario_a]. *)
Definition scenario_a_schema : @Convert.Schema model :=
  {| Convert.data_start_row := Some 2%Z;
     Convert.isin_col := Some 2%Z;
     Convert.name_col := Some 1%Z;
     Convert.market_value_col := Some 4%Z;
     Convert.quantity_col := Some 3%Z;
     Convert.grand_total_row := Some 5%Z;
     Convert.grand_total := Some (Some 350%Z : @num model) |}.

(** What the extractor returns on [Sample.with_subtotal]: the two holdings,
    their total and, the master being empty, both as unmapped. *)
Definition holding (isin name : string) (mv : Z) : @Convert.ProcessedRow model :=
  Convert.resolve ∅ ∅ isin name (Some mv : @num model) (Some 0%Z : @num model).

Definition with_subtotal_rows : list (@Convert.ProcessedRow model) :=
  [holding "INE000000010" "Alpha Ltd" 100; holding "INE000000028" "Beta Ltd" 200].

Definition with_subtotal_unmapped : list (string * string) :=
  [("INE000000010", "Alpha Ltd"); ("INE000000028", "Beta Ltd")].

(** The three certificates of deposit of [Sample.ledger] and the row of the
    first. *)
Definition zeta_items : list (@Recon.Item.t model) :=
  [Sample.item "INE045B16011" "Zeta Bank Limited CD 08JAN26" 10;
   Sample.item "INE045B16029" "Zeta Bank Limited CD 09FEB26" 20;
   Sample.item "INE045B16037" "Zeta Bank Ltd CD" 5].

Definition zeta_row : @Recon.Row.t model :=
  Recon.aggregate_row "CD" "zetaban" "045B"
    (Recon.generate_synthetic_isin "045B" "CD" 1)
    (Recon.generate_aggregated_name zeta_items "CD")
    (Sample.item "INE045B16011" "Zeta Bank Limited CD 08JAN26" 10).

(** One of the two issuers of [Sample.ledger] that share a name prefix. *)
Definition sundaram_row : @Recon.Row.t model :=
  Recon.no_action_row "sundara" "111A" (Sample.item "INE111A01011" "Sundaram Finance" 10).

(** A ledger in which no two names start alike. *)
Definition unrelated : list (@Recon.Item.t model) :=
  [Sample.acme_old; Sample.tbill_item].

End Cases.

(** * Properties *)

(** ** Identifier assignment *)

Section IdentifierAssigner.
Import Convert.

Lemma is_valid_isin_spec (s : string) :
  is_valid_isin s = Text.startswith "IN" s && (12 <=? String.length s).
Proof. by destruct s. Qed.

(** C4: a string that starts with "IN" and has at least 12 characters is
    returned unchanged; every other string, the empty one included, yields
    the fixed identifier 'IN9999999999'. *)
Theorem assign_isin_valid_or_cash (s instrument_name : string) :
  assign_isin s instrument_name =
    if Text.startswith "IN" s && (12 <=? String.length s)
    then s else "IN9999999999".
Proof.
  unfold assign_isin. rewrite is_valid_isin_spec.
  by destruct (Text.startswith "IN" s && (12 <=? String.length s)).
Qed.

Example assign_isin_empty : assign_isin "" "TREPS" = "IN9999999999".
Proof. reflexivity. Qed.

Example assign_isin_short : assign_isin "INE00000001" "X" = "IN9999999999".
Proof. reflexivity. Qed.

Example assign_isin_keeps : assign_isin "INE000000010" "X" = "INE000000010".
Proof. reflexivity. Qed.

(** C9: the cash identifier is itself valid, so assigning twice is the
    same as assigning once, and every assigned identifier is valid. *)
Theorem assign_isin_idempotent (s n n' : string) :
  is_valid_isin ISIN_OTHER = true
  /\ assign_isin (assign_isin s n) n' = assign_isin s n
  /\ is_valid_isin (assign_isin s n) = true.
Proof.
  split; [reflexivity|].
  unfold assign_isin. destruct (is_valid_isin s) eqn:E.
  - by rewrite E.
  - by split.
Qed.

End IdentifierAssigner.

(** ** Section headers and valid identifiers *)

Section SectionHeaders.
Import Convert.

(** An identifier of exactly twelve characters that starts with "in"
    (after lowering and stripping) switches the section-header rule off. *)
Lemma section_header_guard_12 (name_lower isin_lower : string) :
  section_header_hit name_lower isin_lower = true ->
  Text.startswith "in" isin_lower = false \/ String.length isin_lower <> 12.
Proof.
  unfold section_header_hit.
  destruct (Text.startswith "in" isin_lower); [|by left].
  destruct (String.length isin_lower =? 12) eqn:E; [done|].
  right. by apply Nat.eqb_neq.
Qed.

(** C6, at a valid identifier of thirteen characters: no total pattern
    fires, the section-header rule does, and the row is dropped from the
    output although a twelve-character identifier keeps it. *)
Theorem section_header_skips_valid_isin :
  let name := "Debt Instruments" in
  let isin := "INE0000000101" in
  let sheet_of i := [[IntFloat.text i; IntFloat.text name; IntFloat.int 500]] in
  let schema :=
    {| data_start_row := Some 1%Z; isin_col := Some 0%Z; name_col := Some 1%Z;
       market_value_col := Some 2%Z; quantity_col := None;
       grand_total_row := None; grand_total := None |} in
  is_valid_isin isin = true
  /\ skip_pattern_hit (Text.strip (Text.lower name)) (Text.strip (Text.lower isin)) = false
  /\ section_header_hit (Text.strip (Text.lower name)) (Text.strip (Text.lower isin)) = true
  /\ is_aggregation_row name isin (full_text (H := IntFloat.model) (hd [] (sheet_of isin))) = true
  /\ emitted_indices (sheet_of isin) schema ∅ ∅ = Ok []
  /\ emitted_indices (sheet_of "INE000000010") schema ∅ ∅ = Ok [0%Z].
Proof. vm_compute. repeat split. Qed.

End SectionHeaders.

(** ** Grand-total location *)

Section GrandTotal.
Context `{PyFloat}.
Import Convert Spec.

Lemma position_ok (len : nat) (i : Z) :
  (- Z.of_nat len <= i < Z.of_nat len)%Z ->
  exists n, position len (Some i) = Ok n /\ n < len.
Proof.
  intros Hi. unfold position.
  destruct (0 <=? i)%Z eqn:E0.
  - assert ((i <? Z.of_nat len)%Z = true) as -> by lia.
    simpl. eexists; split; [done|lia].
  - simpl. assert ((- Z.of_nat len <=? i)%Z && (i <? 0)%Z = true) as -> by lia.
    eexists; split; [done|lia].
Qed.

Lemma iloc_ok {A : Type} (xs : list A) (i : Z) :
  (- Z.of_nat (length xs) <= i < Z.of_nat (length xs))%Z ->
  exists x, iloc xs (Some i) = Ok x.
Proof.
  intros Hi. destruct (position_ok _ _ Hi) as (n & Hn & Hlt).
  unfold iloc. rewrite Hn. simpl.
  destruct (lookup_lt_is_Some_2 xs n Hlt) as [x Hx].
  exists x. by rewrite Hx.
Qed.

Lemma cell_float_no_index_error (c : cell) : cell_float c <> Raise IndexError.
Proof. destruct c; simpl; try done. by destruct (float_of_str s). Qed.

Lemma grand_total_cell_ok (r : row) (col : option Z) :
  opt_col_ok r col -> exists o, grand_total_cell r col = Ok o.
Proof.
  unfold grand_total_cell. destruct col as [i|]; simpl.
  - intros Hi. destruct (iloc_ok r i Hi) as [c ->]. simpl.
    pose proof (cell_float_no_index_error c).
    destruct (cell_float c) as [v|[]]; simpl; eauto. done.
  - intros _. unfold iloc. simpl. eauto.
Qed.

Lemma first_cell_lower_ok (r : row) :
  r <> [] -> exists s, first_cell_lower r = Ok s.
Proof. destruct r as [|c r]; [done|]. intros _. unfold first_cell_lower. simpl. eauto. Qed.

Lemma total_in_row_ok (r : row) (col : option Z) :
  r <> [] -> opt_col_ok r col -> exists o, total_in_row r col = Ok o.
Proof.
  intros Hne Hcol. unfold total_in_row, pattern1, pattern3.
  destruct (first_cell_lower_ok r Hne) as [fc ->].
  destruct (grand_total_cell_ok r col Hcol) as [g ->].
  destruct (Text.contains "grand total" _); simpl.
  - destruct g; [eauto|]. destruct (pattern2 r); eauto.
  - destruct (pattern2 r); eauto.
Qed.

Lemma first_large_spec (r : row) (v : num) :
  first_large r = Some v -> first_large_is r v.
Proof.
  induction r as [|c r IH]; [done|]. simpl.
  destruct (notna c) eqn:Hna.
  - destruct (cell_float c) as [val|e] eqn:Hf.
    + destruct (gt_10000 val) eqn:Hgt.
      * intros [= <-]. exists [], c, r. split; [done|split; [done|constructor]].
      * intros (pre & c' & post & -> & Hl & Hpre)%IH.
        exists (c :: pre), c', post. split; [done|split; [done|]].
        constructor; [|done]. intros v' (_ & Hf' & Hgt'). congruence.
    + intros (pre & c' & post & -> & Hl & Hpre)%IH.
      exists (c :: pre), c', post. split; [done|split; [done|]].
      constructor; [|done]. intros v' (_ & Hf' & _). congruence.
  - intros (pre & c' & post & -> & Hl & Hpre)%IH.
    exists (c :: pre), c', post. split; [done|split; [done|]].
    constructor; [|done]. intros v' (Hna' & _). congruence.
Qed.

Lemma pattern1_declares (r : row) (col : option Z) (v : num) :
  pattern1 r col = Ok (Some v) ->
  Text.contains "grand total" (Text.lower (full_text r)) = true
  /\ bind (iloc r col) cell_float = Ok v.
Proof.
  unfold pattern1, grand_total_cell.
  destruct (Text.contains "grand total" _); [|done].
  destruct (iloc r col) as [c|[]]; simpl; try done.
  destruct (cell_float c) as [x|[]]; simpl; try done.
  by intros [= <-].
Qed.

Lemma later_patterns_declare (r : row) (col : option Z) (v : num) :
  match pattern2 r with
  | Some val => Ok (Some val)
  | None => pattern3 r
  end = Ok (Some v) ->
  declares r col v.
Proof.
  unfold pattern2, pattern3, declares. intros Hv. right.
  destruct (Text.contains "total net assets" _) eqn:E2.
  - destruct (first_large r) as [w|] eqn:Hw.
    + injection Hv as <-. split; [by left|by apply first_large_spec].
    + destruct (first_cell_lower r) as [fc|]; [|done]. simpl in Hv.
      by destruct (String.eqb fc "total").
  - destruct (first_cell_lower r) as [fc|]; [|done]. simpl in Hv.
    destruct (String.eqb_spec fc "total") as [Heq|]; [|done].
    injection Hv as Hw. split; [right; by rewrite Heq|by apply first_large_spec].
Qed.

Lemma total_in_row_declares (r : row) (col : option Z) (v : num) :
  total_in_row r col = Ok (Some v) -> declares r col v.
Proof.
  unfold total_in_row.
  destruct (pattern1 r col) as [[x|]|e] eqn:H1; simpl; [| |done].
  - intros [= <-]. left. by apply pattern1_declares.
  - apply later_patterns_declare.
Qed.

Lemma find_grand_total_from_spec (df : sheet) (col : option Z) (idx : Z) :
  Forall (fun r => r <> [] /\ opt_col_ok r col) df ->
  (find_grand_total_from idx df col = Ok (None, None)
   /\ Forall (fun r => total_in_row r col = Ok None) df)
  \/ exists (i : nat) (r : row) (v : num),
      find_grand_total_from idx df col = Ok (Some (idx + Z.of_nat i + 1)%Z, Some v)
      /\ df !! i = Some r
      /\ declares r col v
      /\ Forall (fun r' => total_in_row r' col = Ok None) (take i df).
Proof.
  intros Hwf. revert idx. induction Hwf as [|r df [Hne Hcol] _ IH]; intros idx.
  - left. by split.
  - simpl. destruct (total_in_row_ok r col Hne Hcol) as [[v|] Hr]; rewrite Hr; simpl.
    + right. exists 0, r, v. repeat split.
      * do 3 f_equal. lia.
      * by apply total_in_row_declares.
      * constructor.
    + destruct (IH (idx + 1)%Z) as [[Hnone Hall]|(i & r' & v & Hfind & Hi & Hd & Hpre)].
      * left. split; [done|]. by constructor.
      * right. exists (S i), r', v. repeat split; try done.
        -- rewrite Hfind. do 3 f_equal. lia.
        -- simpl. by constructor.
Qed.



End GrandTotal.

Lemma scenario_a_frame : Spec.rectangular 5 Sample.scenario_a.
Proof. repeat constructor. Qed.


(** ** Schema detection *)

Section SchemaDetector.
Context `{PyFloat}.
Import Convert.

Lemma iloc_nat {A : Type} (xs : list A) (n : nat) (x : A) :
  xs !! n = Some x -> iloc xs (Some (Z.of_nat n)) = Ok x.
Proof.
  intros Hn. pose proof (lookup_lt_Some _ _ _ Hn). unfold iloc, position.
  assert ((0 <=? Z.of_nat n)%Z && (Z.of_nat n <? Z.of_nat (length xs))%Z = true)
    as -> by lia.
  simpl. by rewrite Nat2Z.id, Hn.
Qed.

Lemma find_header_none (df : sheet) (idx : Z) :
  Forall (fun r => has_isin r = false) df -> find_header_from idx df = None.
Proof.
  intros Hall. revert idx. induction Hall as [|r df Hr _ IH]; intros idx; [done|].
  simpl. rewrite Hr. apply IH.
Qed.

(** No "isin"-bearing cell anywhere: the detector fails. *)
Lemma detect_schema_no_header (df : sheet) :
  Forall (fun r => has_isin r = false) df -> detect_schema df = Raise ValueError.
Proof. intros Hall. unfold detect_schema. by rewrite find_header_none. Qed.

Lemma find_header_some (df : sheet) (idx h : Z) :
  find_header_from idx df = Some h ->
  exists (n : nat) (r : row),
    h = (idx + Z.of_nat n)%Z /\ df !! n = Some r /\ has_isin r = true.
Proof.
  revert idx. induction df as [|r df IH]; intros idx; [done|]. simpl.
  destruct (has_isin r) eqn:Hr.
  - intros [= <-]. exists 0, r. repeat split; [lia|done].
  - intros (n & r' & -> & Hn & Hr')%IH. exists (S n), r'. repeat split; [lia|done..].
Qed.

Lemma classify_keeps_isin (acc : roles) (k : Z) (c : cell) :
  Spec.isin_role acc <> None -> Spec.isin_role (classify acc k c) <> None.
Proof.
  destruct acc as [[[ic nc] mc] qc]. unfold Spec.isin_role, classify. simpl. intros Hic.
  destruct ic as [i|]; [|done]. simpl.
  rewrite Bool.andb_false_r.
  repeat match goal with |- context [if ?b then _ else _] => destruct b end; done.
Qed.

Lemma classify_from_keeps_isin (header : row) (k : Z) (acc : roles) :
  Spec.isin_role acc <> None -> Spec.isin_role (classify_from k header acc) <> None.
Proof.
  revert k acc. induction header as [|c header IH]; intros k acc Hacc; [done|].
  simpl. apply IH. by apply classify_keeps_isin.
Qed.

Lemma classify_from_finds_isin (header : row) (k : Z) (acc : roles) :
  has_isin header = true -> Spec.isin_role (classify_from k header acc) <> None.
Proof.
  revert k acc. induction header as [|c header IH]; intros k acc; [done|].
  unfold has_isin in *. rewrite fmap_cons. simpl. intros Hx. apply Bool.orb_true_iff in Hx as [Hc|Hrest].
  - apply classify_from_keeps_isin.
    destruct acc as [[[ic nc] mc] qc]. unfold classify, Spec.isin_role.
    rewrite Hc. destruct ic as [i|]; simpl; [|done].
    repeat match goal with |- context [if ?b then _ else _] => destruct b end; done.
  - by apply IH.
Qed.

(** Whenever a schema is returned, its identifier column is set. *)
Lemma detect_schema_isin_col (df : sheet) (s : Schema) :
  detect_schema df = Ok s -> isin_col s <> None.
Proof.
  unfold detect_schema.
  destruct (find_header_from 0 df) as [h|] eqn:Hh; [|done].
  apply find_header_some in Hh as (n & r & -> & Hn & Hr).
  rewrite Z.add_0_l, (iloc_nat _ _ _ Hn).
  simpl.
  pose proof (classify_from_finds_isin r 0 (None, None, None, None) Hr) as Hic.
  destruct (classify_from 0 r _) as [[[ic nc] mc] qc].
  destruct (find_data_start _ _ _); [|done]. simpl.
  destruct (find_grand_total _ _); [|done]. simpl.
  by intros [= <-].
Qed.

(** A schema without a data-start row stops [process_sheet] at once. *)
Lemma process_sheet_without_start (df : sheet) (s : Schema)
    (isin_mapping : gmap string master_entry)
    (validation_mapping : gmap string val_entry) :
  data_start_row s = None ->
  process_sheet df s isin_mapping validation_mapping = Raise TypeError.
Proof. intros Hs. unfold process_sheet, emitted, start_idx. by rewrite Hs. Qed.

End SchemaDetector.

(** C8, at a sheet with a header and no identifier row below it: the
    detector returns a schema whose data-start row is unset; the failure only
    comes later, when [process_sheet] subtracts from it. *)
Theorem detect_schema_returns_without_data_start :
  Convert.detect_schema Sample.header_only =
    Ok {| Convert.data_start_row := None;
          Convert.isin_col := Some 1%Z;
          Convert.name_col := Some 0%Z;
          Convert.market_value_col := Some 2%Z;
          Convert.quantity_col := None;
          Convert.grand_total_row := None;
          Convert.grand_total := None |}
  /\ forall s, Convert.detect_schema Sample.header_only = Ok s ->
       Convert.process_sheet Sample.header_only s ∅ ∅ = Raise TypeError.
Proof.
  split; [reflexivity|].
  intros s [= <-]. reflexivity.
Qed.

(** ** Row extraction *)

Section RowExtractor.
Context `{PyFloat}.
Import Convert Spec.

Lemma cell_value_ok (r : row) (col : option Z) :
  opt_col_ok r col -> exists v, cell_value r col = Ok v.
Proof.
  unfold cell_value. destruct col as [i|]; simpl.
  - intros Hi. destruct (iloc_ok r i Hi) as [c ->]. simpl.
    destruct (notna c); [|eauto].
    pose proof (cell_float_no_index_error c).
    destruct (cell_float c) as [v|[]]; simpl; eauto. done.
  - intros _. unfold iloc. simpl. eauto.
Qed.

Lemma range_nil (a b : Z) : (b <= a)%Z -> range a b = [].
Proof. intros Hab. unfold range. by replace (Z.to_nat (b - a)) with 0 by lia. Qed.

Lemma range_cons (a b : Z) : (a < b)%Z -> range a b = a :: range (a + 1) b.
Proof.
  intros Hab. unfold range.
  replace (Z.to_nat (b - a)) with (S (Z.to_nat (b - (a + 1)))) by lia.
  simpl. f_equal; [lia|].
  rewrite <- fmap_S_seq, <- list_fmap_compose.
  apply list_fmap_ext. intros _ k _. simpl. lia.
Qed.

Lemma elem_of_range (a b i : Z) : i ∈ range a b -> (a <= i < b)%Z.
Proof.
  unfold range. intros (k & -> & Hk)%list_elem_of_fmap.
  apply elem_of_seq in Hk. lia.
Qed.

Lemma iloc_row (df : sheet) (i : Z) :
  (0 <= i < Z.of_nat (length df))%Z ->
  exists r, df !! Z.to_nat i = Some r /\ iloc df (Some i) = Ok r.
Proof.
  intros Hi. destruct (lookup_lt_is_Some_2 df (Z.to_nat i)) as [r Hr]; [lia|].
  exists r. split; [done|]. rewrite <- (Z2Nat.id i) by lia. by apply iloc_nat.
Qed.

Section Fits.
Variables (df : sheet) (s : Schema).
Variables (isin_mapping : gmap string master_entry).
Variables (validation_mapping : gmap string val_entry).
Hypothesis Hfits : schema_fits df s.

Lemma fits_row (i : nat) (r : row) :
  df !! i = Some r ->
  (exists c, iloc r (isin_col s) = Ok c) /\ (exists c, iloc r (name_col s) = Ok c)
  /\ (exists v, cell_value r (market_value_col s) = Ok v)
  /\ (exists v, cell_value r (quantity_col s) = Ok v).
Proof.
  destruct Hfits as (ic & nc & -> & -> & Hall). intros Hr.
  apply (Forall_lookup_1 _ _ _ _ Hall) in Hr as (Hic & Hnc & Hmv & Hq).
  repeat split; auto using iloc_ok, cell_value_ok.
Qed.

Lemma look_ahead_ok (js : list Z) :
  Forall (fun j => (0 <= j < Z.of_nat (length df))%Z) js ->
  exists b, look_ahead df s js = Ok b.
Proof.
  induction 1 as [|j js Hj _ [b IH]]; simpl; [eauto|].
  destruct (iloc_row df j Hj) as (r & Hr & ->). simpl.
  destruct (fits_row _ _ Hr) as (_ & [c ->] & [v ->] & _). simpl.
  destruct (is_zero v); eauto.
Qed.

Lemma range_in_sheet (a : Z) :
  (0 <= a)%Z ->
  Forall (fun j => (0 <= j < Z.of_nat (length df))%Z) (range a (Z.of_nat (length df))).
Proof. intros Ha. apply Forall_forall. intros j Hj%elem_of_range. lia. Qed.

(** A row that is read without error and is not a stop row is either
    skipped or emitted. *)
Lemma step_before_stop (i : nat) (r : row) :
  df !! i = Some r -> is_stop_row r = Ok false ->
  exists d, step df s isin_mapping validation_mapping (Z.of_nat i)
              (range (Z.of_nat i + 1) (Z.of_nat (length df))) = Ok d
            /\ d <> Stop.
Proof.
  intros Hr Hstop. unfold step. rewrite (iloc_nat _ _ _ Hr). simpl.
  destruct (fits_row _ _ Hr) as ([ic ->] & [nc ->] & [mv Hmv] & [q Hq]). simpl.
  rewrite Hstop. simpl.
  destruct (is_aggregation_row _ _ _); [by eexists|].
  destruct (look_ahead_ok (range (Z.of_nat i + 1) (Z.of_nat (length df))))
    as [b Hb]; [apply range_in_sheet; lia|].
  assert (exists b', (if String.eqb (Text.strip (Text.lower (cell_text nc))) "reverse repo"
                        && negb (is_valid_isin (cell_text ic))
                      then look_ahead df s (range (Z.of_nat i + 1) (Z.of_nat (length df)))
                      else Ok false) = Ok b') as [b' ->].
  { destruct (_ && _); eauto. }
  simpl. destruct b'; [by eexists|].
  rewrite Hmv. simpl. destruct (is_zero mv); [by eexists|].
  rewrite Hq. simpl. by eexists.
Qed.

Lemma step_at_stop (i : nat) (r : row) :
  df !! i = Some r -> is_stop_row r = Ok true ->
  forall js, step df s isin_mapping validation_mapping (Z.of_nat i) js = Ok Stop.
Proof.
  intros Hr Hstop js. unfold step. rewrite (iloc_nat _ _ _ Hr). simpl.
  destruct (fits_row _ _ Hr) as ([ic ->] & [nc ->] & _). simpl.
  by rewrite Hstop.
Qed.


Lemma walk_cons (idx : Z) (idxs : list Z) :
  walk df s isin_mapping validation_mapping (idx :: idxs) =
    bind (step df s isin_mapping validation_mapping idx idxs)
      (fun d => match d with
                | Stop => Ok []
                | Skip => walk df s isin_mapping validation_mapping idxs
                | Emit p =>
                    bind (walk df s isin_mapping validation_mapping idxs)
                      (fun rows => Ok ((idx, p) :: rows))
                end).
Proof. reflexivity. Qed.



End Fits.


End RowExtractor.





(** ** The reconciliation engine *)

Section Engine.
Context `{PyFloat}.
Import Recon ReconSpec.

(** *** Lists: grouping and sorting *)

Lemma foldl_invariant {A B : Type} (I : A -> Prop) (f : A -> B -> A) (l : list B) (a : A) :
  I a -> (forall a x, x ∈ l -> I a -> I (f a x)) -> I (foldl f a l).
Proof.
  revert a. induction l as [|x l IH]; intros a Ha Hf; [done|].
  simpl. apply IH.
  - apply Hf; [left|done].
  - intros a' y Hy. apply Hf. by right.
Qed.

Lemma group_insert_spec {A : Type} (f : A -> string) (x : A) (seen : list A)
    (groups : list (string * list A)) :
  Forall (fun g => g.2 `sublist_of` seen /\ forall y, y ∈ g.2 -> f y = g.1) groups ->
  Forall (fun g => g.2 `sublist_of` (seen ++ [x]) /\ forall y, y ∈ g.2 -> f y = g.1)
    (group_insert (f x) x groups).
Proof.
  induction 1 as [|[k xs] groups [Hsub Hkey] Hrest IH]; simpl.
  - constructor; [|done]. simpl. split.
    + by apply sublist_inserts_l.
    + by intros y ->%list_elem_of_singleton.
  - simpl in *. destruct (String.eqb_spec (f x) k) as [Hk|Hk].
    + constructor.
      * simpl. split; [by apply sublist_app|].
        intros y [Hy| ->%list_elem_of_singleton]%elem_of_app; auto.
      * eapply Forall_impl; [exact Hrest|]. intros g [? ?]. split; [|done].
        by apply sublist_inserts_r.
    + constructor; [|done]. simpl. split; [|done]. by apply sublist_inserts_r.
Qed.

Lemma group_by_spec {A : Type} (f : A -> string) (l : list A) :
  Forall (fun g => g.2 `sublist_of` l /\ forall y, y ∈ g.2 -> f y = g.1) (group_by f l).
Proof.
  unfold group_by.
  cut (forall seen groups,
          Forall (fun g => g.2 `sublist_of` seen /\ forall y, y ∈ g.2 -> f y = g.1) groups ->
          Forall (fun g => g.2 `sublist_of` (seen ++ l) /\ forall y, y ∈ g.2 -> f y = g.1)
            (foldl (fun groups x => group_insert (f x) x groups) groups l)).
  { intros Hcut. apply (Hcut [] []). constructor. }
  induction l as [|x l IH]; intros seen groups Hg; simpl.
  - by rewrite app_nil_r.
  - rewrite (cons_middle x seen l), app_assoc. apply IH. by apply group_insert_spec.
Qed.

Lemma insert_by_perm {A : Type} (f : A -> string) (x : A) (l : list A) :
  insert_by f x l ≡ₚ x :: l.
Proof.
  induction l as [|y l IH]; simpl; [done|].
  destruct (Text.leb (f x) (f y)); [done|].
  rewrite IH. apply Permutation_swap.
Qed.

Lemma sorted_perm {A : Type} (f : A -> string) (l : list A) : sorted f l ≡ₚ l.
Proof.
  induction l as [|x l IH]; simpl; [done|].
  unfold sorted in *. simpl. by rewrite insert_by_perm, IH.
Qed.

Lemma insert_by_sorted {A : Type} (f : A -> string) (x : A) (l : list A) :
  StronglySorted (by_key f) l -> StronglySorted (by_key f) (insert_by f x l).
Proof.
  induction 1 as [|y l Hl IH Hy]; simpl.
  - repeat constructor.
  - unfold Text.leb. destruct (String.leb (f x) (f y)) eqn:Hxy.
    + constructor; [by constructor|]. constructor.
      * unfold by_key, String.le. by rewrite Hxy.
      * eapply Forall_impl; [exact Hy|]. intros z Hz. unfold by_key in *.
        etrans; [|exact Hz]. unfold String.le. by rewrite Hxy.
    + constructor; [done|].
      rewrite insert_by_perm. constructor; [|done].
      unfold by_key. destruct (total String.le (f y) (f x)) as [?|Hc]; [done|].
      unfold String.le in Hc. by rewrite Hxy in Hc.
Qed.

Lemma sorted_sorted {A : Type} (f : A -> string) (l : list A) :
  StronglySorted (by_key f) (sorted f l).
Proof.
  induction l as [|x l IH]; [constructor|].
  unfold sorted in *. simpl. by apply insert_by_sorted.
Qed.

(** The last element of a sorted list has the greatest key. *)
Lemma sorted_last_max {A : Type} (f : A -> string) (l : list A) (n m : A) :
  last (sorted f l) = Some n -> m ∈ l -> Text.leb (f m) (f n) = true.
Proof.
  intros [l' Hl']%last_Some Hm.
  pose proof (sorted_sorted f l) as Hs. rewrite Hl' in Hs.
  rewrite <- (sorted_perm f l), Hl' in Hm.
  apply elem_of_app in Hm as [Hm| ->%list_elem_of_singleton].
  - pose proof (StronglySorted_app_1_elem_of _ _ _ m n Hs Hm ltac:(left)) as Hle.
    unfold by_key, String.le in Hle. by apply Is_true_true.
  - apply Is_true_true. change (String.le (f n) (f n)). done.
Qed.


(** *** Lists taken from the data *)

Lemma filter_sublist {A : Type} (p : A -> bool) (l : list A) :
  List.filter p l `sublist_of` l.
Proof.
  induction l as [|x l IH]; simpl; [done|].
  destruct (p x); by constructor.
Qed.

Lemma within_sublist (data l l' : list Item.t) :
  l' `sublist_of` l -> within data l -> within data l'.
Proof.
  intros Hsub [Hnd Hin]. split.
  - unfold distinct in *.
    apply (sublist_NoDup _ (Item.isin <$> l)); [exact Hnd|by apply fmap_sublist].
  - intros x Hx. apply Hin. by eapply elem_of_sublist.
Qed.

Lemma within_perm (data l l' : list Item.t) :
  l' ≡ₚ l -> within data l -> within data l'.
Proof.
  intros Hp [Hnd Hin]. split.
  - unfold distinct in *. by rewrite Hp.
  - intros x Hx. apply Hin. by rewrite <- Hp.
Qed.

Lemma within_self (data : list Item.t) : distinct data -> within data data.
Proof. by split. Qed.

Lemma group_by_within (data l : list Item.t) (f : Item.t -> string)
    (g : string * list Item.t) :
  within data l -> g ∈ group_by f l ->
  within data g.2 /\ forall y, y ∈ g.2 -> f y = g.1.
Proof.
  intros Hl Hg.
  pose proof (group_by_spec f l) as Hall.
  rewrite Forall_forall in Hall. destruct (Hall g Hg) as [Hsub Hkey].
  split; [|done]. by eapply within_sublist.
Qed.

(** Two items of one list with distinct identifiers and the same
    identifier are the same item. *)
Lemma distinct_inj (l : list Item.t) (x y : Item.t) :
  distinct l -> x ∈ l -> y ∈ l -> Item.isin x = Item.isin y -> x = y.
Proof.
  unfold distinct. induction l as [|z l IH]; [by intros _ ?%elem_of_nil|].
  rewrite fmap_cons, NoDup_cons.
  intros [Hz Hnd] [->|Hx]%elem_of_cons [->|Hy]%elem_of_cons Heq; auto.
  - exfalso. apply Hz. rewrite Heq. apply list_elem_of_fmap. eauto.
  - exfalso. apply Hz. rewrite <- Heq. apply list_elem_of_fmap. eauto.
Qed.

(** *** The state updates *)

Lemma rows_of_append (c c' : category) (row : Row.t) (st : state) :
  rows_of c' (res (append c row st)) =
    rows_of c' (res st) ++ (if decide (c' = c) then [row] else []).
Proof. destruct c, c'; simpl; by rewrite ?app_nil_r. Qed.

Lemma validation_rows_append (c : category) (row : Row.t) (st : state) :
  validation_rows (res (append c row st)) = validation_rows (res st) ++ [row].
Proof. done. Qed.

Lemma res_add (isin : string) (st : state) : res (add isin st) = res st.
Proof. done. Qed.

Lemma processed_add (isin : string) (st : state) :
  processed_isins (add isin st) = {[isin]} ∪ processed_isins st.
Proof. done. Qed.

Lemma processed_append (c : category) (row : Row.t) (st : state) :
  processed_isins (append c row st) = processed_isins st.
Proof. done. Qed.

Lemma record_all_spec (c c' : category) (mk : Item.t -> Row.t)
    (items : list Item.t) (st : state) :
  rows_of c' (res (record_all c mk items st)) =
    rows_of c' (res st) ++ (if decide (c' = c) then mk <$> items else [])
  /\ validation_rows (res (record_all c mk items st)) =
       validation_rows (res st) ++ (mk <$> items)
  /\ processed_isins (record_all c mk items st) =
       list_to_set (Item.isin <$> items) ∪ processed_isins st.
Proof.
  revert st. induction items as [|x items IH]; intros st.
  - simpl. split; [destruct (decide _); by rewrite app_nil_r|].
    split; [by rewrite app_nil_r|set_solver].
  - unfold record_all in *. simpl.
    destruct (IH (add (Item.isin x) (append c (mk x) st))) as (-> & -> & ->).
    rewrite res_add, rows_of_append, validation_rows_append, processed_add,
      processed_append, ?fmap_cons.
    split; [|split].
    + rewrite <- app_assoc. f_equal. by destruct (decide (c' = c)).
    + by rewrite <- app_assoc.
    + set_solver.
Qed.

Lemma append_all_spec (c c' : category) (mk : Item.t -> Row.t)
    (items : list Item.t) (st : state) :
  rows_of c' (res (append_all c mk items st)) =
    rows_of c' (res st) ++ (if decide (c' = c) then mk <$> items else [])
  /\ validation_rows (res (append_all c mk items st)) =
       validation_rows (res st) ++ (mk <$> items)
  /\ processed_isins (append_all c mk items st) = processed_isins st.
Proof.
  revert st. induction items as [|x items IH]; intros st.
  - simpl. split; [destruct (decide _); by rewrite app_nil_r|].
    split; [by rewrite app_nil_r|done].
  - unfold append_all in *. simpl.
    destruct (IH (append c (mk x) st)) as (-> & -> & ->).
    rewrite rows_of_append, validation_rows_append, processed_append, ?fmap_cons.
    split; [|split].
    + rewrite <- app_assoc. f_equal. by destruct (decide (c' = c)).
    + by rewrite <- app_assoc.
    + done.
Qed.

(** Recording a batch of unprocessed items with distinct identifiers keeps
    the invariant, when the rows are good for the category and, under
    [CORPORATE_ACTION], are the rows of one well-formed group. *)
Lemma record_all_invariant (data : list Item.t) (c : category)
    (mk : Item.t -> Row.t) (items : list Item.t) (st : state) :
  invariant data st ->
  distinct items ->
  (forall x, x ∈ items -> Item.isin x ∉ processed_isins st) ->
  (forall x, x ∈ items ->
     Row.isin_original (mk x) = Item.isin x /\ good data c (mk x)) ->
  (c <> CORPORATE_ACTION
   \/ exists g, group_ok data g /\ mk <$> items = group_rows g) ->
  invariant data (record_all c mk items st).
Proof.
  intros [Hlisted Hproc Hnd Hgood Hgroups] Hdist Hfresh Hmk Hca.
  assert (Row.isin_original <$> (mk <$> items) = Item.isin <$> items) as Hisins.
  { rewrite <- list_fmap_compose. apply list_fmap_ext.
    intros i x Hx. simpl. apply Hmk. by eapply list_elem_of_lookup_2. }
  split.
  - intros c'. destruct (record_all_spec c c' mk items st) as (-> & -> & _).
    apply sublist_app; [done|]. destruct (decide (c' = c)); [done|apply sublist_nil_l].
  - intros row. destruct (record_all_spec c c mk items st) as (_ & -> & ->).
    rewrite elem_of_app, elem_of_union, elem_of_list_to_set.
    intros [?|Hrow]; [right; auto|left].
    rewrite <- Hisins. apply list_elem_of_fmap. eauto.
  - destruct (record_all_spec c c mk items st) as (_ & -> & _).
    rewrite fmap_app, Hisins. apply NoDup_app. split; [done|]. split; [|done].
    intros isin (row & -> & Hrow)%list_elem_of_fmap (x & Hx & Hin)%list_elem_of_fmap.
    apply (Hfresh x Hin). rewrite <- Hx. by apply Hproc.
  - intros c' row. destruct (record_all_spec c c' mk items st) as (-> & _ & _).
    rewrite elem_of_app. intros [?|Hrow]; [auto|].
    destruct (decide (c' = c)) as [->|]; [|by apply elem_of_nil in Hrow].
    apply list_elem_of_fmap in Hrow as (x & -> & Hx). by apply Hmk.
  - destruct (record_all_spec c CORPORATE_ACTION mk items st) as (Hrows & _ & _).
    change (rows_of CORPORATE_ACTION ?r) with (corporate_action r) in Hrows.
    rewrite Hrows. destruct Hca as [Hc|(g & Hg & Hrowsg)].
    + destruct (decide (CORPORATE_ACTION = c)); [done|]. by rewrite app_nil_r.
    + destruct Hgroups as (groups & -> & Hall). exists (groups ++ [g]). split.
      * rewrite fmap_app, concat_app. simpl. rewrite app_nil_r. f_equal.
        destruct (decide (CORPORATE_ACTION = c)); [done|].
        (* the rows are those of a group, so the category is the group's *)
        rewrite <- Hrowsg. destruct items as [|x items]; [done|].
        destruct (Hmk x ltac:(left)) as (_ & Hcat & _).
        destruct Hg as (Hlen & _).
        assert (mk x ∈ group_rows g) as Hx by (rewrite <- Hrowsg; left).
        apply list_elem_of_fmap in Hx as (m & Hm & _).
        rewrite Hm in Hcat. simpl in Hcat. by destruct c.
      * apply Forall_app. split; [done|]. by constructor.
Qed.


(** *** The steps keep the invariant *)

Lemma unprocessed_spec (st : state) (items : list Item.t) (x : Item.t) :
  x ∈ unprocessed st items <-> x ∈ items /\ Item.isin x ∉ processed_isins st.
Proof.
  unfold unprocessed, is_processed.
  rewrite !list_elem_of_In, List.filter_In, Bool.negb_true_iff, bool_decide_eq_false.
  done.
Qed.

Lemma corporate_action_row_good (data : list Item.t) (name_cut issuer_code : string)
    (newest x : Item.t) :
  x ∈ data ->
  Row.isin_original (corporate_action_row name_cut issuer_code newest x) = Item.isin x
  /\ good data CORPORATE_ACTION (corporate_action_row name_cut issuer_code newest x).
Proof.
  intros Hx. split; [done|]. split; [done|]. split; [by exists x|].
  split; [reflexivity|]. simpl.
  destruct (String.eqb_spec (Item.isin x) (Item.isin newest)) as [Heq|Hne].
  - left. by split.
  - right. split; [done|]. congruence.
Qed.

Lemma base9_step_invariant (data : list Item.t) (name_cut issuer_code : string)
    (st : state) (g : string * list Item.t) :
  invariant data st -> within data g.2 ->
  (forall y, y ∈ g.2 -> Item.base_9 y = g.1) ->
  invariant data (base9_step name_cut issuer_code st g).
Proof.
  intros Hinv Hg Hkey. unfold base9_step.
  assert (within data (unprocessed st g.2)) as Hu.
  { eapply within_sublist; [apply filter_sublist|done]. }
  pose proof (unprocessed_spec st g.2) as Hspec.
  destruct (unprocessed st g.2) as [|first rest] eqn:Heq; [done|]. rewrite <- Heq in *.
  destruct (_ && _) eqn:Hc; [|done].
  apply andb_prop in Hc as [Hlen%Nat.leb_le _].
  pose proof (sorted_perm Item.serial (unprocessed st g.2)) as Hperm.
  destruct (last (sorted Item.serial (unprocessed st g.2))) as [newest|] eqn:Hlast; [|done].
  assert (forall x, x ∈ sorted Item.serial (unprocessed st g.2) ->
                    x ∈ g.2 /\ Item.isin x ∉ processed_isins st) as Hin.
  { intros x Hx. apply Hspec. by rewrite <- Hperm. }
  assert (within data (sorted Item.serial (unprocessed st g.2))) as Hs.
  { by eapply within_perm. }
  apply record_all_invariant; [done|apply Hs|..].
  - intros x Hx. by apply Hin.
  - intros x Hx. apply corporate_action_row_good. by apply Hs.
  - right.
    exists {| g_name_cut := name_cut; g_issuer_code := issuer_code;
              g_members := sorted Item.serial (unprocessed st g.2);
              g_newest := newest |}.
    split; [|done]. repeat split; simpl.
    + by rewrite Hperm.
    + apply Hs.
    + apply Hs.
    + done.
    + intros m Hm. eapply sorted_last_max; [done|]. by rewrite <- Hperm.
    + intros m Hm. rewrite (Hkey m) by (by apply Hin).
      symmetry. apply Hkey, Hin. by eapply last_Some_elem_of.
Qed.

Lemma prefix_append (p s : string) : String.prefix p (p +:+ s) = true.
Proof.
  induction p as [|a p IH]; simpl; [by destruct s|].
  by destruct (ascii_dec a a).
Qed.

Lemma synthetic_isin_prefix (issuer_code kind : string) (seq : nat) :
  String.prefix "SYN" (generate_synthetic_isin issuer_code kind seq) = true.
Proof. apply prefix_append. Qed.

Lemma aggregate_step_invariant (data : list Item.t) (c : category)
    (kind name_cut issuer_code : string) (items : list Item.t) (st : state) :
  (c = CD_AGGREGATE /\ kind = "CD") \/ (c = CP_AGGREGATE /\ kind = "CP") ->
  invariant data st -> within data items ->
  invariant data (aggregate_step c kind name_cut issuer_code items st).
Proof.
  intros Hk Hinv Hitems. unfold aggregate_step.
  set (picked := List.filter _ items).
  assert (within data picked) as Hp.
  { eapply within_sublist; [apply filter_sublist|done]. }
  assert (forall x, x ∈ picked -> Item.isin x ∉ processed_isins st) as Hfresh.
  { intros x Hx. apply list_elem_of_In, List.filter_In in Hx as [_ Hx].
    apply andb_prop in Hx as [_ Hx]. unfold is_processed in Hx.
    by apply Bool.negb_true_iff, bool_decide_eq_false in Hx. }
  clearbody picked.
  destruct (2 <=? length picked); [|done].
  apply record_all_invariant; [done|apply Hp|done| |].
  - intros x Hx. split; [done|].
    assert (x ∈ data) as Hd by (by apply Hp).
    destruct Hk as [[-> ->]|[-> ->]];
      (split; [done|split; [by exists x|split; [reflexivity|]]];
       split; [done|apply synthetic_isin_prefix]).
  - left. by destruct Hk as [[-> _]|[-> _]].
Qed.

Lemma issuer_step_invariant (data : list Item.t) (name_cut : string)
    (st : state) (g : string * list Item.t) :
  invariant data st -> within data g.2 ->
  invariant data (issuer_step name_cut st g).
Proof.
  intros Hinv Hg. destruct g as [issuer_code issuer_items]. simpl in *.
  destruct (unique_isins issuer_items <? 2); [done|].
  apply aggregate_step_invariant; [by right| |done].
  apply aggregate_step_invariant; [by left| |done].
  apply foldl_invariant; [done|].
  intros st' g' Hg' Hst'.
  destruct (group_by_within data issuer_items Item.base_9 g' Hg Hg').
  by apply base9_step_invariant.
Qed.

Lemma no_action_item_invariant (data : list Item.t) (name_cut issuer_code : string)
    (st : state) (item : Item.t) :
  invariant data st -> item ∈ data ->
  invariant data (no_action_item name_cut issuer_code st item).
Proof.
  intros Hinv Hitem. unfold no_action_item, is_processed.
  destruct (bool_decide_reflect (Item.isin item ∈ processed_isins st)) as [|Hfresh];
    [done|]. simpl.
  apply (record_all_invariant data NO_ACTION
           (no_action_row name_cut issuer_code) [item] st); [done|..].
  - unfold distinct. simpl. apply NoDup_singleton.
  - by intros x ->%list_elem_of_singleton.
  - intros x ->%list_elem_of_singleton. split; [done|]. split; [done|].
    split; [by exists item|]. split; [reflexivity|done].
  - by left.
Qed.

Lemma no_action_step_invariant (data : list Item.t) (name_cut : string)
    (st : state) (g : string * list Item.t) :
  invariant data st -> within data g.2 ->
  invariant data (no_action_step name_cut st g).
Proof.
  intros Hinv [_ Hg]. unfold no_action_step.
  apply foldl_invariant; [done|].
  intros st' x Hx Hst'. apply no_action_item_invariant; auto.
Qed.

Lemma name_group_step_invariant (data : list Item.t) (st : state)
    (g : string * list Item.t) :
  invariant data st -> within data g.2 ->
  invariant data (name_group_step st g).
Proof.
  intros Hinv Hg. destruct g as [name_cut items]. simpl in *.
  destruct (length items <? 2); [done|].
  destruct (unique_isins items <? 2); [done|].
  assert (invariant data
            (foldl (issuer_step name_cut) st (group_by Item.issuer_code items))) as Hi.
  { apply foldl_invariant; [done|]. intros st' g' Hg' Hst'.
    apply issuer_step_invariant; [done|].
    by destruct (group_by_within data items Item.issuer_code g' Hg Hg'). }
  destruct (1 <? length _); [|done].
  apply foldl_invariant; [done|]. intros st' g' Hg' Hst'.
  apply no_action_step_invariant; [done|].
  by destruct (group_by_within data items Item.issuer_code g' Hg Hg').
Qed.

(** *** The pre-step *)

Lemma goi_scan_from (data tbills gsecs : list Item.t) (processed : gset string) :
  foldl goi_scan_step (tbills, gsecs, processed) data =
    (tbills ++ List.filter (is_goi TBILL) data,
     gsecs ++ List.filter (is_goi GSEC) data,
     list_to_set (Item.isin <$> List.filter (is_goi TBILL) data)
     ∪ list_to_set (Item.isin <$> List.filter (is_goi GSEC) data) ∪ processed).
Proof.
  revert tbills gsecs processed.
  induction data as [|x data IH]; intros tbills gsecs processed.
  - simpl. rewrite !app_nil_r. f_equal. set_solver.
  - cbn [foldl List.filter].
    destruct (goi_scan_step (tbills, gsecs, processed) x) as [[tb' gs'] pr'] eqn:Hstep.
    rewrite IH. unfold goi_scan_step in Hstep.
    assert (is_goi TBILL x = match detect_goi_security (Item.name x) with
                             | Some TBILL => true | _ => false end) as ->.
    { unfold is_goi. by destruct (detect_goi_security _) as [[]|]. }
    assert (is_goi GSEC x = match detect_goi_security (Item.name x) with
                            | Some GSEC => true | _ => false end) as ->.
    { unfold is_goi. by destruct (detect_goi_security _) as [[]|]. }
    destruct (detect_goi_security (Item.name x)) as [[]|];
      injection Hstep as <- <- <-; rewrite <- ?app_assoc, ?fmap_cons;
      (apply (f_equal2 pair); [apply (f_equal2 pair)|]; first [done|set_solver]).
Qed.

Lemma goi_scan_spec (data : list Item.t) :
  goi_scan data =
    (List.filter (is_goi TBILL) data, List.filter (is_goi GSEC) data,
     list_to_set (Item.isin <$> List.filter (is_goi TBILL) data)
     ∪ list_to_set (Item.isin <$> List.filter (is_goi GSEC) data)).
Proof. unfold goi_scan. rewrite goi_scan_from. simpl. f_equal. set_solver. Qed.

Lemma goi_state_invariant (data : list Item.t) :
  distinct data -> invariant data (goi_state data).
Proof.
  intros Hd. unfold goi_state. rewrite goi_scan_spec.
  set (tb := List.filter (is_goi TBILL) data).
  set (gs := List.filter (is_goi GSEC) data).
  set (st0 := {| res := empty_results; processed_isins := _ |}).
  assert (forall c, rows_of c (res (append_all GSEC_AGGREGATE gsec_row gs
                      (append_all TBILL_AGGREGATE tbill_row tb st0))) =
                    match c with
                    | TBILL_AGGREGATE => tbill_row <$> tb
                    | GSEC_AGGREGATE => gsec_row <$> gs
                    | _ => []
                    end) as Hrows.
  { intros c.
    destruct (append_all_spec GSEC_AGGREGATE c gsec_row gs
                (append_all TBILL_AGGREGATE tbill_row tb st0)) as (-> & _ & _).
    destruct (append_all_spec TBILL_AGGREGATE c tbill_row tb st0) as (-> & _ & _).
    destruct c; simpl; by rewrite ?app_nil_r. }
  assert (validation_rows (res (append_all GSEC_AGGREGATE gsec_row gs
            (append_all TBILL_AGGREGATE tbill_row tb st0))) =
          (tbill_row <$> tb) ++ (gsec_row <$> gs)) as Hval.
  { destruct (append_all_spec GSEC_AGGREGATE GSEC_AGGREGATE gsec_row gs
                (append_all TBILL_AGGREGATE tbill_row tb st0)) as (_ & -> & _).
    by destruct (append_all_spec TBILL_AGGREGATE GSEC_AGGREGATE tbill_row tb st0)
      as (_ & -> & _). }
  assert (processed_isins (append_all GSEC_AGGREGATE gsec_row gs
            (append_all TBILL_AGGREGATE tbill_row tb st0)) =
          list_to_set (Item.isin <$> tb) ∪ list_to_set (Item.isin <$> gs)) as Hproc.
  { destruct (append_all_spec GSEC_AGGREGATE GSEC_AGGREGATE gsec_row gs
                (append_all TBILL_AGGREGATE tbill_row tb st0)) as (_ & _ & ->).
    by destruct (append_all_spec TBILL_AGGREGATE GSEC_AGGREGATE tbill_row tb st0)
      as (_ & _ & ->). }
  assert (within data tb) as Htb.
  { eapply within_sublist; [apply filter_sublist|by apply within_self]. }
  assert (within data gs) as Hgs.
  { eapply within_sublist; [apply filter_sublist|by apply within_self]. }
  split.
  - intros c. rewrite Hrows, Hval.
    destruct c; try apply sublist_nil_l.
    + by apply sublist_inserts_r.
    + by apply sublist_inserts_l.
  - intros row. rewrite Hval, Hproc, elem_of_app, elem_of_union, !elem_of_list_to_set.
    intros [(x & -> & Hx)%list_elem_of_fmap|(x & -> & Hx)%list_elem_of_fmap];
      [left|right]; apply list_elem_of_fmap; eauto.
  - rewrite Hval, fmap_app, <- !list_fmap_compose.
    change (Row.isin_original ∘ tbill_row) with Item.isin.
    change (Row.isin_original ∘ gsec_row) with Item.isin.
    apply NoDup_app. split; [apply Htb|]. split; [|apply Hgs].
    intros isin (x & -> & Hx)%list_elem_of_fmap (y & Hxy & Hy)%list_elem_of_fmap.
    assert (x = y) as <-.
    { apply (distinct_inj data); [done|by apply Htb|by apply Hgs|done]. }
    subst tb gs. apply list_elem_of_In, List.filter_In in Hx as [_ Hx].
    apply list_elem_of_In, List.filter_In in Hy as [_ Hy].
    unfold is_goi in *. by destruct (detect_goi_security (Item.name x)) as [[]|].
  - intros c row. rewrite Hrows.
    destruct c; try (by intros ?%elem_of_nil);
      intros (x & -> & Hx)%list_elem_of_fmap;
      (split; [done|split; [exists x; split; [|done]|split; [reflexivity|done]]]).
    + by apply Htb.
    + by apply Hgs.
  - change (corporate_action ?r) with (rows_of CORPORATE_ACTION r). rewrite Hrows.
    exists []. split; [done|constructor].
Qed.

(** *** The whole run *)

Lemma run_engine_invariant (data : list Item.t) :
  distinct data -> invariant data (run_engine data).
Proof.
  intros Hd. unfold run_engine.
  apply foldl_invariant; [by apply goi_state_invariant|].
  intros st g Hg Hst. apply name_group_step_invariant; [done|].
  rewrite sorted_perm in Hg. unfold name_groups in Hg.
  eapply group_by_within; [|exact Hg].
  eapply within_sublist; [apply filter_sublist|by apply within_self].
Qed.

(** *** Categories partition the identifiers *)

Lemma category_name_inj (c1 c2 : category) :
  category_name c1 = category_name c2 -> c1 = c2.
Proof. by destruct c1, c2. Qed.

Lemma nodup_fmap_inj {A B : Type} (f : A -> B) (l : list A) (x y : A) :
  NoDup (f <$> l) -> x ∈ l -> y ∈ l -> f x = f y -> x = y.
Proof.
  induction l as [|z l IH]; [by intros _ ?%elem_of_nil|].
  rewrite fmap_cons, NoDup_cons.
  intros [Hz Hnd] [->|Hx]%elem_of_cons [->|Hy]%elem_of_cons Heq; auto.
  - exfalso. apply Hz. rewrite Heq. apply list_elem_of_fmap. eauto.
  - exfalso. apply Hz. rewrite <- Heq. apply list_elem_of_fmap. eauto.
Qed.

(** C1: when no two items of the ledger share an identifier (the query
    groups by identifier), rows of one run that carry the same identifier
    sit under the same category; they are even the same row. *)
Theorem categories_partition (data : list Item.t) (c1 c2 : category)
    (r1 r2 : Row.t) :
  distinct data ->
  r1 ∈ rows_of c1 (detect_and_categorize data) ->
  r2 ∈ rows_of c2 (detect_and_categorize data) ->
  Row.isin_original r1 = Row.isin_original r2 ->
  c1 = c2 /\ r1 = r2.
Proof.
  intros Hd H1 H2 Heq.
  destruct (run_engine_invariant data Hd) as [Hsub _ Hnd Hgood _].
  assert (r1 = r2) as <-.
  { eapply nodup_fmap_inj; [exact Hnd|by eapply elem_of_sublist..|done]. }
  split; [|done]. apply category_name_inj.
  destruct (Hgood c1 r1 H1) as [<- _]. by destruct (Hgood c2 r1 H2) as [<- _].
Qed.

(** *** The mapping artifact holds no identity mapping *)

Lemma syn_is_not_in (s : string) :
  String.prefix "SYN" s = true -> Text.startswith "IN" s = true -> False.
Proof.
  destruct s as [|a s]; [done|]. unfold Text.startswith. cbn [String.prefix].
  destruct (ascii_dec "S" a) as [<-|]; [|discriminate].
  destruct (ascii_dec "I" "S"); discriminate.
Qed.

(** C10: when every identifier of the ledger starts with "IN", every line
    written to the mapping file maps its identifier to a different one. *)
Theorem mapping_never_identity (data : list Item.t) (record : list string) :
  distinct data ->
  (forall item, item ∈ data -> Text.startswith "IN" (Item.isin item) = true) ->
  record ∈ mapping_records (detect_and_categorize data) ->
  exists orig mapped name category reason,
    record = [orig; mapped; name; category; reason] /\ mapped <> orig.
Proof.
  intros Hd Hin Hrec.
  destruct (run_engine_invariant data Hd) as [_ _ _ Hgood _].
  assert (forall c row, row ∈ rows_of c (detect_and_categorize data) ->
            c <> CORPORATE_ACTION -> c <> NO_ACTION ->
            Row.isin_mapped row <> Row.isin_original row) as Hagg.
  { intros c row Hrow Hc1 Hc2 Heq.
    destruct (Hgood c row Hrow) as (_ & (item & Hitem & Horig) & _ & Hact).
    assert (String.prefix "SYN" (Row.isin_mapped row) = true) as Hsyn.
    { by destruct c; try done; destruct Hact. }
    apply (syn_is_not_in _ Hsyn). rewrite Heq, Horig. by apply Hin. }
  unfold mapping_records in Hrec. rewrite !elem_of_app in Hrec.
  destruct Hrec as [Hr|[Hr|[Hr|[Hr|Hr]]]];
    apply list_elem_of_fmap in Hr as (row & -> & Hrow);
    do 5 eexists; (split; [reflexivity|]).
  - apply list_elem_of_In, List.filter_In in Hrow as [Hrow Hmap].
    apply list_elem_of_In in Hrow. apply String.eqb_eq in Hmap.
    destruct (Hgood CORPORATE_ACTION row Hrow) as (_ & _ & _ & [[Ht _]|[_ Hne]]);
      [congruence|done].
  - by apply (Hagg CD_AGGREGATE).
  - by apply (Hagg CP_AGGREGATE).
  - by apply (Hagg TBILL_AGGREGATE).
  - by apply (Hagg GSEC_AGGREGATE).
Qed.

(** *** The canonical member of a corporate-action group *)

Lemma digit_code (c : ascii) :
  Text.is_digit c = true -> 48 <= Text.code c <= 57.
Proof.
  unfold Text.is_digit, Text.between.
  intros [?%Nat.leb_le ?%Nat.leb_le]%andb_prop. lia.
Qed.

Lemma ascii_compare_code (a b : ascii) :
  Ascii.compare a b = (Text.code a ?= Text.code b).
Proof.
  unfold Ascii.compare, Text.code, nat_of_ascii.
  by rewrite N2Nat.inj_compare.
Qed.

(** On serials of two digits the order of [str] is the order of numbers. *)
Lemma serial_order_numeric (s1 s2 : string) (a b : nat) :
  serial_number s1 = Some a -> serial_number s2 = Some b ->
  Text.leb s1 s2 = true -> a <= b.
Proof.
  destruct s1 as [|a1 [|a2 [|]]]; try done.
  destruct s2 as [|b1 [|b2 [|]]]; try done. simpl.
  destruct (Text.is_digit a1) eqn:Ha1; [|done].
  destruct (Text.is_digit a2) eqn:Ha2; [|done].
  destruct (Text.is_digit b1) eqn:Hb1; [|done].
  destruct (Text.is_digit b2) eqn:Hb2; [|done]. simpl.
  intros [= <-] [= <-].
  apply digit_code in Ha1, Ha2, Hb1, Hb2.
  unfold Text.leb, String.leb. cbn [String.compare].
  rewrite !ascii_compare_code.
  destruct (Text.code a1 ?= Text.code b1) eqn:E1.
  - apply Nat.compare_eq in E1.
    destruct (Text.code a2 ?= Text.code b2) eqn:E2.
    + apply Nat.compare_eq in E2. lia.
    + apply Nat.compare_lt_iff in E2. lia.
    + done.
  - apply Nat.compare_lt_iff in E1. lia.
  - done.
Qed.

Lemma target_is_unique (name_cut issuer_code : string) (newest : Item.t)
    (members : list Item.t) :
  distinct members -> newest ∈ members ->
  List.filter Row.is_target
    (corporate_action_row name_cut issuer_code newest <$> members)
  = [corporate_action_row name_cut issuer_code newest newest].
Proof.
  unfold distinct. induction members as [|x members IH]; [by intros _ ?%elem_of_nil|].
  rewrite !fmap_cons, NoDup_cons. intros [Hx Hnd] Hin. cbn [List.filter].
  change (Row.is_target (corporate_action_row name_cut issuer_code newest x))
    with (String.eqb (Item.isin x) (Item.isin newest)).
  apply elem_of_cons in Hin as [->|Hin].
  - rewrite String.eqb_refl. f_equal.
    clear IH. induction members as [|y members IH]; [done|].
    rewrite fmap_cons. cbn [List.filter].
    change (Row.is_target (corporate_action_row name_cut issuer_code x y))
      with (String.eqb (Item.isin y) (Item.isin x)).
    rewrite fmap_cons in Hx. apply not_elem_of_cons in Hx as [Hne Hx].
    rewrite fmap_cons, NoDup_cons in Hnd.
    destruct (String.eqb_spec (Item.isin y) (Item.isin x)); [congruence|].
    apply IH; [done|apply Hnd].
  - destruct (String.eqb_spec (Item.isin x) (Item.isin newest)) as [Heq|_].
    + exfalso. apply Hx. rewrite Heq. apply list_elem_of_fmap. eauto.
    + by apply IH.
Qed.

Lemma group_ok_canonical (data : list Item.t) (g : ca_group) :
  group_ok data g -> canonical g.
Proof.
  destruct g as [name_cut issuer_code members newest].
  intros (Hlen & [Hd Hdata] & Hlast & Hserial & Hbase). simpl in *.
  assert (newest ∈ members) as Hnewest by (by eapply last_Some_elem_of).
  exists (corporate_action_row name_cut issuer_code newest newest).
  unfold group_rows. simpl. split; [|split; [|split; [|split; [|split]]]].
  - apply list_elem_of_fmap. eauto.
  - by apply target_is_unique.
  - by rewrite String.eqb_refl.
  - done.
  - intros m Hm. split; [by apply Hserial|].
    intros a b Ha Hb. eapply serial_order_numeric; eauto.
  - intros r (m & -> & Hm)%list_elem_of_fmap Hne.
    destruct (String.eqb_spec (Item.isin m) (Item.isin newest)) as [Heq|Hneq].
    + exfalso. apply Hne. f_equal. by apply (distinct_inj members).
    + unfold corporate_action_row. simpl.
      apply String.eqb_neq in Hneq. by rewrite Hneq.
Qed.

(** *** [group_by]: the groups are the classes of the key *)

Lemma group_insert_perm {A : Type} (k : string) (x : A) (groups : list (string * list A)) :
  concat (snd <$> group_insert k x groups) ≡ₚ x :: concat (snd <$> groups).
Proof.
  induction groups as [|[k' xs] groups IH]; simpl; [done|].
  destruct (String.eqb k k'); simpl.
  - rewrite <- app_assoc. simpl. symmetry. apply Permutation_middle.
  - rewrite IH. symmetry. apply Permutation_middle.
Qed.

Lemma group_by_perm {A : Type} (f : A -> string) (l : list A) :
  concat (snd <$> group_by f l) ≡ₚ l.
Proof.
  unfold group_by.
  cut (forall groups,
          concat (snd <$> foldl (fun groups x => group_insert (f x) x groups) groups l)
          ≡ₚ concat (snd <$> groups) ++ l).
  { intros Hcut. by rewrite Hcut. }
  induction l as [|x l IH]; intros groups; simpl.
  - by rewrite app_nil_r.
  - rewrite IH, group_insert_perm. simpl. apply Permutation_middle.
Qed.

Lemma filter_snoc {A : Type} (p : A -> bool) (l : list A) (x : A) :
  List.filter p (l ++ [x]) = List.filter p l ++ (if p x then [x] else []).
Proof. rewrite List.filter_app. simpl. by destruct (p x). Qed.

Lemma filter_none {A : Type} (p : A -> bool) (l : list A) :
  (forall x, x ∈ l -> p x = false) -> List.filter p l = [].
Proof.
  induction l as [|x l IH]; intros Hp; [done|]. simpl.
  rewrite (Hp x) by left. apply IH. intros y Hy. apply Hp. by right.
Qed.

Lemma filter_every {A : Type} (p : A -> bool) (l : list A) :
  (forall x, x ∈ l -> p x = true) -> List.filter p l = l.
Proof.
  induction l as [|x l IH]; intros Hp; [done|]. simpl.
  rewrite (Hp x) by left. f_equal. apply IH. intros y Hy. apply Hp. by right.
Qed.

Lemma group_insert_classes {A : Type} (f : A -> string) (x : A) (seen : list A)
    (groups : list (string * list A)) :
  NoDup (fst <$> groups) ->
  (forall g, g ∈ groups -> g.2 = List.filter (key f g.1) seen) ->
  (forall y, y ∈ seen -> f y = f x -> f x ∈ fst <$> groups) ->
  NoDup (fst <$> group_insert (f x) x groups)
  /\ (forall g, g ∈ group_insert (f x) x groups ->
        g.2 = List.filter (key f g.1) (seen ++ [x]))
  /\ f x ∈ fst <$> group_insert (f x) x groups
  /\ (forall k, k ∈ fst <$> groups -> k ∈ fst <$> group_insert (f x) x groups)
  /\ (forall k, k ∈ fst <$> group_insert (f x) x groups -> k = f x \/ k ∈ fst <$> groups).
Proof.
  induction groups as [|[k xs] groups IH]; intros Hnd Hg Hseen.
  - simpl. split_and!.
    + apply NoDup_singleton.
    + intros g ->%list_elem_of_singleton. simpl. rewrite filter_snoc.
      unfold key at 2. rewrite String.eqb_refl.
      rewrite filter_none; [done|]. intros y Hy. unfold key.
      apply String.eqb_neq. intros Hk. by apply Hseen, elem_of_nil in Hk.
    + left.
    + by intros k ?%elem_of_nil.
    + intros k ->%list_elem_of_singleton. by left.
  - rewrite fmap_cons, NoDup_cons in Hnd. destruct Hnd as [Hk Hnd]. simpl in Hk.
    simpl. destruct (String.eqb_spec (f x) k) as [Heq|Hne].
    + rewrite fmap_cons. simpl. split_and!.
      * by apply NoDup_cons.
      * intros g [->|Hin]%elem_of_cons; simpl.
        -- rewrite filter_snoc. unfold key at 2. rewrite Heq, String.eqb_refl.
           f_equal. apply (Hg (k, xs)). left.
        -- rewrite filter_snoc.
           assert (key f g.1 x = false) as ->.
           { unfold key. apply String.eqb_neq. intros Hx. apply Hk.
             rewrite <- Heq, Hx. apply list_elem_of_fmap. eauto. }
           rewrite app_nil_r. apply Hg. by right.
      * rewrite Heq. left.
      * done.
      * intros k'. by right.
    + destruct IH as (IH1 & IH2 & IH3 & IH4 & IH5).
      * done.
      * intros g Hin. apply Hg. by right.
      * intros y Hy Hxy. specialize (Hseen y Hy Hxy).
        rewrite fmap_cons in Hseen. by apply elem_of_cons in Hseen as [?|?].
      * rewrite fmap_cons. simpl. split_and!.
        -- apply NoDup_cons. split; [|done]. intros Hin.
           apply IH5 in Hin as [?|?]; [congruence|done].
        -- intros g [->|Hin]%elem_of_cons; [|by apply IH2]. simpl.
           rewrite filter_snoc.
           assert (key f k x = false) as -> by (by apply String.eqb_neq).
           rewrite app_nil_r. apply (Hg (k, xs)). left.
        -- by right.
        -- intros k' [->|?]%elem_of_cons; [left|right; by apply IH4].
        -- intros k' [->|Hin]%elem_of_cons; [right; left|].
           apply IH5 in Hin as [?|?]; [by left|right; by right].
Qed.

Lemma group_by_classes {A : Type} (f : A -> string) (l : list A)
    (g : string * list A) :
  g ∈ group_by f l -> g.2 = List.filter (key f g.1) l.
Proof.
  unfold group_by.
  cut (forall seen groups,
          NoDup (fst <$> groups) ->
          (forall g, g ∈ groups -> g.2 = List.filter (key f g.1) seen) ->
          (forall y, y ∈ seen -> f y ∈ fst <$> groups) ->
          forall g, g ∈ foldl (fun groups x => group_insert (f x) x groups) groups l ->
                    g.2 = List.filter (key f g.1) (seen ++ l)).
  { intros Hcut. apply (Hcut [] []); [constructor|by intros ? ?%elem_of_nil..]. }
  clear g. induction l as [|x l IH]; intros seen groups Hnd Hg Hseen g; simpl.
  - rewrite app_nil_r. apply Hg.
  - rewrite (cons_middle x seen l), app_assoc.
    destruct (group_insert_classes f x seen groups Hnd Hg
                ltac:(intros y Hy <-; by apply Hseen))
      as (H1 & H2 & H3 & H4 & _).
    apply (IH (seen ++ [x]) (group_insert (f x) x groups)); [done|done|].
    intros y [Hy| ->%list_elem_of_singleton]%elem_of_app; [|done].
    by apply H4, Hseen.
Qed.


(** *** The main loop on unprocessed items *)

Lemma unprocessed_fresh (st : state) (items : list Item.t) :
  fresh st items -> unprocessed st items = items.
Proof.
  intros Hf. apply filter_every. intros x Hx. unfold is_processed.
  apply Bool.negb_true_iff, bool_decide_eq_false. by apply Hf.
Qed.

Lemma covers_refl (st : state) (items : list Item.t) : covers st st items.
Proof. intros k Hk. by left. Qed.

Lemma covers_trans (st1 st2 st3 : state) (a b c : list Item.t) :
  covers st1 st2 a -> covers st2 st3 b ->
  (forall x, x ∈ a -> x ∈ c) -> (forall x, x ∈ b -> x ∈ c) ->
  covers st1 st3 c.
Proof.
  intros H12 H23 Ha Hb k Hk.
  destruct (H23 k Hk) as [Hk2|(x & -> & Hx)%list_elem_of_fmap].
  - destruct (H12 k Hk2) as [?|(x & -> & Hx)%list_elem_of_fmap]; [by left|].
    right. apply list_elem_of_fmap. eauto.
  - right. apply list_elem_of_fmap. eauto.
Qed.

Lemma record_all_covers (c : category) (mk : Item.t -> Row.t)
    (items : list Item.t) (st : state) :
  covers st (record_all c mk items st) items.
Proof.
  intros k. destruct (record_all_spec c c mk items st) as (_ & _ & ->).
  rewrite elem_of_union, elem_of_list_to_set. tauto.
Qed.

Lemma base9_step_rows (nc ic : string) (st : state) (g : string * list Item.t) :
  fresh st g.2 ->
  corporate_action (res (base9_step nc ic st g))
    = corporate_action (res st) ++ base9_rows nc ic g.2
  /\ covers st (base9_step nc ic st g) g.2.
Proof.
  intros Hf. unfold base9_step, base9_rows, classified.
  rewrite (unprocessed_fresh _ _ Hf).
  destruct g.2 as [|first rest] eqn:Heq.
  { rewrite app_nil_r. split; [done|apply covers_refl]. }
  destruct (_ && _).
  - destruct (last _) as [newest|] eqn:Hl.
    + split.
      * destruct (record_all_spec CORPORATE_ACTION CORPORATE_ACTION
                    (corporate_action_row nc ic newest)
                    (sorted Item.serial (first :: rest)) st) as (Hr & _ & _).
        exact Hr.
      * eapply covers_trans; [apply covers_refl|apply record_all_covers| |].
        -- intros x Hx. exact Hx.
        -- intros x Hx. by rewrite sorted_perm in Hx.
    + rewrite app_nil_r. split; [done|apply covers_refl].
  - rewrite app_nil_r. split; [done|apply covers_refl].
Qed.

(** A loop over groups of pairwise distinct, unprocessed items: each step
    meets its group unprocessed. *)
Lemma foldl_groups_rows (step : state -> string * list Item.t -> state)
    (pure : string * list Item.t -> list Row.t)
    (gs : list (string * list Item.t)) (st : state) :
  (forall st g, g ∈ gs -> fresh st g.2 -> NoDup (Item.isin <$> g.2) ->
     corporate_action (res (step st g)) = corporate_action (res st) ++ pure g
     /\ covers st (step st g) g.2) ->
  NoDup (Item.isin <$> concat (snd <$> gs)) -> fresh st (concat (snd <$> gs)) ->
  corporate_action (res (foldl step st gs))
    = corporate_action (res st) ++ concat (pure <$> gs)
  /\ covers st (foldl step st gs) (concat (snd <$> gs)).
Proof.
  revert st. induction gs as [|g gs IH]; intros st Hstep Hnd Hf.
  - simpl. rewrite app_nil_r. split; [done|apply covers_refl].
  - simpl in *. rewrite fmap_app in Hnd. apply NoDup_app in Hnd as (Hg & Hdisj & Hgs).
    destruct (Hstep st g) as [Hrows Hcov]; [left| |done|].
    { intros x Hx. apply Hf, elem_of_app. by left. }
    destruct (IH (step st g)) as [Hrows' Hcov'].
    + intros st' g' Hg'. apply Hstep. by right.
    + done.
    + intros x Hx Hk. destruct (Hcov _ Hk) as [Hk'|Hk'].
      * revert Hk'. apply Hf, elem_of_app. by right.
      * apply (Hdisj _ Hk'). apply list_elem_of_fmap. eauto.
    + rewrite Hrows', Hrows, <- app_assoc. split; [done|].
      eapply covers_trans; [exact Hcov|exact Hcov'| |];
        intros x Hx; apply elem_of_app; auto.
Qed.

(** A loop whose steps add nothing under [CORPORATE_ACTION]. *)
Lemma foldl_quiet {A : Type} (step : state -> A -> state) (of_ : A -> list Item.t)
    (l : list A) (st : state) :
  (forall st x, x ∈ l ->
     corporate_action (res (step st x)) = corporate_action (res st)
     /\ covers st (step st x) (of_ x)) ->
  corporate_action (res (foldl step st l)) = corporate_action (res st)
  /\ covers st (foldl step st l) (concat (of_ <$> l)).
Proof.
  revert st. induction l as [|x l IH]; intros st Hstep.
  - split; [done|apply covers_refl].
  - simpl. destruct (Hstep st x) as [Hrows Hcov]; [left|].
    destruct (IH (step st x)) as [Hrows' Hcov'].
    { intros st' y Hy. apply Hstep. by right. }
    rewrite Hrows', Hrows. split; [done|].
    eapply covers_trans; [exact Hcov|exact Hcov'| |];
      intros y Hy; apply elem_of_app; auto.
Qed.

Lemma aggregate_step_quiet (c : category) (kind nc ic : string)
    (items : list Item.t) (st : state) :
  c <> CORPORATE_ACTION ->
  corporate_action (res (aggregate_step c kind nc ic items st))
    = corporate_action (res st)
  /\ covers st (aggregate_step c kind nc ic items st) items.
Proof.
  intros Hc. unfold aggregate_step. set (picked := List.filter _ items).
  destruct (2 <=? length picked); [|split; [done|apply covers_refl]]. split.
  - destruct (record_all_spec c CORPORATE_ACTION
                (aggregate_row kind nc ic (generate_synthetic_isin ic kind 1)
                   (generate_aggregated_name picked kind)) picked st) as (Hr & _ & _).
    change (rows_of CORPORATE_ACTION ?r) with (corporate_action r) in Hr. rewrite Hr.
    destruct (decide (CORPORATE_ACTION = c)); [done|by rewrite app_nil_r].
  - eapply covers_trans; [apply covers_refl|apply record_all_covers| |].
    + intros x Hx. exact Hx.
    + intros x Hx. eapply elem_of_sublist; [exact Hx|apply filter_sublist].
Qed.

Lemma no_action_item_quiet (nc ic : string) (st : state) (item : Item.t) :
  corporate_action (res (no_action_item nc ic st item)) = corporate_action (res st)
  /\ covers st (no_action_item nc ic st item) [item].
Proof.
  unfold no_action_item. destruct (negb _); [|split; [done|apply covers_refl]].
  split; [done|]. intros k. rewrite processed_add, processed_append, elem_of_union.
  intros [->%elem_of_singleton|?]; [right; left|by left].
Qed.

Lemma no_action_step_quiet (nc : string) (st : state) (g : string * list Item.t) :
  corporate_action (res (no_action_step nc st g)) = corporate_action (res st)
  /\ covers st (no_action_step nc st g) g.2.
Proof.
  unfold no_action_step.
  destruct (foldl_quiet (no_action_item nc g.1) (fun x => [x]) g.2 st) as [Hr Hc].
  { intros st' x _. apply no_action_item_quiet. }
  split; [done|]. intros k Hk. destruct (Hc k Hk) as [?|Hin]; [by left|right].
  apply list_elem_of_fmap in Hin as (x & -> & Hx). apply list_elem_of_fmap.
  exists x. split; [done|].
  apply list_elem_of_In, in_concat in Hx as (l & Hl & Hx).
  apply list_elem_of_In, list_elem_of_fmap in Hl as (y & -> & Hy).
  apply list_elem_of_In, list_elem_of_singleton in Hx as ->. done.
Qed.

Lemma issuer_step_rows (nc : string) (st : state) (g : string * list Item.t) :
  fresh st g.2 -> NoDup (Item.isin <$> g.2) ->
  corporate_action (res (issuer_step nc st g))
    = corporate_action (res st) ++ issuer_rows nc g
  /\ covers st (issuer_step nc st g) g.2.
Proof.
  destruct g as [ic items]. simpl. intros Hf Hnd. unfold issuer_step, issuer_rows. simpl.
  destruct (unique_isins items <? 2).
  { rewrite app_nil_r. split; [done|apply covers_refl]. }
  pose proof (group_by_perm Item.base_9 items) as Hperm.
  destruct (foldl_groups_rows (base9_step nc ic) (fun b => base9_rows nc ic b.2)
              (group_by Item.base_9 items) st) as [Hrows Hcov].
  { intros st' b _ Hb _. by apply base9_step_rows. }
  { by rewrite Hperm. }
  { intros x Hx. apply Hf. by rewrite <- Hperm. }
  set (st1 := foldl (base9_step nc ic) st (group_by Item.base_9 items)) in *.
  destruct (aggregate_step_quiet CD_AGGREGATE "CD" nc ic items st1) as [Hr1 Hc1]; [done|].
  set (st2 := aggregate_step CD_AGGREGATE "CD" nc ic items st1) in *.
  destruct (aggregate_step_quiet CP_AGGREGATE "CP" nc ic items st2) as [Hr2 Hc2]; [done|].
  rewrite Hr2, Hr1, Hrows. split; [done|].
  eapply covers_trans; [|exact Hc2| |done].
  - eapply covers_trans; [exact Hcov|exact Hc1| |done].
    intros x Hx. by rewrite <- Hperm.
  - done.
Qed.

Lemma name_group_step_rows (st : state) (g : string * list Item.t) :
  fresh st g.2 -> NoDup (Item.isin <$> g.2) ->
  corporate_action (res (name_group_step st g)) = corporate_action (res st) ++ name_rows g
  /\ covers st (name_group_step st g) g.2.
Proof.
  destruct g as [nc items]. simpl. intros Hf Hnd. unfold name_group_step, name_rows. simpl.
  destruct (length items <? 2).
  { rewrite app_nil_r. split; [done|apply covers_refl]. }
  destruct (unique_isins items <? 2).
  { rewrite app_nil_r. split; [done|apply covers_refl]. }
  pose proof (group_by_perm Item.issuer_code items) as Hperm.
  destruct (foldl_groups_rows (issuer_step nc) (issuer_rows nc)
              (group_by Item.issuer_code items) st) as [Hrows Hcov].
  { intros st' g _ Hg Hg'. by apply issuer_step_rows. }
  { by rewrite Hperm. }
  { intros x Hx. apply Hf. by rewrite <- Hperm. }
  set (st1 := foldl (issuer_step nc) st (group_by Item.issuer_code items)) in *.
  destruct (1 <? length _).
  - destruct (foldl_quiet (no_action_step nc) snd (group_by Item.issuer_code items) st1)
      as [Hr Hc].
    { intros st' g _. apply no_action_step_quiet. }
    rewrite Hr, Hrows. split; [done|].
    eapply covers_trans; [exact Hcov|exact Hc| |]; intros x Hx; by rewrite <- Hperm.
  - split; [done|]. eapply covers_trans; [exact Hcov|apply covers_refl| |done].
    intros x Hx. by rewrite <- Hperm.
Qed.


(** *** The pre-step *)

Lemma goi_state_rows (data : list Item.t) (c : category) :
  rows_of c (res (goi_state data)) =
    match c with
    | TBILL_AGGREGATE => tbill_row <$> List.filter (is_goi TBILL) data
    | GSEC_AGGREGATE => gsec_row <$> List.filter (is_goi GSEC) data
    | _ => []
    end.
Proof.
  unfold goi_state. rewrite goi_scan_spec.
  set (st0 := {| res := empty_results; processed_isins := _ |}).
  destruct (append_all_spec GSEC_AGGREGATE c gsec_row (List.filter (is_goi GSEC) data)
              (append_all TBILL_AGGREGATE tbill_row (List.filter (is_goi TBILL) data) st0))
    as (-> & _ & _).
  destruct (append_all_spec TBILL_AGGREGATE c tbill_row
              (List.filter (is_goi TBILL) data) st0) as (-> & _ & _).
  destruct c; simpl; by rewrite ?app_nil_r.
Qed.

Lemma goi_state_processed (data : list Item.t) :
  processed_isins (goi_state data)
  = list_to_set (Item.isin <$> List.filter (is_goi TBILL) data)
    ∪ list_to_set (Item.isin <$> List.filter (is_goi GSEC) data).
Proof.
  unfold goi_state. rewrite goi_scan_spec.
  set (st0 := {| res := empty_results; processed_isins := _ |}).
  destruct (append_all_spec GSEC_AGGREGATE GSEC_AGGREGATE gsec_row
              (List.filter (is_goi GSEC) data)
              (append_all TBILL_AGGREGATE tbill_row (List.filter (is_goi TBILL) data) st0))
    as (_ & _ & ->).
  by destruct (append_all_spec TBILL_AGGREGATE GSEC_AGGREGATE tbill_row
                 (List.filter (is_goi TBILL) data) st0) as (_ & _ & ->).
Qed.

(** With distinct identifiers an item is in [processed_isins] after the
    pre-step exactly when its own name is that of a GOI security. *)
Lemma eligible_spec (data : list Item.t) (x : Item.t) :
  distinct data -> x ∈ data ->
  Text.truthy (Item.name_cut x) && negb (is_processed (goi_state data) x) = eligible x.
Proof.
  intros Hd Hx. unfold eligible, is_processed. f_equal. f_equal.
  rewrite goi_state_processed.
  destruct (is_goi TBILL x || is_goi GSEC x) eqn:Hgoi.
  - apply bool_decide_eq_true. rewrite elem_of_union, !elem_of_list_to_set.
    apply orb_prop in Hgoi as [Hk|Hk]; [left|right];
      apply list_elem_of_fmap; exists x; (split; [done|]);
      apply list_elem_of_In, List.filter_In; split; [by apply list_elem_of_In|done|
                                              by apply list_elem_of_In|done].
  - apply bool_decide_eq_false. rewrite elem_of_union, !elem_of_list_to_set.
    apply Bool.orb_false_iff in Hgoi as [Ht Hg].
    intros [(y & Hxy & Hy)%list_elem_of_fmap|(y & Hxy & Hy)%list_elem_of_fmap];
      apply list_elem_of_In, List.filter_In in Hy as [Hy Hk];
      apply list_elem_of_In in Hy;
      assert (x = y) as <- by (by apply (distinct_inj data));
      congruence.
Qed.

Lemma name_groups_eligible (data : list Item.t) :
  distinct data ->
  name_groups (goi_state data) data = group_by Item.name_cut (List.filter eligible data).
Proof.
  intros Hd. unfold name_groups. f_equal. apply List.filter_ext_in.
  intros x Hx%list_elem_of_In. by apply eligible_spec.
Qed.

Lemma eligible_distinct (data : list Item.t) :
  distinct data -> NoDup (Item.isin <$> List.filter eligible data).
Proof.
  intros Hd. eapply sublist_NoDup; [exact Hd|]. apply fmap_sublist, filter_sublist.
Qed.

Lemma concat_snd_perm {A : Type} (l l' : list (string * list A)) :
  l ≡ₚ l' -> concat (snd <$> l) ≡ₚ concat (snd <$> l').
Proof.
  induction 1 as [|x l l' _ IH|x y l|l l' l'' _ IH1 _ IH2]; simpl.
  - done.
  - by rewrite IH.
  - rewrite !app_assoc. f_equiv. apply Permutation_app_comm.
  - by rewrite IH1.
Qed.

(** The rows under [CORPORATE_ACTION], name group after name group. *)
Lemma run_engine_rows (data : list Item.t) :
  distinct data ->
  corporate_action (detect_and_categorize data)
  = concat (name_rows <$> sorted fst (group_by Item.name_cut (List.filter eligible data))).
Proof.
  intros Hd. unfold detect_and_categorize, run_engine.
  rewrite (name_groups_eligible data Hd).
  set (gs := sorted fst (group_by Item.name_cut (List.filter eligible data))).
  assert (concat (snd <$> gs) ≡ₚ List.filter eligible data) as Hperm.
  { subst gs. rewrite (concat_snd_perm _ _ (sorted_perm fst _)). apply group_by_perm. }
  destruct (foldl_groups_rows name_group_step name_rows gs (goi_state data)) as [Hrows _].
  - intros st g _ Hf Hnd. by apply name_group_step_rows.
  - rewrite Hperm. by apply eligible_distinct.
  - intros x Hx. rewrite Hperm in Hx.
    apply list_elem_of_In, List.filter_In in Hx as [Hx He].
    apply list_elem_of_In in Hx. rewrite <- (eligible_spec data x Hd Hx) in He.
    apply andb_prop in He as [_ He]. unfold is_processed in He.
    by apply Bool.negb_true_iff, bool_decide_eq_false in He.
  - rewrite Hrows.
    change (corporate_action (res (goi_state data)))
      with (rows_of CORPORATE_ACTION (res (goi_state data))).
    by rewrite goi_state_rows.
Qed.


(** *** The groups of the engine are the base-prefix groups of the ledger *)

Lemma group_of_elem {A : Type} (f : A -> string) (l : list A) (x : A) :
  x ∈ l -> (f x, List.filter (key f (f x)) l) ∈ group_by f l.
Proof.
  intros Hx. rewrite <- (group_by_perm f l) in Hx.
  apply list_elem_of_In, in_concat in Hx as (xs & Hxs & Hx).
  apply list_elem_of_In, list_elem_of_fmap in Hxs as ([k xs'] & -> & Hg).
  apply list_elem_of_In in Hx. simpl in Hx.
  pose proof (group_by_classes f l _ Hg) as Hc. simpl in Hc.
  assert (k = f x) as ->.
  { rewrite Hc in Hx. apply list_elem_of_In, List.filter_In in Hx as [_ Hk].
    symmetry. by apply String.eqb_eq. }
  by rewrite <- Hc.
Qed.

Lemma base_group_elem (data : list Item.t) (nc ic b : string) (m : Item.t) :
  m ∈ base_group data nc ic b <->
  m ∈ data /\ eligible m = true /\ Item.name_cut m = nc
  /\ Item.issuer_code m = ic /\ Item.base_9 m = b.
Proof.
  unfold base_group, key.
  rewrite !list_elem_of_In, !List.filter_In, !String.eqb_eq. tauto.
Qed.

Lemma base_group_distinct (data : list Item.t) (nc ic b : string) :
  distinct data -> NoDup (Item.isin <$> base_group data nc ic b).
Proof.
  intros Hd. eapply sublist_NoDup; [exact Hd|]. apply fmap_sublist.
  unfold base_group. repeat (etrans; [apply filter_sublist|]). done.
Qed.

Lemma base9_rows_elem (nc ic : string) (g : list Item.t) (row : Row.t) :
  row ∈ base9_rows nc ic g ->
  classified g = true
  /\ exists newest m, last (sorted Item.serial g) = Some newest /\ m ∈ g
                      /\ row = corporate_action_row nc ic newest m.
Proof.
  unfold base9_rows. destruct (classified g); [|by intros ?%elem_of_nil].
  destruct (last _) as [newest|]; [|by intros ?%elem_of_nil].
  intros (m & -> & Hm)%list_elem_of_fmap. rewrite sorted_perm in Hm.
  split; [done|]. by exists newest, m.
Qed.

Lemma elem_of_concat_fmap {A B : Type} (f : A -> list B) (l : list A) (y : B) :
  y ∈ concat (f <$> l) -> exists x, x ∈ l /\ y ∈ f x.
Proof.
  intros (ys & Hys & Hy)%list_elem_of_In%in_concat.
  apply list_elem_of_In, list_elem_of_fmap in Hys as (x & -> & Hx).
  apply list_elem_of_In in Hy. eauto.
Qed.

Lemma sublist_concat_fmap {A B : Type} (f : A -> list B) (l : list A) (x : A) :
  x ∈ l -> f x `sublist_of` concat (f <$> l).
Proof.
  induction l as [|y l IH]; [by intros ?%elem_of_nil|].
  intros [->|Hx]%elem_of_cons; simpl.
  - by apply sublist_inserts_r.
  - by apply sublist_inserts_l, IH.
Qed.

(** Every row under [CORPORATE_ACTION] is a row of a base-prefix group of
    the ledger that passes the test. *)
Lemma rows_in_groups (data : list Item.t) (row : Row.t) :
  distinct data -> row ∈ corporate_action (detect_and_categorize data) ->
  exists nc ic b, row ∈ base9_rows nc ic (base_group data nc ic b).
Proof.
  intros Hd. rewrite (run_engine_rows data Hd).
  intros ([nc items] & Hg & Hrow)%elem_of_concat_fmap.
  rewrite sorted_perm in Hg. apply group_by_classes in Hg. simpl in Hg.
  unfold name_rows in Hrow. simpl in Hrow.
  destruct (length items <? 2); [by apply elem_of_nil in Hrow|].
  destruct (unique_isins items <? 2); [by apply elem_of_nil in Hrow|].
  apply elem_of_concat_fmap in Hrow as ([ic issuer_items] & Hi & Hrow).
  apply group_by_classes in Hi. simpl in Hi.
  unfold issuer_rows in Hrow. simpl in Hrow.
  destruct (unique_isins issuer_items <? 2); [by apply elem_of_nil in Hrow|].
  apply elem_of_concat_fmap in Hrow as ([b base9_items] & Hb & Hrow).
  apply group_by_classes in Hb. simpl in Hb, Hrow.
  exists nc, ic, b. unfold base_group. by rewrite <- Hg, <- Hi, <- Hb.
Qed.

Lemma unique_isins_distinct (items : list Item.t) :
  NoDup (Item.isin <$> items) -> unique_isins items = length items.
Proof.
  intros Hnd. unfold unique_isins. rewrite size_list_to_set by done.
  by rewrite length_fmap.
Qed.

(** Every base-prefix group of the ledger that passes the test has its rows
    under [CORPORATE_ACTION], together and in the order of their serials. *)
Lemma group_rows_listed (data : list Item.t) (nc ic b : string) :
  distinct data -> classified (base_group data nc ic b) = true ->
  base9_rows nc ic (base_group data nc ic b)
    `sublist_of` corporate_action (detect_and_categorize data).
Proof.
  intros Hd Hc. rewrite (run_engine_rows data Hd).
  set (E := List.filter eligible data).
  set (N := List.filter (key Item.name_cut nc) E).
  set (I := List.filter (key Item.issuer_code ic) N).
  assert (base_group data nc ic b = List.filter (key Item.base_9 b) I) as Hg by done.
  assert (exists x, x ∈ base_group data nc ic b
                    /\ 2 <= length (base_group data nc ic b)) as (x & Hx & Hlen).
  { unfold classified in Hc. destruct (base_group data nc ic b) as [|x rest]; [done|].
    apply andb_prop in Hc as [Hl%Nat.leb_le _]. exists x. split; [left|done]. }
  pose proof (proj1 (base_group_elem data nc ic b x) Hx) as (Hxd & Hxe & Hxn & Hxi & Hxb).
  assert (x ∈ E) as HxE.
  { apply list_elem_of_In, List.filter_In. split; [by apply list_elem_of_In|done]. }
  assert (x ∈ N) as HxN.
  { apply list_elem_of_In, List.filter_In. split; [by apply list_elem_of_In|].
    by apply String.eqb_eq. }
  assert (x ∈ I) as HxI.
  { apply list_elem_of_In, List.filter_In. split; [by apply list_elem_of_In|].
    by apply String.eqb_eq. }
  assert (NoDup (Item.isin <$> N)) as HndN.
  { eapply sublist_NoDup; [exact (eligible_distinct data Hd)|].
    apply fmap_sublist, filter_sublist. }
  assert (NoDup (Item.isin <$> I)) as HndI.
  { eapply sublist_NoDup; [exact HndN|]. apply fmap_sublist, filter_sublist. }
  assert (2 <= length I) as HlenI.
  { etrans; [exact Hlen|]. rewrite Hg. apply sublist_length, filter_sublist. }
  assert (2 <= length N) as HlenN.
  { etrans; [exact HlenI|]. apply sublist_length, filter_sublist. }
  pose proof (group_of_elem Item.name_cut E x HxE) as HGn. rewrite Hxn in HGn.
  pose proof (group_of_elem Item.issuer_code N x HxN) as HGi. rewrite Hxi in HGi.
  pose proof (group_of_elem Item.base_9 I x HxI) as HGb. rewrite Hxb in HGb.
  fold N in HGn. fold I in HGi. rewrite <- Hg in HGb.
  etrans; [|apply (sublist_concat_fmap name_rows _ (nc, N)); by rewrite sorted_perm].
  unfold name_rows. simpl.
  apply Nat.ltb_ge in HlenN as HlN. rewrite HlN.
  rewrite (unique_isins_distinct N HndN), HlN.
  etrans; [|apply (sublist_concat_fmap (issuer_rows nc) _ (ic, I) HGi)].
  unfold issuer_rows. simpl.
  apply Nat.ltb_ge in HlenI as HlI. rewrite (unique_isins_distinct I HndI), HlI.
  apply (sublist_concat_fmap (fun g => base9_rows nc ic g.2) _
           (b, base_group data nc ic b) HGb).
Qed.

(** In a list without duplicates, the rows picked by a test that a
    sublist passes as a whole, and nothing else does, are that sublist. *)
Lemma filter_block {A : Type} (p : A -> bool) (block l : list A) :
  NoDup l -> block `sublist_of` l ->
  (forall x, x ∈ block -> p x = true) ->
  (forall x, x ∈ l -> p x = true -> x ∈ block) ->
  List.filter p l = block.
Proof.
  intros Hnd Hsub. revert Hnd.
  induction Hsub as [|x block l Hsub IH|x block l Hsub IH]; intros Hnd Hin Hout.
  - done.
  - apply NoDup_cons in Hnd as [Hx Hnd]. simpl. rewrite (Hin x) by left. f_equal.
    apply IH; [done| |].
    + intros y Hy. apply Hin. by right.
    + intros y Hy Hp. specialize (Hout y (list_elem_of_further _ _ _ Hy) Hp).
      apply elem_of_cons in Hout as [->|?]; [done|done].
  - apply NoDup_cons in Hnd as [Hx Hnd]. simpl.
    destruct (p x) eqn:Hp.
    + exfalso. apply Hx. eapply elem_of_sublist; [|exact Hsub]. apply Hout; [left|done].
    + apply IH; [done|done|]. intros y Hy. apply Hout. by right.
Qed.


(** *** Identifiers of a loaded ledger *)

Lemma substring_of_take (a n : nat) (s : string) :
  String.substring a n (String.substring 0 (a + n) s) = String.substring a n s.
Proof.
  revert a n. induction s as [|c s IH]; intros a n.
  - by destruct a, n.
  - destruct a as [|a].
    + destruct n as [|n]; [done|]. simpl. f_equal. apply (IH 0 n).
    + simpl. apply IH.
Qed.

Lemma type_of_base (s : string) : Text.slice 7 9 (Text.take 9 s) = Text.slice 7 9 s.
Proof. unfold Text.slice, Text.take. apply (substring_of_take 7 2). Qed.

Lemma loaded_type (rows : list query_row) (item : Item.t) :
  item ∈ load_holdings_data rows ->
  Item.security_type item = Text.slice 7 9 (Item.isin item)
  /\ Item.base_9 item = Text.take 9 (Item.isin item)
  /\ Item.sec_category item = get_security_category (Text.slice 7 9 (Item.isin item)).
Proof.
  unfold load_holdings_data. intros (r & _ & Hr)%list_elem_of_omap.
  destruct r as [[[[[isin name_final] instrument_name] mv] funds] months].
  unfold load_row in Hr.
  destruct (negb (Text.truthy isin) || (String.length isin <? 12)); [done|].
  by injection Hr as <-.
Qed.

(** *** The rows of one base-prefix group *)

Lemma rows_distinct (data : list Item.t) :
  distinct data -> NoDup (corporate_action (detect_and_categorize data)).
Proof.
  intros Hd. destruct (run_engine_invariant data Hd) as [Hsub _ Hnd _ _].
  apply (NoDup_fmap_1 Row.isin_original).
  eapply sublist_NoDup; [exact Hnd|]. apply fmap_sublist, (Hsub CORPORATE_ACTION).
Qed.

Lemma member_rows_block (data : list Item.t) (nc ic b : string) :
  distinct data ->
  member_rows (base_group data nc ic b) (corporate_action (detect_and_categorize data))
  = base9_rows nc ic (base_group data nc ic b).
Proof.
  intros Hd. set (g := base_group data nc ic b).
  assert (forall row, row ∈ corporate_action (detect_and_categorize data) ->
            bool_decide (Row.isin_original row ∈ Item.isin <$> g) = true ->
            row ∈ base9_rows nc ic g) as Hown.
  { intros row Hrow Hp%bool_decide_eq_true.
    destruct (rows_in_groups data row Hd Hrow) as (nc' & ic' & b' & Hin).
    destruct (base9_rows_elem _ _ _ _ Hin) as (_ & newest & m & _ & Hm & ->).
    simpl in Hp. apply list_elem_of_fmap in Hp as (m' & Heq & Hm').
    apply base_group_elem in Hm as (Hd1 & _ & <- & <- & <-).
    pose proof (proj1 (base_group_elem data nc ic b m') Hm') as (Hd2 & _ & Hn & Hi & Hb).
    assert (m = m') as <- by (by apply (distinct_inj data)).
    subst g. by rewrite <- Hn, <- Hi, <- Hb. }
  unfold member_rows. destruct (classified g) eqn:Hc.
  - apply filter_block.
    + by apply rows_distinct.
    + by apply group_rows_listed.
    + intros row Hrow. apply bool_decide_eq_true.
      destruct (base9_rows_elem _ _ _ _ Hrow) as (_ & newest & m & _ & Hm & ->).
      simpl. apply list_elem_of_fmap. eauto.
    + exact Hown.
  - assert (base9_rows nc ic g = []) as Hnil by (unfold base9_rows; by rewrite Hc).
    rewrite Hnil. apply filter_none. intros row Hrow.
    destruct (bool_decide _) eqn:Hp; [|done].
    specialize (Hown row Hrow Hp). rewrite Hnil in Hown. by apply elem_of_nil in Hown.
Qed.

Lemma recorded_ok (data : list Item.t) (nc ic b : string) (newest : Item.t) :
  distinct data -> classified (base_group data nc ic b) = true ->
  last (sorted Item.serial (base_group data nc ic b)) = Some newest ->
  group_ok data (recorded nc ic (base_group data nc ic b) newest).
Proof.
  intros Hd Hc Hlast. set (g := base_group data nc ic b) in *.
  assert (forall m, m ∈ sorted Item.serial g -> m ∈ g) as Hin.
  { intros m Hm. by rewrite sorted_perm in Hm. }
  unfold group_ok, recorded. simpl. split_and!.
  - rewrite sorted_perm. unfold classified in Hc. destruct g; [done|].
    by apply andb_prop in Hc as [?%Nat.leb_le _].
  - eapply within_perm; [apply sorted_perm|].
    eapply within_sublist; [|by apply within_self].
    unfold g, base_group. repeat (etrans; [apply filter_sublist|]). done.
  - done.
  - intros m Hm. eapply sorted_last_max; [exact Hlast|by apply Hin].
  - intros m Hm. apply Hin, base_group_elem in Hm as (_ & _ & _ & _ & ->).
    symmetry. eapply base_group_elem, Hin, last_Some_elem_of, Hlast.
Qed.

(** C2: under the name prefix, the issuer code and the base prefix of the
    engine's three nested groupings, the group is the items of the ledger with
    these keys that the pre-step left. When it passes the engine's test (at
    least two members, the first an equity) its members have exactly the
    rows [corporate_action_row] builds, by ascending serial: one of them is
    the canonical one ([is_target], action [TARGET]), it belongs to the
    member no member exceeds in serial, and every other row has action
    [MAP] and carries the canonical row's identifier and name, the first 60
    characters of the newest name; on a ledger loaded from the query all
    members are equities with the base prefix as first nine characters.
    When it does not pass, no member has a row; and every row under
    [CORPORATE_ACTION] belongs to a group that passes. *)
Theorem corporate_action_canonical (data : list Item.t) (nc ic b : string) :
  distinct data ->
  let rows := corporate_action (detect_and_categorize data) in
  let g := base_group data nc ic b in
  (classified g = true ->
   exists newest,
     last (sorted Item.serial g) = Some newest
     /\ member_rows g rows = group_rows (recorded nc ic g newest)
     /\ canonical (recorded nc ic g newest)
     /\ (forall r, r ∈ member_rows g rows ->
           Row.name_mapped r = Text.take 60 (Item.name newest))
     /\ (forall q m, data = load_holdings_data q -> m ∈ g ->
           Text.take 9 (Item.isin m) = b /\ Text.slice 7 9 (Item.isin m) = "01"))
  /\ (classified g = false -> member_rows g rows = [])
  /\ (forall row, row ∈ rows ->
        exists b',
          classified (base_group data (Row.name_cut row) (Row.issuer_code row) b') = true
          /\ row ∈ member_rows (base_group data (Row.name_cut row) (Row.issuer_code row) b')
                    rows).
Proof.
  intros Hd rows g.
  pose proof (member_rows_block data nc ic b Hd) as Hblock.
  change (member_rows g rows = base9_rows nc ic g) in Hblock.
  split_and!.
  - intros Hc. rewrite Hblock.
    destruct (last (sorted Item.serial g)) as [newest|] eqn:Hlast.
    2:{ exfalso. apply last_None in Hlast.
        pose proof (sorted_perm Item.serial g) as Hp. rewrite Hlast in Hp.
        apply Permutation_nil_l in Hp. by rewrite <- Hp in Hc. }
    exists newest. split; [done|].
    assert (base9_rows nc ic g = group_rows (recorded nc ic g newest)) as Hrows.
    { unfold base9_rows. by rewrite Hc, Hlast. }
    split; [exact Hrows|]. split; [|split].
    + eapply group_ok_canonical, recorded_ok; done.
    + rewrite Hrows. by intros r (m & -> & _)%list_elem_of_fmap.
    + intros q m -> Hm.
      assert (exists x, x ∈ g /\ Item.security_type x = "01") as (x & Hx & Hty).
      { unfold classified in Hc. destruct g as [|x rest]; [done|].
        apply andb_prop in Hc as [_ Ht%String.eqb_eq]. exists x. split; [left|done]. }
      apply base_group_elem in Hm as (Hmd & _ & _ & _ & Hmb).
      apply base_group_elem in Hx as (Hxd & _ & _ & _ & Hxb).
      destruct (loaded_type q m Hmd) as (_ & Hm9 & _).
      destruct (loaded_type q x Hxd) as (Hxt & Hx9 & _).
      split; [congruence|].
      rewrite <- type_of_base, <- Hm9, Hmb, <- Hxb, Hx9, type_of_base. congruence.
  - intros Hc. rewrite Hblock. unfold base9_rows. by rewrite Hc.
  - intros row Hrow.
    destruct (rows_in_groups data row Hd Hrow) as (nc' & ic' & b' & Hin).
    destruct (base9_rows_elem _ _ _ _ Hin) as (Hc & newest & m & _ & Hm & ->).
    exists b'. simpl. split; [done|].
    subst rows. by rewrite (member_rows_block data nc' ic' b' Hd).
Qed.

End Engine.

Lemma ledger_distinct : ReconSpec.distinct Sample.ledger.
Proof. apply (bool_decide_unpack _). by vm_compute. Qed.

Lemma ledger_identifiers (item : Recon.Item.t) :
  item ∈ Sample.ledger -> Text.startswith "IN" (Recon.Item.isin item) = true.
Proof.
  assert (Forall (fun item => Text.startswith "IN" (Recon.Item.isin item) = true)
            Sample.ledger) as Hall.
  { apply (bool_decide_unpack _). by vm_compute. }
  intros Hin. by eapply Forall_forall in Hall.
Qed.

Lemma categories_partition_witness :
  ReconSpec.distinct Sample.ledger
  /\ Recon.tbill_row Sample.tbill_item
       ∈ Recon.rows_of Recon.TBILL_AGGREGATE (Recon.detect_and_categorize Sample.ledger)
  /\ Recon.Row.isin_original (Recon.tbill_row Sample.tbill_item)
     = Recon.Row.isin_original (Recon.tbill_row Sample.tbill_item)
  /\ Recon.TBILL_AGGREGATE = Recon.TBILL_AGGREGATE.
Proof.
  assert (Recon.tbill_row Sample.tbill_item
            ∈ Recon.rows_of Recon.TBILL_AGGREGATE
                (Recon.detect_and_categorize Sample.ledger)) as Hin.
  { apply list_elem_of_In. vm_compute. by left. }
  split; [exact ledger_distinct|]. split; [exact Hin|]. split; [reflexivity|].
  exact (proj1 (categories_partition Sample.ledger _ _ _ _
                  ledger_distinct Hin Hin eq_refl)).
Defined.

Lemma mapping_never_identity_witness :
  ReconSpec.distinct Sample.ledger
  /\ ["INE012A01015"; "INE012A01023"; "Acme Industries Limited"; "CORPORATE_ACTION";
      "Same issuer 012A, equity, serial 01 -> 02"]
       ∈ Recon.mapping_records (Recon.detect_and_categorize Sample.ledger)
  /\ exists orig mapped name category reason,
       ["INE012A01015"; "INE012A01023"; "Acme Industries Limited"; "CORPORATE_ACTION";
        "Same issuer 012A, equity, serial 01 -> 02"]
       = [orig; mapped; name; category; reason] /\ mapped <> orig.
Proof.
  assert (["INE012A01015"; "INE012A01023"; "Acme Industries Limited"; "CORPORATE_ACTION";
           "Same issuer 012A, equity, serial 01 -> 02"]
            ∈ Recon.mapping_records (Recon.detect_and_categorize Sample.ledger)) as Hin.
  { apply list_elem_of_In. vm_compute. by left. }
  split; [exact ledger_distinct|]. split; [exact Hin|].
  exact (mapping_never_identity Sample.ledger _ ledger_distinct ledger_identifiers Hin).
Defined.

Lemma acme_group_classified :
  ReconSpec.classified (ReconSpec.base_group Sample.ledger "acmeind" "012A" "INE012A01") = true.
Proof. by vm_compute. Qed.

Lemma corporate_action_canonical_witness :
  ReconSpec.distinct Sample.ledger
  /\ ReconSpec.classified
       (ReconSpec.base_group Sample.ledger "acmeind" "012A" "INE012A01") = true
  /\ ReconSpec.member_rows
       (ReconSpec.base_group Sample.ledger "acmeind" "012A" "INE012A01")
       (Recon.corporate_action (Recon.detect_and_categorize Sample.ledger))
     = [Sample.acme_row;
        Recon.corporate_action_row "acmeind" "012A" Sample.acme_new Sample.acme_new].
Proof.
  split; [exact ledger_distinct|]. split; [exact acme_group_classified|].
  destruct (proj1 (corporate_action_canonical Sample.ledger "acmeind" "012A" "INE012A01"
                     ledger_distinct) acme_group_classified)
    as (newest & Hlast & Hrows & _).
  vm_compute in Hlast. injection Hlast as <-.
  rewrite Hrows. vm_compute. reflexivity.
Defined.

(** ** The mapping artifact, written and read back *)

Section ArtifactText.
Import Convert Artifact.

Lemma free_of_append (c : ascii) (a b : string) :
  free_of c (a +:+ b) = free_of c a && free_of c b.
Proof.
  induction a as [|x a IH]; simpl; [done|].
  unfold free_of in *. simpl. rewrite IH. by rewrite andb_assoc.
Qed.

Lemma free_of_join (c : ascii) (sep : string) (l : list string) :
  free_of c sep = true -> Forall (fun s => free_of c s = true) l ->
  free_of c (Text.join sep l) = true.
Proof.
  intros Hsep. induction 1 as [|s l Hs Hl IH]; [done|].
  unfold Text.join in *. destruct l as [|s' l]; [done|].
  change (String.concat sep (s :: s' :: l))
    with (s +:+ sep +:+ String.concat sep (s' :: l)).
  rewrite !free_of_append, Hs, Hsep. simpl. exact IH.
Qed.

Lemma universal_newlines_id (s : string) :
  free_of CR s = true -> universal_newlines s = s.
Proof.
  induction s as [|c s IH]; [done|]. unfold free_of. simpl.
  intros [Hc Hs]%andb_prop. apply Bool.negb_true_iff in Hc. rewrite Hc.
  f_equal. by apply IH.
Qed.

Lemma keep_ends_line (a rest : string) :
  free_of LF a = true ->
  keep_ends (a +:+ String LF rest) = (a +:+ String LF EmptyString) :: keep_ends rest.
Proof.
  induction a as [|c a IH]; simpl; [done|]. unfold free_of. simpl.
  intros [Hc Ha]%andb_prop. apply Bool.negb_true_iff in Hc. rewrite Hc.
  by rewrite (IH Ha).
Qed.

Lemma keep_ends_last (a : string) :
  free_of LF a = true -> a <> EmptyString -> keep_ends a = [a].
Proof.
  induction a as [|c a IH]; [done|]. unfold free_of. simpl.
  intros [Hc Ha]%andb_prop _. apply Bool.negb_true_iff in Hc. rewrite Hc.
  destruct a as [|c' a]; [done|]. by rewrite (IH Ha).
Qed.

Lemma split_field (c : ascii) (a b : string) :
  free_of c a = true -> Text.split c (a +:+ String c b) = a :: Text.split c b.
Proof.
  induction a as [|x a IH]; simpl.
  - intros _. by rewrite Ascii.eqb_refl.
  - unfold free_of. simpl. intros [Hx Ha]%andb_prop.
    apply Bool.negb_true_iff in Hx. rewrite Hx. by rewrite (IH Ha).
Qed.

Lemma split_last (c : ascii) (a : string) :
  free_of c a = true -> Text.split c a = [a].
Proof.
  induction a as [|x a IH]; simpl; [done|].
  unfold free_of. simpl. intros [Hx Ha]%andb_prop.
  apply Bool.negb_true_iff in Hx. rewrite Hx. by rewrite (IH Ha).
Qed.

Lemma rstrip_newline (s : string) :
  Text.rstrip (s +:+ String LF EmptyString) = Text.rstrip s.
Proof. induction s as [|c s IH]; simpl; [reflexivity|]. by rewrite IH. Qed.

Lemma rstrip_solid (s : string) : solid s = true -> Text.rstrip s <> EmptyString.
Proof.
  destruct s as [|c s]; [done|]. unfold solid. simpl.
  intros Hc%Bool.negb_true_iff. rewrite Hc. by destruct (Text.rstrip s).
Qed.

Lemma rstrip_append (a b : string) :
  Text.rstrip b <> EmptyString -> Text.rstrip (a +:+ b) = a +:+ Text.rstrip b.
Proof.
  intros Hb. induction a as [|c a IH]; simpl; [done|]. rewrite IH.
  destruct (a +:+ Text.rstrip b) eqn:E; [|by rewrite <- E].
  destruct a; [by destruct Hb|discriminate E].
Qed.

Lemma lstrip_solid (s : string) : solid s = true -> Text.lstrip s = s.
Proof.
  destruct s as [|c s]; [done|]. unfold solid. simpl.
  by intros ->%Bool.negb_true_iff.
Qed.

Lemma free_of_rstrip (c : ascii) (s : string) :
  free_of c s = true -> free_of c (Text.rstrip s) = true.
Proof.
  unfold free_of. induction s as [|x s IH]; simpl; [done|].
  intros [Hx Hs]%andb_prop. specialize (IH Hs).
  destruct (Text.rstrip s) eqn:E.
  - destruct (Text.is_space x); [done|]. simpl. by rewrite Hx.
  - simpl in *. by rewrite Hx.
Qed.

Lemma solid_append (a b : string) : solid a = true -> solid (a +:+ b) = true.
Proof. by destruct a. Qed.

Lemma rstrip_append_ne (a b : string) :
  Text.rstrip b <> EmptyString -> Text.rstrip (a +:+ b) <> EmptyString.
Proof.
  intros Hb. rewrite rstrip_append by done.
  destruct a; [done|discriminate].
Qed.

Lemma join_record (f0 f1 f2 f3 f4 : string) :
  Text.join (String TAB EmptyString) [f0; f1; f2; f3; f4]
  = tabbed f0 (tabbed f1 (tabbed f2 (tabbed f3 f4))).
Proof. reflexivity. Qed.

Lemma rstrip_tabbed (a b : string) :
  Text.rstrip b <> EmptyString ->
  Text.rstrip (tabbed a b) = tabbed a (Text.rstrip b)
  /\ Text.rstrip (tabbed a b) <> EmptyString.
Proof.
  intros Hb. unfold tabbed.
  assert (Text.rstrip (String TAB b) = String TAB (Text.rstrip b)) as Ht.
  { simpl. by destruct (Text.rstrip b). }
  split.
  - rewrite rstrip_append; rewrite Ht; done.
  - apply rstrip_append_ne. by rewrite Ht.
Qed.

(** What [load_line] reads from the line written for a record. *)
Lemma load_line_record (mapping : gmap string val_entry) (f0 f1 f2 f3 f4 : string) :
  Forall (fun f => plain f = true) [f0; f1; f2; f3; f4] ->
  solid f0 = true -> solid f4 = true ->
  load_line mapping (Text.join (String TAB EmptyString) [f0; f1; f2; f3; f4])
  = <[ f0 := {| val_isin_mapped := f1; val_name_mapped := f2;
                val_category := f3; val_reason := Text.rstrip f4 |} ]> mapping.
Proof.
  intros Hplain H0 H4.
  assert (Forall (fun f => free_of TAB f = true) [f0; f1; f2; f3; f4]) as Htab.
  { eapply Forall_impl; [exact Hplain|]. intros f Hf. unfold plain in Hf.
    by apply andb_prop in Hf as [[? _]%andb_prop _]. }
  apply Forall_cons in Htab as [T0 Htab]. apply Forall_cons in Htab as [T1 Htab].
  apply Forall_cons in Htab as [T2 Htab]. apply Forall_cons in Htab as [T3 Htab].
  apply Forall_cons in Htab as [T4 _].
  unfold load_line. rewrite join_record. unfold Text.strip.
  rewrite lstrip_solid by (by apply solid_append).
  pose proof (rstrip_solid f4 H4) as N4.
  destruct (rstrip_tabbed f3 f4 N4) as [E3 N3].
  destruct (rstrip_tabbed f2 _ N3) as [E2 N2].
  destruct (rstrip_tabbed f1 _ N2) as [E1 N1].
  destruct (rstrip_tabbed f0 _ N1) as [E0 _].
  rewrite E0, E1, E2, E3. unfold tabbed.
  rewrite !split_field by done. rewrite split_last by (by apply free_of_rstrip).
  reflexivity.
Qed.

Lemma load_line_sound (mapping : gmap string val_entry) (record : list string) :
  sound_record record ->
  load_line mapping (line_of record) = read_record mapping record.
Proof.
  intros (Hlen & Hplain & H0 & H4).
  destruct record as [|f0 [|f1 [|f2 [|f3 [|f4 [|]]]]]]; try done.
  by apply load_line_record.
Qed.

Lemma line_of_sound (record : list string) :
  sound_record record ->
  free_of LF (line_of record) = true /\ free_of CR (line_of record) = true
  /\ solid (line_of record) = true.
Proof.
  intros (Hlen & Hplain & H0 & H4).
  assert (Forall (fun f => free_of LF f = true) record
          /\ Forall (fun f => free_of CR f = true) record) as [HL HC].
  { split; (eapply Forall_impl; [exact Hplain|]); intros f Hf; unfold plain in Hf;
      apply andb_prop in Hf as [[? ?]%andb_prop ?]; done. }
  split; [by apply free_of_join|]. split; [by apply free_of_join|].
  destruct record as [|f0 [|f1 record]]; try done.
  by apply solid_append.
Qed.

Lemma load_line_newline (mapping : gmap string val_entry) (line : string) :
  solid line = true ->
  load_line mapping (line +:+ String LF EmptyString) = load_line mapping line.
Proof.
  intros Hs. unfold load_line, Text.strip.
  rewrite (lstrip_solid (line +:+ _)) by (by apply solid_append).
  by rewrite rstrip_newline, lstrip_solid.
Qed.

Lemma solid_nonempty (s : string) : solid s = true -> s <> EmptyString.
Proof. by destruct s. Qed.

Lemma join_lines (l l' : string) (rest : list string) :
  Text.join (String LF EmptyString) (l :: l' :: rest)
  = l +:+ String LF (Text.join (String LF EmptyString) (l' :: rest)).
Proof. reflexivity. Qed.

Lemma load_lines (lines : list string) (mapping : gmap string val_entry) :
  Forall (fun l => free_of LF l = true /\ solid l = true) lines ->
  foldl load_line mapping (keep_ends (Text.join (String LF EmptyString) lines))
  = foldl load_line mapping lines.
Proof.
  intros Hall. revert mapping.
  induction Hall as [|l lines [Hl Hs] Hrest IH]; intros mapping; [done|].
  destruct lines as [|l' rest].
  - unfold Text.join. simpl. by rewrite keep_ends_last by (by try apply solid_nonempty).
  - rewrite join_lines, keep_ends_line by done. cbn [foldl].
    rewrite load_line_newline by done. apply IH.
Qed.

(** Reading the written file back is reading the records one by one. *)
Lemma load_written (records : list (list string)) :
  Forall sound_record records ->
  load_isin_validation_mapping
    (Some (Text.join (String LF EmptyString) (line_of <$> (Recon.headers :: records))))
  = foldl read_record ∅ records.
Proof.
  intros Hall. unfold load_isin_validation_mapping, readlines.
  assert (Forall (fun l => free_of LF l = true /\ free_of CR l = true /\ solid l = true)
            (line_of <$> records)) as Hlines.
  { apply Forall_fmap. eapply Forall_impl; [exact Hall|]. apply line_of_sound. }
  rewrite universal_newlines_id.
  2:{ apply free_of_join; [done|]. rewrite fmap_cons. constructor; [done|].
      eapply Forall_impl; [exact Hlines|]. by intros l (_ & ? & _). }
  rewrite fmap_cons.
  assert (Forall (fun l => free_of LF l = true /\ solid l = true) (line_of <$> records))
    as Hlines'.
  { eapply Forall_impl; [exact Hlines|]. by intros l (? & _ & ?). }
  destruct (line_of <$> records) as [|l rest] eqn:Hrec.
  - destruct records; [done|discriminate].
  - rewrite join_lines, keep_ends_line by done.
    match goal with
    | |- context [List.skipn 1 (?x :: ?t)] => change (List.skipn 1 (x :: t)) with t
    end.
    rewrite load_lines by done. rewrite <- Hrec.
    clear Hrec Hlines Hlines'. generalize (∅ : gmap string val_entry).
    induction Hall as [|r records Hr _ IH]; intros m; [done|].
    rewrite fmap_cons. cbn [foldl]. rewrite load_line_sound by done. apply IH.
Qed.

Lemma read_records_other (records : list (list string)) (key : string)
    (mapping : gmap string val_entry) :
  Forall (fun r => length r = 5) records ->
  key ∉ (hd EmptyString <$> records) ->
  foldl read_record mapping records !! key = mapping !! key.
Proof.
  intros Hall. revert mapping.
  induction Hall as [|r records Hr _ IH]; intros mapping Hkey; [done|].
  rewrite fmap_cons in Hkey. apply not_elem_of_cons in Hkey as [Hne Hkey].
  cbn [foldl]. rewrite IH by done.
  destruct r as [|f0 [|f1 [|f2 [|f3 [|f4 [|]]]]]]; try done.
  simpl in *. by rewrite lookup_insert_ne.
Qed.

Lemma read_records_lookup (records : list (list string)) (f0 f1 f2 f3 f4 : string)
    (mapping : gmap string val_entry) :
  Forall (fun r => length r = 5) records ->
  NoDup (hd EmptyString <$> records) ->
  [f0; f1; f2; f3; f4] ∈ records ->
  foldl read_record mapping records !! f0
  = Some {| val_isin_mapped := f1; val_name_mapped := f2;
            val_category := f3; val_reason := Text.rstrip f4 |}.
Proof.
  intros Hall. revert mapping.
  induction Hall as [|r records Hr Hrest IH]; intros mapping Hnd Hin.
  - by apply elem_of_nil in Hin.
  - rewrite fmap_cons, NoDup_cons in Hnd. destruct Hnd as [Hhd Hnd].
    cbn [foldl]. apply elem_of_cons in Hin as [<-|Hin].
    + rewrite read_records_other by done. simpl. by rewrite lookup_insert_eq.
    + by apply IH.
Qed.

End ArtifactText.

Section RoundTrip.
Context `{PyFloat}.
Import Recon ReconSpec Artifact.

Lemma mapping_records_written (r : results) :
  mapping_records r =
    concat ((fun part : category * list Row.t =>
               mapping_line (category_name part.1) <$> part.2) <$> written r).
Proof. unfold mapping_records, written. simpl. by rewrite app_nil_r. Qed.

Lemma written_sublist (r : results) (part : category * list Row.t) :
  part ∈ written r -> part.2 `sublist_of` rows_of part.1 r.
Proof.
  unfold written. rewrite !elem_of_cons, elem_of_nil.
  intros [->|[->|[->|[->|[->|[]]]]]]; simpl; try done.
  apply filter_sublist.
Qed.

Lemma parts_nodup (data : list Item.t) (st : state)
    (parts : list (category * list Row.t)) :
  invariant data st ->
  (forall part, part ∈ parts -> part.2 `sublist_of` rows_of part.1 (res st)) ->
  NoDup parts.*1 ->
  NoDup (Row.isin_original <$> concat (snd <$> parts)).
Proof.
  intros [Hsub _ Hnd Hgood _] Hparts Hcats.
  assert (forall c l, l `sublist_of` rows_of c (res st) ->
                      NoDup (Row.isin_original <$> l)) as Hone.
  { intros c l Hl. eapply sublist_NoDup; [exact Hnd|].
    apply fmap_sublist. by etrans. }
  induction parts as [|[c l] parts IH]; [constructor|].
  rewrite fmap_cons, NoDup_cons in Hcats. destruct Hcats as [Hc Hcats].
  rewrite fmap_cons. cbn [concat snd]. rewrite fmap_app. apply NoDup_app.
  split; [apply (Hone c), (Hparts (c, l)); left|]. split.
  - intros isin (r1 & -> & Hr1)%list_elem_of_fmap (r2 & Heq & Hr2)%list_elem_of_fmap.
    apply list_elem_of_In, in_concat in Hr2 as (l' & Hl' & Hr2).
    apply list_elem_of_In in Hl', Hr2.
    apply list_elem_of_fmap in Hl' as ([c' l''] & -> & Hpart). simpl in *.
    assert (r1 ∈ rows_of c (res st)) as H1.
    { eapply elem_of_sublist; [exact Hr1|]. apply (Hparts (c, l)). left. }
    assert (r2 ∈ rows_of c' (res st)) as H2.
    { eapply elem_of_sublist; [exact Hr2|]. apply (Hparts (c', l'')). by right. }
    assert (r1 = r2) as <-.
    { eapply nodup_fmap_inj; [exact Hnd|by eapply elem_of_sublist..|done]. }
    apply Hc. apply list_elem_of_fmap. exists (c', l''). split; [|done]. simpl.
    apply category_name_inj.
    destruct (Hgood c r1 H1) as [<- _]. by destruct (Hgood c' r1 H2) as [<- _].
  - apply IH; [|done]. intros part Hpart. apply Hparts. by right.
Qed.

Lemma valid_solid (s : string) : Convert.is_valid_isin s = true -> solid s = true.
Proof.
  destruct s as [|c s]; [done|]. rewrite is_valid_isin_spec.
  intros [Hp _]%andb_prop. unfold Text.startswith in Hp. cbn [String.prefix] in Hp.
  by destruct (ascii_dec "I" c) as [<-|].
Qed.

(** *** A second ingestion leaves the engine's input alone *)




(** *** Written, read back and resolved *)

Lemma written_keys (r : results) :
  hd EmptyString <$> mapping_records r
  = Row.isin_original <$> concat (snd <$> written r).
Proof.
  unfold mapping_records, written. simpl.
  rewrite !fmap_app, <- !list_fmap_compose, app_nil_r. done.
Qed.

Lemma written_sound (data : list Item.t) :
  distinct data ->
  (forall item, item ∈ data -> Convert.is_valid_isin (Item.isin item) = true) ->
  Forall (Forall (fun f => plain f = true)) (mapping_records (detect_and_categorize data)) ->
  Forall sound_record (mapping_records (detect_and_categorize data)).
Proof.
  intros Hd Hvalid Hplain.
  destruct (run_engine_invariant data Hd) as [_ _ _ Hgood _].
  apply Forall_forall. intros record Hrec.
  pose proof (proj1 (Forall_forall _ _) Hplain record Hrec) as Hp.
  rewrite mapping_records_written in Hrec.
  apply list_elem_of_In, in_concat in Hrec as (l & Hl & Hrec).
  apply list_elem_of_In in Hl, Hrec.
  apply list_elem_of_fmap in Hl as (part & -> & Hpart).
  apply list_elem_of_fmap in Hrec as (row & -> & Hrow).
  assert (row ∈ rows_of part.1 (detect_and_categorize data)) as Hin.
  { eapply elem_of_sublist; [exact Hrow|]. by apply written_sublist. }
  destruct (Hgood _ _ Hin) as (_ & (item & Hitem & Hisin) & Hreason & _).
  split; [done|]. split; [done|]. split; [|done]. simpl.
  rewrite Hisin. by apply valid_solid, Hvalid.
Qed.

(** The entry the loader holds for a written row. *)
Lemma lookup_written (data : list Item.t) (part : category * list Row.t)
    (row : Row.t) :
  distinct data ->
  (forall item, item ∈ data -> Convert.is_valid_isin (Item.isin item) = true) ->
  Forall (Forall (fun f => plain f = true)) (mapping_records (detect_and_categorize data)) ->
  part ∈ written (detect_and_categorize data) -> row ∈ part.2 ->
  Convert.load_isin_validation_mapping
    (Some (write_mapping_file (detect_and_categorize data))) !! Row.isin_original row
  = Some {| Convert.val_isin_mapped := Row.isin_mapped row;
            Convert.val_name_mapped := Row.name_mapped row;
            Convert.val_category := category_name part.1;
            Convert.val_reason := Text.rstrip (Row.reason row) |}.
Proof.
  intros Hd Hvalid Hplain Hpart Hrow.
  pose proof (written_sound data Hd Hvalid Hplain) as Hsound.
  unfold write_mapping_file.
  change (Text.join (String Convert.TAB EmptyString) <$> ?l) with (line_of <$> l).
  rewrite load_written by done.
  apply (read_records_lookup _ (Row.isin_original row) (Row.isin_mapped row)
           (Row.name_mapped row) (category_name part.1) (Row.reason row)).
  - eapply Forall_impl; [exact Hsound|]. by intros r [? _].
  - rewrite written_keys.
    apply (parts_nodup data (run_engine data)); [by apply run_engine_invariant| |].
    + intros p Hp. by apply written_sublist.
    + apply (bool_decide_unpack _). by vm_compute.
  - rewrite mapping_records_written.
    apply list_elem_of_In, in_concat.
    exists (mapping_line (category_name part.1) <$> part.2). split.
    + apply list_elem_of_In, list_elem_of_fmap. by exists part.
    + apply list_elem_of_In, list_elem_of_fmap. by exists row.
Qed.

(** A row with action [MAP] or [AGGREGATE] is one of the written rows. *)
Lemma mapped_row_written (data : list Item.t) (c : category) (row : Row.t) :
  distinct data ->
  row ∈ rows_of c (detect_and_categorize data) ->
  Row.action row = "MAP" \/ Row.action row = "AGGREGATE" ->
  exists part, part ∈ written (detect_and_categorize data) /\ row ∈ part.2.
Proof.
  intros Hd Hrow Hact.
  destruct (run_engine_invariant data Hd) as [_ _ _ Hgood _].
  destruct (Hgood c row Hrow) as (_ & _ & _ & Hc).
  unfold written. destruct c; simpl in *.
  - eexists. split; [apply list_elem_of_here|]. simpl.
    apply list_elem_of_In, List.filter_In. split; [by apply list_elem_of_In|].
    apply String.eqb_eq. destruct Hc as [[Ht _]|[Hm _]]; [|done].
    destruct Hact as [Hact|Hact]; congruence.
  - eexists. split; [apply list_elem_of_further, list_elem_of_here|done].
  - eexists. split; [do 2 apply list_elem_of_further; apply list_elem_of_here|done].
  - eexists. split; [do 3 apply list_elem_of_further; apply list_elem_of_here|done].
  - eexists. split; [do 4 apply list_elem_of_further; apply list_elem_of_here|done].
  - destruct Hact as [Hact|Hact]; congruence.
Qed.



End RoundTrip.

Lemma ledger_valid (item : Recon.Item.t) :
  item ∈ Sample.ledger -> Convert.is_valid_isin (Recon.Item.isin item) = true.
Proof.
  assert (Forall (fun item => Convert.is_valid_isin (Recon.Item.isin item) = true)
            Sample.ledger) as Hall.
  { apply (bool_decide_unpack _). by vm_compute. }
  intros Hin. by eapply Forall_forall in Hall.
Qed.

Lemma ledger_plain :
  Forall (Forall (fun f => Artifact.plain f = true))
    (Recon.mapping_records (Recon.detect_and_categorize Sample.ledger)).
Proof. apply (bool_decide_unpack _). by vm_compute. Qed.

Lemma acme_row_listed :
  Sample.acme_row
    ∈ Recon.rows_of Recon.CORPORATE_ACTION (Recon.detect_and_categorize Sample.ledger).
Proof. apply list_elem_of_In. vm_compute. by left. Qed.



(** ** Names and identifiers *)

Section Names.
Import Recon IsinSpec.


















End Names.

Section Identifiers.
Context `{PyFloat}.
Import Recon IsinSpec.

Lemma load_row_some (r : query_row) (item : Item.t) :
  load_row r = Some item ->
  Item.isin item = query_isin r /\ 12 <= String.length (query_isin r)
  /\ Item.country item = Text.take 2 (query_isin r)
  /\ Item.issuer_type item = Text.slice 2 3 (query_isin r)
  /\ Item.issuer_code item = Text.slice 3 7 (query_isin r)
  /\ Item.security_type item = Text.slice 7 9 (query_isin r)
  /\ Item.serial item = Text.slice 9 11 (query_isin r)
  /\ Item.check item = Text.slice 11 12 (query_isin r)
  /\ Item.base_9 item = Text.take 9 (query_isin r).
Proof.
  destruct r as [[[[[isin name_final] instrument_name] mv] funds] months].
  unfold load_row, query_isin. simpl.
  destruct (negb (Text.truthy isin) || (String.length isin <? 12)) eqn:Hc; [done|].
  apply Bool.orb_false_iff in Hc as [_ Hlen%Nat.ltb_ge].
  intros [= <-]. simpl. repeat split; done.
Qed.

Lemma load_row_long (r : query_row) :
  12 <= String.length (query_isin r) -> exists item, load_row r = Some item.
Proof.
  destruct r as [[[[[isin name_final] instrument_name] mv] funds] months].
  unfold load_row, query_isin. simpl. intros Hlen.
  assert (negb (Text.truthy isin) || (String.length isin <? 12) = false) as ->.
  { apply Bool.orb_false_iff. split; [destruct isin; [simpl in Hlen; lia|done]|by apply Nat.ltb_ge]. }
  eauto.
Qed.

Lemma cut_twelve (s : string) :
  12 <= String.length s ->
  Text.take 2 s +:+ Text.slice 2 3 s +:+ Text.slice 3 7 s +:+ Text.slice 7 9 s
    +:+ Text.slice 9 11 s +:+ Text.slice 11 12 s = Text.take 12 s
  /\ Text.take 2 s +:+ Text.slice 2 3 s +:+ Text.slice 3 7 s +:+ Text.slice 7 9 s
     = Text.take 9 s
  /\ String.length <$> [Text.take 2 s; Text.slice 2 3 s; Text.slice 3 7 s;
                        Text.slice 7 9 s; Text.slice 9 11 s; Text.slice 11 12 s]
     = [2; 1; 4; 2; 2; 1].
Proof.
  intros Hlen.
  do 12 (destruct s as [|? s]; [simpl in Hlen; lia|]).
  unfold Text.take, Text.slice. simpl. by destruct s.
Qed.

(** X15: an identifier of at least twelve characters is cut into six
    fields of 2, 1, 4, 2, 2 and 1 characters that, put together again, are
    its first twelve characters; the base prefix is the first four fields.
    A shorter identifier yields no item. *)
Theorem parse_isin_fields (r : query_row) :
  match load_row r with
  | Some item =>
      12 <= String.length (query_isin r)
      /\ Item.isin item = query_isin r
      /\ String.length <$> fields item = [2; 1; 4; 2; 2; 1]
      /\ Item.country item +:+ Item.issuer_type item +:+ Item.issuer_code item
           +:+ Item.security_type item +:+ Item.serial item +:+ Item.check item
         = Text.take 12 (Item.isin item)
      /\ Item.base_9 item
         = Item.country item +:+ Item.issuer_type item +:+ Item.issuer_code item
             +:+ Item.security_type item
  | None => String.length (query_isin r) < 12
  end.
Proof.
  destruct (load_row r) as [item|] eqn:Hr.
  - destruct (load_row_some r item Hr)
      as (Hi & Hlen & -> & -> & -> & -> & -> & -> & Hb).
    destruct (cut_twelve (query_isin r) Hlen) as (H12 & H9 & Hls).
    unfold fields. rewrite Hi, Hb. 
    split; [done|]. split; [done|]. split; [|split; [done|by rewrite H9]].
    destruct (load_row_some r item Hr)
      as (_ & _ & -> & -> & -> & -> & -> & -> & _). exact Hls.
  - destruct (Nat.lt_ge_cases (String.length (query_isin r)) 12) as [?|Hge]; [done|].
    destruct (load_row_long r Hge) as [item Hitem]. congruence.
Qed.

Lemma omap_keeps {A B : Type} (f : A -> option B) (g : A -> string) (h : B -> string)
    (l : list A) :
  Forall (fun a => exists b, f a = Some b /\ h b = g a) l ->
  h <$> omap f l = g <$> l.
Proof.
  induction 1 as [|a l (b & Hb & Hg) _ IH]; [done|].
  change (omap f (a :: l))
    with (match f a with Some y => y :: omap f l | None => omap f l end).
  by rewrite Hb, !fmap_cons, Hg, IH.
Qed.

(** X16: the query keeps identifiers of at least twelve characters, and
    on such rows the loader drops nothing: the items carry the identifiers of
    the rows, in the same order.  The query returns one row per identifier, so
    no two items share one. *)
Theorem load_holdings_data_keeps (rows : list query_row) :
  Forall (fun r => 12 <= String.length (query_isin r)) rows ->
  Item.isin <$> load_holdings_data rows = query_isin <$> rows
  /\ (NoDup (query_isin <$> rows) -> ReconSpec.distinct (load_holdings_data rows)).
Proof.
  intros Hlong.
  assert (Item.isin <$> load_holdings_data rows = query_isin <$> rows) as Hk.
  { unfold load_holdings_data. apply omap_keeps.
    eapply Forall_impl; [exact Hlong|]. intros r Hr.
    destruct (load_row_long r Hr) as [item Hitem]. exists item. split; [done|].
    by destruct (load_row_some r item Hitem) as [-> _]. }
  split; [exact Hk|]. unfold ReconSpec.distinct. by rewrite Hk.
Qed.

(** Every identifier the converter assigns is long enough to be parsed. *)
Lemma valid_isin_long (isin : string) :
  Convert.is_valid_isin isin = true -> 12 <= String.length isin.
Proof. rewrite is_valid_isin_spec. intros [_ ?%Nat.leb_le]%andb_prop. done. Qed.

End Identifiers.

(** ** Company names *)

Section CompanyNames.
Import Recon NameSpec.

Lemma forallb_append (p : ascii -> bool) (a b : string) :
  Text.forallb p (a +:+ b) = Text.forallb p a && Text.forallb p b.
Proof. induction a as [|c a IH]; simpl; [done|]. by rewrite IH, andb_assoc. Qed.

Lemma upper_case_upper (s : string) : upper_case (Text.upper s) = true.
Proof.
  unfold upper_case, Text.upper. induction s as [|c s IH]; simpl; [done|]. rewrite IH.
  by destruct c as [[] [] [] [] [] [] [] []].
Qed.

Lemma forallb_lstrip (p : ascii -> bool) (s : string) :
  Text.forallb p s = true -> Text.forallb p (Text.lstrip s) = true.
Proof.
  induction s as [|c s IH]; simpl; [done|].
  intros [Hc Hs]%andb_prop. destruct (Text.is_space c); [by apply IH|].
  simpl. by rewrite Hc.
Qed.

Lemma forallb_rstrip (p : ascii -> bool) (s : string) :
  Text.forallb p s = true -> Text.forallb p (Text.rstrip s) = true.
Proof.
  induction s as [|c s IH]; simpl; [done|].
  intros [Hc Hs]%andb_prop. specialize (IH Hs).
  destruct (Text.rstrip s) eqn:E.
  - destruct (Text.is_space c); [done|]. simpl. by rewrite Hc.
  - simpl in *. by rewrite Hc.
Qed.

Lemma forallb_strip (p : ascii -> bool) (s : string) :
  Text.forallb p s = true -> Text.forallb p (Text.strip s) = true.
Proof. intros Hs. by apply forallb_rstrip, forallb_lstrip. Qed.

Lemma forallb_skip (p q : ascii -> bool) (s : string) :
  Text.forallb p s = true -> Text.forallb p (skip q s) = true.
Proof.
  induction s as [|c s IH]; simpl; [done|].
  intros [Hc Hs]%andb_prop. destruct (q c); [by apply IH|]. simpl. by rewrite Hc.
Qed.

Lemma forallb_run (p q : ascii -> bool) (s : string) :
  Text.forallb p s = true -> Text.forallb p (run q s) = true.
Proof.
  induction s as [|c s IH]; simpl; [done|].
  intros [Hc Hs]%andb_prop. destruct (q c); [|done]. simpl. by rewrite Hc, IH.
Qed.

Lemma forallb_drop (p : ascii -> bool) (n : nat) (s : string) :
  Text.forallb p s = true -> Text.forallb p (Convert.drop n s) = true.
Proof.
  revert s. induction n as [|n IH]; intros [|c s]; simpl; try done.
  intros [_ Hs]%andb_prop. by apply IH.
Qed.

Lemma dot_star_end_hands_back (p : ascii -> bool) : hands_back p dot_star_end.
Proof.
  intros t r Hm Ht. unfold dot_star_end in Hm.
  pose proof (forallb_skip p (fun c => negb (Ascii.eqb c LF)) t Ht) as Hs.
  destruct (skip _ t) as [|c [|c' rest]]; by simplify_eq.
Qed.

Lemma ws_lit_hands_back (p : ascii -> bool) (lit : string) (k : string -> option string) :
  hands_back p k -> hands_back p (ws_lit lit k).
Proof.
  intros Hk t r Hm Ht. unfold ws_lit in Hm.
  destruct (starts Text.is_space t); [|done].
  destruct (String.prefix lit _); [|done].
  apply (Hk _ _ Hm). by apply forallb_drop, forallb_skip.
Qed.

Lemma ws_one_rest_hands_back (p : ascii -> bool) : hands_back p ws_one_rest.
Proof.
  intros t r Hm Ht. destruct t as [|c t]; [done|]. simpl in *.
  apply andb_prop in Ht as [_ Ht]. destruct (Text.is_space c); [|done].
  by eapply dot_star_end_hands_back.
Qed.

Lemma ws_many_rest_hands_back (p : ascii -> bool) : hands_back p ws_many_rest.
Proof.
  intros t r Hm Ht. unfold ws_many_rest in Hm.
  destruct (starts Text.is_space t); [|done].
  eapply dot_star_end_hands_back; [exact Hm|]. by apply forallb_skip.
Qed.

Lemma opt_dot_rest_hands_back (p : ascii -> bool) : hands_back p opt_dot_rest.
Proof.
  intros t r Hm Ht. unfold opt_dot_rest in Hm.
  assert (forall r', dot_star_end t = Some r' -> Text.forallb p r' = true) as Hd.
  { intros r' Hr'. by eapply dot_star_end_hands_back. }
  destruct t as [|c t]; [by apply Hd|].
  destruct (Ascii.eqb_spec c ".") as [->|Hne].
  - destruct (dot_star_end t) as [r'|] eqn:Hr'; [|by apply Hd].
    simplify_eq. simpl in Ht. apply andb_prop in Ht as [_ Ht].
    by eapply dot_star_end_hands_back.
  - apply Hd. destruct c as [[] [] [] [] [] [] [] []]; done.
Qed.

Lemma ws_tenor_hands_back (p : ascii -> bool) : hands_back p ws_tenor.
Proof.
  intros t r Hm Ht. unfold ws_tenor in Hm.
  destruct (starts Text.is_space t); [|done].
  destruct (starts Text.is_digit _); [|done].
  pose proof (forallb_skip p Text.is_digit _ (forallb_skip p Text.is_space t Ht)) as Hs.
  destruct (skip Text.is_digit _) as [|c rest]; [done|].
  simpl in Hs. apply andb_prop in Hs as [_ Hs].
  destruct (Ascii.eqb_spec c "D") as [->|Hne].
  - by eapply ws_one_rest_hands_back.
  - destruct c as [[] [] [] [] [] [] [] []]; done.
Qed.

Lemma suffixes_hand_back (p : ascii -> bool) : Forall (hands_back p) suffixes.
Proof.
  unfold suffixes.
  repeat constructor;
    auto using ws_lit_hands_back, dot_star_end_hands_back, opt_dot_rest_hands_back,
      ws_many_rest_hands_back, ws_one_rest_hands_back, ws_tenor_hands_back.
Qed.

Lemma forallb_sub_suffix (p : ascii -> bool) (m : string -> option string) (s : string) :
  hands_back p m -> Text.forallb p s = true -> Text.forallb p (sub_suffix m s) = true.
Proof.
  intros Hm. induction s as [|c s IH]; intros Hs.
  - simpl. destruct (m EmptyString) as [r|] eqn:Hr; [by eapply Hm|done].
  - cbn [sub_suffix]. destruct (m (String c s)) as [r|] eqn:Hr; [by eapply Hm|].
    simpl in *. apply andb_prop in Hs as [-> Hs]. by apply IH.
Qed.

Lemma forallb_squeeze (p : ascii -> bool) (s : string) :
  p " "%char = true -> Text.forallb p s = true -> Text.forallb p (squeeze s) = true.
Proof.
  intros Hsp. induction s as [|c s IH]; simpl; [done|].
  intros [Hc Hs]%andb_prop. specialize (IH Hs).
  destruct (Text.is_space c).
  - destruct (starts Text.is_space s); [done|]. simpl. by rewrite Hsp.
  - simpl. by rewrite Hc.
Qed.

Lemma forallb_rev_app (p : ascii -> bool) (a b : string) :
  Text.forallb p a = true -> Text.forallb p b = true ->
  Text.forallb p (String.rev_app a b) = true.
Proof.
  revert b. induction a as [|c a IH]; intros b; simpl; [done|].
  intros [Hc Ha]%andb_prop Hb. apply IH; [done|]. simpl. by rewrite Hc.
Qed.

Lemma forallb_words_go (p : ascii -> bool) (cur : option string) (s : string) :
  Text.forallb p s = true -> Text.forallb p (default EmptyString cur) = true ->
  Forall (fun w => Text.forallb p w = true) (Text.words_go cur s).
Proof.
  revert cur. induction s as [|c s IH]; intros cur Hs Hcur; simpl.
  - destruct cur as [w|]; [|done]. constructor; [|done].
    by apply forallb_rev_app.
  - simpl in Hs. apply andb_prop in Hs as [Hc Hs].
    destruct (Text.is_space c).
    + destruct cur as [w|]; [|by apply IH]. constructor; [|by apply IH].
      by apply forallb_rev_app.
    + apply IH; [done|]. simpl. by rewrite Hc.
Qed.

Lemma forallb_join (p : ascii -> bool) (sep : string) (l : list string) :
  Text.forallb p sep = true -> Forall (fun w => Text.forallb p w = true) l ->
  Text.forallb p (Text.join sep l) = true.
Proof.
  intros Hsep. induction 1 as [|w l Hw Hl IH]; [done|].
  unfold Text.join in *. destruct l as [|w' l]; [done|].
  change (String.concat sep (w :: w' :: l))
    with (w +:+ sep +:+ String.concat sep (w' :: l)).
  by rewrite !forallb_append, Hw, Hsep, IH.
Qed.

Lemma forallb_bank_from (p : ascii -> bool) (s g : string) :
  Text.forallb p "BANK" = true -> Text.forallb p s = true ->
  bank_from s = Some g -> Text.forallb p g = true.
Proof.
  intros Hbank. revert g. induction s as [|c s IH]; intros g Hs.
  - simpl. done.
  - cbn [bank_from].
    destruct (if starts Text.is_space (String c s) then _ else None) as [g'|] eqn:Hhere.
    + intros [= <-]. destruct (starts Text.is_space (String c s)); [|done].
      destruct (_ && _); [|done]. injection Hhere as <-.
      rewrite forallb_append, Hbank, Bool.andb_true_r.
      exact (forallb_run p Text.is_space (String c s) Hs).
    + destruct (Ascii.eqb c LF); [done|].
      simpl in Hs. apply andb_prop in Hs as [Hc Hs].
      destruct (bank_from s) as [g'|]; [|done]. simpl. intros [= <-].
      simpl. by rewrite Hc, (IH g').
Qed.

(** X13: the company name extracted from an instrument name holds no
    lower-case letter, whichever rule produced it. *)
Theorem extract_company_name_upper_case (full_name : string) :
  upper_case (extract_company_name full_name) = true.
Proof.
  unfold extract_company_name, upper_case.
  destruct (negb (Text.truthy full_name)); [done|].
  set (p := fun c => negb (Text.is_lower c)).
  assert (Text.forallb p (Text.strip (Text.upper full_name)) = true) as Hname.
  { apply forallb_strip, upper_case_upper. }
  destruct (bank_match _) as [g|] eqn:Hbank.
  - unfold bank_match in Hbank.
    destruct (Text.strip (Text.upper full_name)) as [|c s]; [done|].
    destruct (Ascii.eqb c LF); [done|].
    simpl in Hname. apply andb_prop in Hname as [Hc Hs].
    destruct (bank_from s) as [g'|] eqn:Hg; [|done]. injection Hbank as <-.
    simpl. rewrite Hc. by apply (forallb_bank_from p s g').
  - destruct (String.length _ <? 5).
    + apply forallb_join; [done|].
      apply Forall_take.
      apply forallb_words_go; [apply upper_case_upper|done].
    + apply forallb_strip, forallb_squeeze; [done|].
      assert (forall name, Text.forallb p name = true ->
                Text.forallb p (foldl (fun name suffix => sub_suffix suffix name)
                                  name suffixes) = true) as Hfold.
      { pose proof (suffixes_hand_back p) as Hall.
        induction Hall as [|m ms Hm _ IH]; intros name Hn; [done|].
        cbn [foldl]. apply IH. by apply forallb_sub_suffix. }
      by apply Hfold.
Qed.

Lemma append_assoc (a b c : string) : (a +:+ b) +:+ c = a +:+ b +:+ c.
Proof.
  induction a as [|x a IH]; [done|].
  change (String x ((a +:+ b) +:+ c) = String x (a +:+ b +:+ c)). by rewrite IH.
Qed.

Lemma run_skip (p : ascii -> bool) (s : string) : run p s +:+ skip p s = s.
Proof.
  induction s as [|c s IH]; [done|]. simpl.
  destruct (p c); [|done].
  change (String c (run p s +:+ skip p s) = String c s). by rewrite IH.
Qed.

Lemma prefix_drop (lit s : string) :
  String.prefix lit s = true -> s = lit +:+ Convert.drop (String.length lit) s.
Proof.
  revert s. induction lit as [|c lit IH]; intros s; simpl.
  - by destruct s.
  - destruct s as [|d s]; [done|]. cbn [String.prefix].
    destruct (ascii_dec c d) as [->|]; [|done]. intros Hp.
    change (String d s = String d (lit +:+ Convert.drop (String.length lit) s)).
    f_equal. by apply IH.
Qed.

Lemma bank_from_prefix (s g : string) :
  bank_from s = Some g ->
  exists blanks rest, starts Text.is_space blanks = true
    /\ Text.forallb Text.is_space blanks = true
    /\ boundary rest = true
    /\ exists pre, g = pre +:+ blanks +:+ "BANK" /\ s = g +:+ rest.
Proof.
  revert g. induction s as [|c s IH]; intros g; [done|]. cbn [bank_from].
  destruct (starts Text.is_space (String c s)) eqn:Hsp.
  - destruct (String.prefix "BANK" (skip Text.is_space (String c s))
              && boundary (Convert.drop 4 (skip Text.is_space (String c s)))) eqn:Hb.
    + intros [= <-]. apply andb_prop in Hb as [Hp Hbd].
      exists (run Text.is_space (String c s)),
             (Convert.drop 4 (skip Text.is_space (String c s))).
      split; [simpl in *; by rewrite Hsp|]. split.
      { clear. generalize (String c s). intros t.
        induction t as [|x t IH]; simpl; [done|].
        destruct (Text.is_space x) eqn:Hx; simpl; [by rewrite Hx|done]. }
      split; [done|]. exists EmptyString. split; [done|].
      pose proof (prefix_drop "BANK" _ Hp) as Hd.
      change (String.length "BANK") with 4 in Hd.
      rewrite append_assoc, <- Hd. symmetry.
      exact (run_skip Text.is_space (String c s)).
    + destruct (Ascii.eqb c LF); [done|].
      destruct (bank_from s) as [g'|] eqn:Hg; [|done]. simpl. intros [= <-].
      destruct (IH g' eq_refl) as (blanks & rest & H1 & H2 & H3 & pre & -> & Hs).
      exists blanks, rest. split; [done|]. split; [done|]. split; [done|].
      exists (String c pre). split; [done|]. exact (f_equal (String c) Hs).
  - destruct (Ascii.eqb c LF); [done|].
    destruct (bank_from s) as [g'|] eqn:Hg; [|done]. simpl. intros [= <-].
    destruct (IH g' eq_refl) as (blanks & rest & H1 & H2 & H3 & pre & -> & Hs).
    exists blanks, rest. split; [done|]. split; [done|]. split; [done|].
    exists (String c pre). split; [done|]. exact (f_equal (String c) Hs).
Qed.

(** X14: when the upper-cased, stripped name holds something, then
    blanks, then the word "BANK", the extracted name is that name up to and
    including "BANK": whatever follows the word, "LIMITED" and the instrument
    included, is cut, and the aggregated name of a group of certificates of
    deposit is that name followed by " CD". *)
Theorem bank_name_is_cut_after_bank `{PyFloat} (full_name g : string)
    (items : list Item.t) (first : Item.t) :
  bank_match (Text.strip (Text.upper full_name)) = Some g ->
  extract_company_name full_name = g
  /\ (exists pre blanks rest,
        g = pre +:+ blanks +:+ "BANK" /\ pre <> EmptyString
        /\ starts Text.is_space blanks = true
        /\ Text.forallb Text.is_space blanks = true
        /\ boundary rest = true
        /\ Text.strip (Text.upper full_name) = g +:+ rest)
  /\ (Item.name first = full_name ->
      generate_aggregated_name (first :: items) "CD" = g +:+ " CD").
Proof.
  intros Hbank.
  assert (extract_company_name full_name = g) as Hname.
  { unfold extract_company_name. destruct full_name; [done|]. simpl negb.
    cbn [negb]. by rewrite Hbank. }
  split; [exact Hname|]. split.
  - unfold bank_match in Hbank.
    destruct (Text.strip (Text.upper full_name)) as [|c s]; [done|].
    destruct (Ascii.eqb c LF); [done|].
    destruct (bank_from s) as [g'|] eqn:Hg; [|done]. injection Hbank as <-.
    destruct (bank_from_prefix s g' Hg) as (blanks & rest & H1 & H2 & H3 & pre & -> & Hs).
    exists (String c pre), blanks, rest. repeat split; try done.
    exact (f_equal (String c) Hs).
  - intros Hfirst. unfold generate_aggregated_name. by rewrite Hfirst, Hname.
Qed.

End CompanyNames.

(** ** The rows of the engine, list by list *)

Section EngineRows.
Context `{PyFloat}.
Import Recon ReconSpec RowSpec.

Section Closure.
Variable data : list Item.t.
Variable J : state -> Prop.
Variable allowed : category -> Row.t -> Prop.
Hypothesis J_append : forall c row st, allowed c row -> J st -> J (append c row st).
Hypothesis J_add : forall isin st, J st -> J (add isin st).

Lemma record_all_closed (c : category) (mk : Item.t -> Row.t)
    (items : list Item.t) (st : state) :
  (forall x, x ∈ items -> allowed c (mk x)) -> J st -> J (record_all c mk items st).
Proof.
  intros Hmk Hst. unfold record_all. apply foldl_invariant; [done|].
  intros st' x Hx Hst'. apply J_add, J_append; auto.
Qed.

Lemma append_all_closed (c : category) (mk : Item.t -> Row.t)
    (items : list Item.t) (st : state) :
  (forall x, x ∈ items -> allowed c (mk x)) -> J st -> J (append_all c mk items st).
Proof.
  intros Hmk Hst. unfold append_all. apply foldl_invariant; [done|].
  intros st' x Hx Hst'. apply J_append; auto.
Qed.

Hypothesis allowed_later : forall c row, emits_later data c row -> allowed c row.

Lemma base9_step_closed (nc ic : string) (st : state) (g : string * list Item.t) :
  (forall y, y ∈ g.2 -> grouped data nc ic y /\ Item.base_9 y = g.1) ->
  J st -> J (base9_step nc ic st g).
Proof.
  intros Hg Hst. unfold base9_step.
  pose proof (unprocessed_spec st g.2) as Hspec.
  destruct (unprocessed st g.2) as [|first rest] eqn:Heq; [done|].
  assert (first ∈ g.2) as Hfirst.
  { apply (proj1 (Hspec first)). left. }
  rewrite <- Heq in *.
  destruct (_ && _) eqn:Hc; [|done].
  apply andb_prop in Hc as [_ Htype%String.eqb_eq].
  pose proof (sorted_perm Item.serial (unprocessed st g.2)) as Hperm.
  destruct (last (sorted Item.serial (unprocessed st g.2))) as [newest|] eqn:Hlast; [|done].
  assert (forall x, x ∈ sorted Item.serial (unprocessed st g.2) -> x ∈ g.2) as Hin.
  { intros x Hx. rewrite Hperm in Hx. by apply Hspec in Hx as [? _]. }
  apply record_all_closed; [|done].
  intros x Hx. apply allowed_later. split; [|done].
  destruct (Hg x (Hin x Hx)) as [Hgx Hbx].
  destruct (Hg newest (Hin newest (last_Some_elem_of _ _ Hlast))) as [Hgn Hbn].
  destruct (Hg first Hfirst) as [Hgf Hbf].
  apply (emits_corporate_action data nc ic first); [done..|congruence|congruence|done].
Qed.

Lemma aggregate_step_closed (c : category) (kind nc ic : string)
    (items : list Item.t) (st : state) :
  (c = CD_AGGREGATE /\ kind = "CD") \/ (c = CP_AGGREGATE /\ kind = "CP") ->
  (forall y, y ∈ items -> grouped data nc ic y) ->
  J st -> J (aggregate_step c kind nc ic items st).
Proof.
  intros Hk Hitems Hst. unfold aggregate_step.
  set (picked := List.filter _ items).
  assert (Forall (fun i => grouped data nc ic i /\ Item.sec_category i = kind) picked)
    as Hpicked.
  { apply Forall_forall. intros x Hx.
    apply list_elem_of_In, List.filter_In in Hx as [Hx Hp].
    apply andb_prop in Hp as [Hp%String.eqb_eq _].
    split; [|done]. by apply Hitems, list_elem_of_In. }
  clearbody picked.
  destruct (2 <=? length picked) eqn:Hlen; [|done]. apply Nat.leb_le in Hlen.
  apply record_all_closed; [|done].
  intros x Hx. apply allowed_later.
  destruct Hk as [[-> ->]|[-> ->]]; (split; [by constructor|done]).
Qed.

Lemma issuer_step_closed (nc : string) (st : state) (g : string * list Item.t) :
  (forall y, y ∈ g.2 -> grouped data nc g.1 y) ->
  J st -> J (issuer_step nc st g).
Proof.
  intros Hg Hst. destruct g as [ic items]. simpl in *.
  destruct (unique_isins items <? 2); [done|].
  apply aggregate_step_closed; [by right|done|].
  apply aggregate_step_closed; [by left|done|].
  apply foldl_invariant; [done|].
  intros st' g' Hg' Hst'. apply base9_step_closed; [|done].
  pose proof (group_by_spec Item.base_9 items) as Hall.
  rewrite Forall_forall in Hall. destruct (Hall g' Hg') as [Hsub Hkey].
  intros y Hy. split; [|by apply Hkey]. apply Hg. by eapply elem_of_sublist.
Qed.

Lemma no_action_step_closed (nc : string) (st : state) (g : string * list Item.t) :
  (forall y, y ∈ g.2 -> grouped data nc g.1 y) ->
  J st -> J (no_action_step nc st g).
Proof.
  intros Hg Hst. unfold no_action_step. apply foldl_invariant; [done|].
  intros st' x Hx Hst'. unfold no_action_item.
  destruct (negb _); [|done].
  apply J_add, J_append; [|done]. apply allowed_later.
  split; [|done]. constructor. by apply Hg.
Qed.

Lemma name_group_step_closed (st : state) (g : string * list Item.t) :
  (forall y, y ∈ g.2 -> y ∈ data /\ Item.name_cut y = g.1) ->
  J st -> J (name_group_step st g).
Proof.
  intros Hg Hst. destruct g as [nc items]. simpl in *.
  destruct (length items <? 2); [done|].
  destruct (unique_isins items <? 2); [done|].
  assert (forall g', g' ∈ group_by Item.issuer_code items ->
                     forall y, y ∈ g'.2 -> grouped data nc g'.1 y) as Hgroups.
  { intros g' Hg' y Hy.
    pose proof (group_by_spec Item.issuer_code items) as Hall.
    rewrite Forall_forall in Hall. destruct (Hall g' Hg') as [Hsub Hkey].
    destruct (Hg y) as [? ?]; [by eapply elem_of_sublist|].
    split; [done|]. split; [done|]. by apply Hkey. }
  assert (J (foldl (issuer_step nc) st (group_by Item.issuer_code items))) as Hi.
  { apply foldl_invariant; [done|]. intros st' g' Hg' Hst'.
    apply issuer_step_closed; auto. }
  destruct (1 <? length _); [|done].
  apply foldl_invariant; [done|]. intros st' g' Hg' Hst'.
  apply no_action_step_closed; auto.
Qed.

(** What holds before the main loop and is kept by every row the loop can
    add holds when it ends; [st0] is the state the name groups are read
    in. *)
Lemma main_loop_closed (st0 st : state) :
  J st -> J (foldl name_group_step st (sorted fst (name_groups st0 data))).
Proof.
  intros Hst. apply foldl_invariant; [done|].
  intros st' g Hg Hst'. apply name_group_step_closed; [|done].
  rewrite sorted_perm in Hg. unfold name_groups in Hg.
  pose proof (group_by_spec Item.name_cut
                (List.filter (fun item => Text.truthy (Item.name_cut item)
                                && negb (is_processed st0 item)) data)) as Hall.
  rewrite Forall_forall in Hall. destruct (Hall g Hg) as [Hs Hkey].
  intros y Hy. split; [|by apply Hkey].
  eapply elem_of_sublist; [exact Hy|].
  etrans; [exact Hs|apply filter_sublist].
Qed.

End Closure.

Lemma is_goi_spec (k : goi_kind) (item : Item.t) :
  is_goi k item = true <-> detect_goi_security (Item.name item) = Some k.
Proof.
  unfold is_goi. destruct (detect_goi_security (Item.name item)) as [[]|], k;
    split; congruence.
Qed.

(** Every row of a run is one the code builds for its list, from items of
    the ledger grouped as the loops group them. *)
Lemma run_engine_emits (data : list Item.t) (c : category) (row : Row.t) :
  row ∈ rows_of c (detect_and_categorize data) -> emits data c row.
Proof.
  revert c row. unfold detect_and_categorize, run_engine.
  apply (main_loop_closed data
           (fun st => forall c row, row ∈ rows_of c (res st) -> emits data c row)
           (emits data)).
  - intros c row st Hrow Hst c' row'. rewrite rows_of_append, elem_of_app.
    intros [?|Hin]; [auto|].
    destruct (decide (c' = c)) as [->|]; [|by apply elem_of_nil in Hin].
    by apply list_elem_of_singleton in Hin as ->.
  - intros isin st Hst c row. rewrite res_add. apply Hst.
  - by intros c row [? _].
  - intros c row. rewrite goi_state_rows.
    destruct c; try (by intros ?%elem_of_nil);
      intros (x & -> & Hx)%list_elem_of_fmap;
      apply list_elem_of_In, List.filter_In in Hx as [Hx Hk];
      apply list_elem_of_In in Hx; apply is_goi_spec in Hk; by constructor.
Qed.

(** X17: the two GOI lists hold, in ledger order, one row for every item
    whose name is detected as a T-Bill, respectively as a G-Sec, and for no
    other item: the main loop never adds to them. *)
Theorem goi_rows_in_ledger_order (data : list Item.t) :
  tbill_aggregate (detect_and_categorize data)
    = tbill_row <$> List.filter (is_goi TBILL) data
  /\ gsec_aggregate (detect_and_categorize data)
    = gsec_row <$> List.filter (is_goi GSEC) data.
Proof.
  unfold detect_and_categorize, run_engine.
  apply (main_loop_closed data
           (fun st => tbill_aggregate (res st)
                        = tbill_row <$> List.filter (is_goi TBILL) data
                      /\ gsec_aggregate (res st)
                        = gsec_row <$> List.filter (is_goi GSEC) data)
           (emits_later data)).
  - intros c row st (_ & Ht & Hg) [Htb Hgs].
    change (tbill_aggregate ?r) with (rows_of TBILL_AGGREGATE r).
    change (gsec_aggregate ?r) with (rows_of GSEC_AGGREGATE r).
    rewrite !rows_of_append.
    destruct (decide (TBILL_AGGREGATE = c)); [congruence|].
    destruct (decide (GSEC_AGGREGATE = c)); [congruence|].
    by rewrite !app_nil_r.
  - intros isin st Hst. by rewrite res_add.
  - done.
  - split.
    + apply (goi_state_rows data TBILL_AGGREGATE).
    + apply (goi_state_rows data GSEC_AGGREGATE).
Qed.


(** What every added row keeps, whatever its list, holds of the whole
    run. *)
Lemma run_engine_closed (data : list Item.t) (J : state -> Prop) :
  (forall P, J {| res := empty_results; processed_isins := P |}) ->
  (forall c row st, J st -> J (append c row st)) ->
  (forall isin st, J st -> J (add isin st)) ->
  J (run_engine data).
Proof.
  intros Hinit Happend Hadd. unfold run_engine.
  apply (main_loop_closed data J (fun _ _ => True)); auto.
  unfold goi_state. destruct (goi_scan data) as [[tb gs] processed].
  apply (append_all_closed J (fun _ _ => True)); auto.
  apply (append_all_closed J (fun _ _ => True)); auto.
Qed.

Lemma filter_split {A : Type} (p q : A -> bool) (l : list A) :
  (forall x, x ∈ l -> p x = negb (q x)) ->
  length (List.filter p l) + length (List.filter q l) = length l.
Proof.
  induction l as [|x l IH]; intros Hpq; [done|]. cbn [List.filter].
  rewrite (Hpq x) by left. specialize (IH (fun y Hy => Hpq y (list_elem_of_further _ _ _ Hy))).
  destruct (q x); simpl; lia.
Qed.

(** X21: the totals [print_summary] prints add up: the mappings and the
    targets are all the corporate-action records, and the validation rows are
    the rows of the six lists. *)
Theorem summary_totals_add_up (data : list Item.t) :
  let r := detect_and_categorize data in
  Summary.corp_map_count r + Summary.corp_target_count r = length (corporate_action r)
  /\ length (validation_rows r) = foldr Nat.add 0 (Summary.counts r).
Proof.
  split.
  - apply filter_split. intros row Hrow.
    apply (run_engine_emits data CORPORATE_ACTION) in Hrow.
    inversion Hrow as [| |nc ic lead newest item Hg1 Hg2 Hg3 Hb1 Hb2 Ht Hc Hr| | |]. simpl.
    by destruct (String.eqb (Item.isin item) (Item.isin newest)).
  - unfold detect_and_categorize.
    apply (run_engine_closed data
             (fun st => length (validation_rows (res st))
                        = foldr Nat.add 0 (Summary.counts (res st)))).
    + done.
    + intros c row st Hst. unfold Summary.counts in *.
      change (corporate_action ?r) with (rows_of CORPORATE_ACTION r) in *.
      change (cd_aggregate ?r) with (rows_of CD_AGGREGATE r) in *.
      change (cp_aggregate ?r) with (rows_of CP_AGGREGATE r) in *.
      change (tbill_aggregate ?r) with (rows_of TBILL_AGGREGATE r) in *.
      change (gsec_aggregate ?r) with (rows_of GSEC_AGGREGATE r) in *.
      change (no_action ?r) with (rows_of NO_ACTION r) in *.
      rewrite validation_rows_append, !rows_of_append, !length_app, Hst.
      destruct c; simpl; lia.
    + intros isin st Hst. by rewrite res_add.
Qed.

(** X18: a row under [NO_ACTION] changes nothing: it maps the
    identifier of an item of the ledger to itself and the name to itself, with
    action [NONE], and is no target. *)
Theorem no_action_rows_change_nothing (data : list Item.t) (row : Row.t) :
  row ∈ no_action (detect_and_categorize data) ->
  Row.isin_mapped row = Row.isin_original row
  /\ Row.name_mapped row = Row.name_original row
  /\ Row.action row = "NONE" /\ Row.is_target row = false
  /\ exists item, item ∈ data /\ Row.isin_original row = Item.isin item
                  /\ Row.name_original row = Text.take 60 (Item.name item).
Proof.
  intros Hrow. apply (run_engine_emits data NO_ACTION) in Hrow.
  inversion Hrow as [| | | | |nc ic item (Hitem & _) Hc Hr].
  repeat split. by exists item.
Qed.


(** *** Synthetic identifiers *)

Lemma append_inj_l (a b x y : string) :
  String.length a = String.length b -> a +:+ x = b +:+ y -> a = b.
Proof.
  revert b. induction a as [|c a IH]; intros [|d b]; simpl; try done.
  intros [= Hlen] [= -> Hab]. f_equal. by apply IH.
Qed.

Lemma length_append (a b : string) :
  String.length (a +:+ b) = String.length a + String.length b.
Proof. induction a as [|c a IH]; simpl; [done|]. by rewrite IH. Qed.

Lemma loaded_item (rows : list query_row) (item : Item.t) :
  item ∈ load_holdings_data rows ->
  Item.issuer_code item = Text.slice 3 7 (Item.isin item)
  /\ String.length (Item.issuer_code item) = 4.
Proof.
  unfold load_holdings_data. intros (r & Hr & Hitem)%list_elem_of_omap.
  destruct (load_row_some r item Hitem) as (-> & Hlen & _ & _ & -> & _).
  split; [done|].
  destruct (cut_twelve (IsinSpec.query_isin r) Hlen) as (_ & _ & Hls).
  by injection Hls as _ _ -> _.
Qed.

Lemma two_digits_one : two_digits 1 = "01".
Proof. reflexivity. Qed.

(** X19: on a ledger loaded from the query, every row under
    [CD_AGGREGATE] or [CP_AGGREGATE] maps its identifier to "SYN", the issuer
    code (characters 4 to 7 of the identifier), the kind and "01": eleven
    characters, never a valid identifier; two such rows share the synthetic
    identifier exactly when their identifiers have the same issuer code. *)
Theorem synthetic_identifier_of_issuer (rows : list query_row) (c : category)
    (kind : string) (row row' : Row.t) :
  (c = CD_AGGREGATE /\ kind = "CD") \/ (c = CP_AGGREGATE /\ kind = "CP") ->
  row ∈ rows_of c (detect_and_categorize (load_holdings_data rows)) ->
  row' ∈ rows_of c (detect_and_categorize (load_holdings_data rows)) ->
  Row.isin_mapped row
    = "SYN" +:+ Text.slice 3 7 (Row.isin_original row) +:+ kind +:+ "01"
  /\ String.length (Row.isin_mapped row) = 11
  /\ Convert.is_valid_isin (Row.isin_mapped row) = false
  /\ (Row.isin_mapped row = Row.isin_mapped row'
      <-> Text.slice 3 7 (Row.isin_original row) = Text.slice 3 7 (Row.isin_original row')).
Proof.
  intros Hk Hrow Hrow'.
  assert (forall r, r ∈ rows_of c (detect_and_categorize (load_holdings_data rows)) ->
            Row.isin_mapped r = "SYN" +:+ Text.slice 3 7 (Row.isin_original r) +:+ kind +:+ "01"
            /\ String.length (Text.slice 3 7 (Row.isin_original r)) = 4) as Hform.
  { intros r Hr. apply run_engine_emits in Hr.
    destruct Hk as [[-> ->]|[-> ->]].
    - inversion Hr as [| | |nc ic picked item Hin _ Hall Hc Hrw| |].
      rewrite Forall_forall in Hall. destruct (Hall item Hin) as [(Hitem & _ & Hic) _].
      destruct (loaded_item rows item Hitem) as [Hcode Hlen]. simpl.
      unfold generate_synthetic_isin. rewrite two_digits_one, <- Hcode, <- Hic.
      by split.
    - inversion Hr as [| | | |nc ic picked item Hin _ Hall Hc Hrw|].
      rewrite Forall_forall in Hall. destruct (Hall item Hin) as [(Hitem & _ & Hic) _].
      destruct (loaded_item rows item Hitem) as [Hcode Hlen]. simpl.
      unfold generate_synthetic_isin. rewrite two_digits_one, <- Hcode, <- Hic.
      by split. }
  destruct (Hform row Hrow) as [Hm Hl]. destruct (Hform row' Hrow') as [Hm' Hl'].
  assert (String.length kind = 2) as Hkind by (by destruct Hk as [[_ ->]|[_ ->]]).
  split; [exact Hm|]. split; [|split].
  - rewrite Hm, !length_append, Hl, Hkind. done.
  - rewrite Hm. reflexivity.
  - rewrite Hm, Hm'. split.
    + intros [= Heq]. eapply append_inj_l; [|exact Heq]. congruence.
    + by intros ->.
Qed.

(** *** Name prefixes that nothing shares *)

Lemma group_of_distinct_keys {A : Type} (f : A -> string) (l : list A)
    (g : string * list A) :
  NoDup (f <$> l) -> g ∈ group_by f l -> length g.2 < 2.
Proof.
  intros Hnd Hg.
  pose proof (group_by_spec f l) as Hall.
  rewrite Forall_forall in Hall. destruct (Hall g Hg) as [Hsub Hkey].
  assert (NoDup (f <$> g.2)) as Hnd'.
  { eapply sublist_NoDup; [exact Hnd|]. by apply fmap_sublist. }
  destruct g.2 as [|x [|y rest]]; simpl; [lia..|].
  exfalso. rewrite !fmap_cons, NoDup_cons in Hnd'. destruct Hnd' as [Hx _].
  apply Hx. rewrite (Hkey x), <- (Hkey y); [left| |left]. right; left.
Qed.

(** X20: when no two items of the ledger have the same standardised
    name prefix, the main loop finds nothing to reconcile: the run only holds
    the rows of the GOI pre-step. *)
Theorem distinct_prefixes_need_no_action (data : list Item.t) :
  NoDup (Item.name_cut <$> data) ->
  corporate_action (detect_and_categorize data) = []
  /\ cd_aggregate (detect_and_categorize data) = []
  /\ cp_aggregate (detect_and_categorize data) = []
  /\ no_action (detect_and_categorize data) = [].
Proof.
  intros Hnd.
  assert (run_engine data = goi_state data) as Hrun.
  { unfold run_engine. apply foldl_invariant; [done|].
    intros st g Hg ->. rewrite sorted_perm in Hg. unfold name_groups in Hg.
    destruct g as [nc items].
    assert (length items < 2) as Hlen.
    { apply (group_of_distinct_keys Item.name_cut _ (nc, items)) in Hg; [done|].
      eapply sublist_NoDup; [exact Hnd|]. apply fmap_sublist, filter_sublist. }
    simpl. by apply Nat.ltb_lt in Hlen as ->. }
  unfold detect_and_categorize. rewrite Hrun.
  pose proof (goi_state_rows data) as Hrows.
  split; [apply (Hrows CORPORATE_ACTION)|]. split; [apply (Hrows CD_AGGREGATE)|].
  split; [apply (Hrows CP_AGGREGATE)|apply (Hrows NO_ACTION)].
Qed.

End EngineRows.

(** ** The keys of the mapping artifact *)

Section ArtifactKeys.
Context `{PyFloat}.
Import Recon ReconSpec Artifact RowSpec.

Lemma written_row (r : results) (row : Row.t) :
  row ∈ concat (snd <$> written r) ->
  exists part, part ∈ written r /\ row ∈ part.2.
Proof.
  intros (l & Hl & Hrow)%list_elem_of_In%in_concat.
  apply list_elem_of_In in Hl, Hrow.
  apply list_elem_of_fmap in Hl as (part & -> & Hpart). eauto.
Qed.

Lemma written_action (data : list Item.t) (part : category * list Row.t) (row : Row.t) :
  part ∈ written (detect_and_categorize data) -> row ∈ part.2 ->
  Row.action row = "MAP" \/ Row.action row = "AGGREGATE".
Proof.
  intros Hpart Hrow.
  assert (row ∈ rows_of part.1 (detect_and_categorize data)) as Hin.
  { eapply elem_of_sublist; [exact Hrow|]. by apply written_sublist. }
  apply run_engine_emits in Hin.
  unfold written in Hpart. rewrite !elem_of_cons, elem_of_nil in Hpart.
  destruct Hpart as [->|[->|[->|[->|[->|[]]]]]]; simpl in *.
  - left. apply list_elem_of_In, List.filter_In in Hrow as [_ Hm].
    by apply String.eqb_eq.
  - right. by inversion Hin.
  - right. by inversion Hin.
  - right. by inversion Hin.
  - right. by inversion Hin.
Qed.

(** X22: under the conditions of the round trip (distinct and valid
    identifiers, no tab or line break in a written field) the mapping read
    back has an entry for an identifier exactly when a row of the run gives
    it action [MAP] or [AGGREGATE]; an identifier whose row has action
    [TARGET] or [NONE] has none, and resolves to itself. *)
Theorem mapping_file_keys (data : list Item.t) (k : string) :
  distinct data ->
  (forall item, item ∈ data -> Convert.is_valid_isin (Item.isin item) = true) ->
  Forall (Forall (fun f => plain f = true)) (mapping_records (detect_and_categorize data)) ->
  let validation_mapping :=
    Convert.load_isin_validation_mapping
      (Some (write_mapping_file (detect_and_categorize data))) in
  (is_Some (validation_mapping !! k)
   <-> exists c row, row ∈ rows_of c (detect_and_categorize data)
                     /\ (Row.action row = "MAP" \/ Row.action row = "AGGREGATE")
                     /\ Row.isin_original row = k)
  /\ forall c row isin_mapping name market_value quantity,
       row ∈ rows_of c (detect_and_categorize data) ->
       Row.action row = "TARGET" \/ Row.action row = "NONE" ->
       Row.isin_original row = k ->
       validation_mapping !! k = None
       /\ Convert.isin_mapped
            (Convert.resolve isin_mapping validation_mapping k name market_value quantity)
          = Row.isin_mapped row.
Proof.
  intros Hd Hvalid Hplain vm.
  pose proof (run_engine_invariant data Hd) as [Hsub _ Hnd Hgood _].
  assert (is_Some (vm !! k)
          <-> exists c row, row ∈ rows_of c (detect_and_categorize data)
                            /\ (Row.action row = "MAP" \/ Row.action row = "AGGREGATE")
                            /\ Row.isin_original row = k) as Hkeys.
  { split.
    - intros Hsome.
      destruct (decide (k ∈ hd EmptyString <$> mapping_records (detect_and_categorize data)))
        as [Hin|Hout].
      + rewrite written_keys in Hin.
        apply list_elem_of_fmap in Hin as (row & -> & Hrow).
        apply written_row in Hrow as (part & Hpart & Hrow).
        exists part.1, row. split; [|split; [|done]].
        * eapply elem_of_sublist; [exact Hrow|]. by apply written_sublist.
        * by eapply written_action.
      + exfalso. subst vm. unfold write_mapping_file in Hsome.
        change (Text.join (String Convert.TAB EmptyString) <$> ?l)
          with (line_of <$> l) in Hsome.
        rewrite load_written in Hsome by (by apply written_sound).
        rewrite read_records_other in Hsome; [by destruct Hsome| |done].
        eapply Forall_impl; [by apply written_sound|]. by intros r [? _].
    - intros (c & row & Hrow & Hact & <-).
      destruct (mapped_row_written data c row Hd Hrow Hact) as (part & Hpart & Hin).
      subst vm. by rewrite (lookup_written data part row Hd Hvalid Hplain Hpart Hin). }
  split; [exact Hkeys|].
  intros c row isin_mapping name market_value quantity Hrow Hact <-.
  assert (vm !! Row.isin_original row = None) as Hnone.
  { destruct (vm !! Row.isin_original row) as [e|] eqn:He; [|done]. exfalso.
    destruct (proj1 Hkeys (ex_intro _ e eq_refl)) as (c' & row' & Hrow' & Hact' & Heq).
    assert (row' = row) as ->.
    { eapply nodup_fmap_inj; [exact Hnd|by eapply elem_of_sublist..|done]. }
    destruct Hact as [Ha|Ha], Hact' as [Ha'|Ha']; congruence. }
  split; [exact Hnone|].
  destruct (Hgood c row Hrow) as (_ & (item & Hitem & Hisin) & _ & Hc).
  unfold Convert.resolve. cbn [Convert.isin_mapped]. unfold Convert.assign_isin.
  rewrite Hisin, (Hvalid item Hitem), <- Hisin, Hnone. simpl.
  apply run_engine_emits in Hrow.
  destruct Hact as [Ha|Ha]; inversion Hrow as [| |nc ic lead newest x Hg1 Hg2 Hg3 Hb1 Hb2 Ht Hcat Hr| | |];
    subst; simpl in *; try done;
    destruct (String.eqb_spec (Item.isin x) (Item.isin newest)); done || discriminate.
Qed.

End ArtifactKeys.

(** ** Security types of the reconciled identifiers *)

Section SecurityTypes.
Context `{PyFloat}.
Import Recon ReconSpec RowSpec IsinSpec.

Lemma category_cd (t : string) :
  get_security_category t = "CD" -> t = "16" \/ t = "D6".
Proof.
  unfold get_security_category.
  destruct (String.eqb_spec t "01"); [done|].
  destruct (String.eqb_spec t "16"); [by left|].
  destruct (String.eqb_spec t "D6"); [by right|]. simpl.
  destruct (String.eqb t "14"); [done|].
  by destruct (String.eqb t "07" || String.eqb t "08").
Qed.

Lemma category_cp (t : string) : get_security_category t = "CP" -> t = "14".
Proof.
  unfold get_security_category.
  destruct (String.eqb t "01"); [done|].
  destruct (String.eqb t "16" || String.eqb t "D6"); [done|].
  destruct (String.eqb_spec t "14"); [done|].
  by destruct (String.eqb t "07" || String.eqb t "08").
Qed.

(** X23: on a ledger loaded from the query, a row under
    [CORPORATE_ACTION] concerns an equity identifier (characters 8 and 9 are
    "01") and maps it to an identifier of the ledger with the same first nine
    characters; a row under [CD_AGGREGATE] has security type "16" or "D6", and
    a row under [CP_AGGREGATE] has security type "14". *)
Theorem rows_by_security_type (rows : list query_row) (row : Row.t) :
  let r := detect_and_categorize (load_holdings_data rows) in
  (row ∈ corporate_action r ->
   Text.slice 7 9 (Row.isin_original row) = "01"
   /\ Text.take 9 (Row.isin_mapped row) = Text.take 9 (Row.isin_original row)
   /\ Row.isin_mapped row ∈ Item.isin <$> load_holdings_data rows)
  /\ (row ∈ cd_aggregate r ->
      Text.slice 7 9 (Row.isin_original row) = "16"
      \/ Text.slice 7 9 (Row.isin_original row) = "D6")
  /\ (row ∈ cp_aggregate r -> Text.slice 7 9 (Row.isin_original row) = "14").
Proof.
  intros r. subst r. split; [|split]; intros Hrow.
  - apply (run_engine_emits _ CORPORATE_ACTION) in Hrow.
    inversion Hrow as [| |nc ic lead newest item [Hi _] [Hn _] [Hl _] Hb Hbl Ht Hc Hr| | |].
    simpl.
    destruct (loaded_type rows item Hi) as (_ & Hbi & _).
    destruct (loaded_type rows newest Hn) as (_ & Hbn & _).
    destruct (loaded_type rows lead Hl) as (Htl & Hbl' & _).
    rewrite Hbi, Hbn in Hb. rewrite Hbl', Hbn in Hbl.
    split; [|split; [done|]].
    + by rewrite <- type_of_base, Hb, <- Hbl, type_of_base, <- Htl.
    + apply list_elem_of_fmap. by exists newest.
  - apply (run_engine_emits _ CD_AGGREGATE) in Hrow.
    inversion Hrow as [| | |nc ic picked item Hin _ Hall Hc Hr| |].
    rewrite Forall_forall in Hall. destruct (Hall item Hin) as [[Hitem _] Hcat].
    destruct (loaded_type rows item Hitem) as (_ & _ & Hsc). simpl.
    apply category_cd. by rewrite <- Hsc.
  - apply (run_engine_emits _ CP_AGGREGATE) in Hrow.
    inversion Hrow as [| | | |nc ic picked item Hin _ Hall Hc Hr|].
    rewrite Forall_forall in Hall. destruct (Hall item Hin) as [[Hitem _] Hcat].
    destruct (loaded_type rows item Hitem) as (_ & _ & Hsc). simpl.
    apply category_cp. by rewrite <- Hsc.
Qed.

End SecurityTypes.

(** ** The category and the reason on a holdings record *)

Section MappingColumns.
Context `{PyFloat}.
Import Recon ReconSpec Artifact.

Lemma category_name_truthy (c : category) : Text.truthy (category_name c) = true.
Proof. by destruct c. Qed.

(** X24: under the conditions of the round trip, a holdings record
    whose identifier has action [MAP] or [AGGREGATE] carries, after the
    mapping file is written and read back, the category of the engine's row
    and its reason without trailing whitespace; it is never labelled as
    cash. *)
Theorem mapping_columns_round_trip (data : list Item.t) (c : category) (row : Row.t)
    (isin_mapping : gmap string Convert.master_entry)
    (name : string) (market_value quantity : num) :
  distinct data ->
  (forall item, item ∈ data -> Convert.is_valid_isin (Item.isin item) = true) ->
  Forall (Forall (fun f => plain f = true)) (mapping_records (detect_and_categorize data)) ->
  row ∈ rows_of c (detect_and_categorize data) ->
  Row.action row = "MAP" \/ Row.action row = "AGGREGATE" ->
  let validation_mapping :=
    Convert.load_isin_validation_mapping
      (Some (write_mapping_file (detect_and_categorize data))) in
  let p := Convert.resolve isin_mapping validation_mapping
             (Row.isin_original row) name market_value quantity in
  Convert.mapping_category p = Row.category row
  /\ Convert.mapping_reason p = Text.rstrip (Row.reason row)
  /\ Convert.mapping_category p <> "CASH_AGGREGATE".
Proof.
  intros Hd Hvalid Hplain Hrow Hact vm p.
  destruct (mapped_row_written data c row Hd Hrow Hact) as (part & Hpart & Hin).
  pose proof (lookup_written data part row Hd Hvalid Hplain Hpart Hin) as Hlook.
  assert (row ∈ rows_of part.1 (detect_and_categorize data)) as Hin'.
  { eapply elem_of_sublist; [exact Hin|]. by apply written_sublist. }
  destruct (run_engine_invariant data Hd) as [_ _ _ Hgood _].
  destruct (Hgood part.1 row Hin') as (Hcat & (item & Hitem & Hisin) & _).
  assert (Convert.mapping_category p = category_name part.1
          /\ Convert.mapping_reason p = Text.rstrip (Row.reason row)) as [Hc Hr].
  { subst p. unfold Convert.resolve.
    cbn [Convert.mapping_category Convert.mapping_reason].
    unfold Convert.assign_isin. subst vm. rewrite Hisin in Hlook |- *.
    rewrite (Hvalid item Hitem), Hlook. cbn [from_option Convert.val_category Convert.val_reason].
    rewrite category_name_truthy, Bool.andb_false_r. done. }
  split; [by rewrite Hc, Hcat|]. split; [exact Hr|].
  rewrite Hc. by destruct part.1.
Qed.

End MappingColumns.

(** ** Excel formats *)

Section ExcelFormats.
Import Formats.

Lemma take_is_prefix {A : Type} (n : nat) (p l : list A) :
  length p = n -> take n l = p <-> p `prefix_of` l.
Proof.
  intros Hlen. split.
  - intros <-. apply prefix_take.
  - intros [k ->]. by rewrite take_app_length'.
Qed.

(** X1: the engine is 'openpyxl' exactly for a file that begins with
    the two bytes "PK", 'xlrd' exactly for one that begins with the eight
    bytes of the OLE2 signature, and unset otherwise, so only the first eight
    bytes matter; and [detect_format] of the extension fixer always names the
    format that engine reads. *)
Theorem excel_format_by_signature (content : list byte) :
  (detect_excel_engine content = Some openpyxl <-> ZIP_SIGNATURE `prefix_of` content)
  /\ (detect_excel_engine content = Some xlrd <-> OLE2_SIGNATURE `prefix_of` content)
  /\ detect_excel_engine (take 8 content) = detect_excel_engine content
  /\ engine_of (detect_format content) = detect_excel_engine content.
Proof.
  assert (ZIP_SIGNATURE `prefix_of` content -> ~ OLE2_SIGNATURE `prefix_of` content) as Hex.
  { intros [k ->] [k' Hk']. unfold ZIP_SIGNATURE, OLE2_SIGNATURE in Hk'.
    simpl in Hk'. discriminate Hk'. }
  pose proof (take_is_prefix 2 ZIP_SIGNATURE content eq_refl) as Hz.
  pose proof (take_is_prefix 8 OLE2_SIGNATURE content eq_refl) as Ho.
  assert (detect_excel_engine (take 8 content) = detect_excel_engine content) as Hhead.
  { unfold detect_excel_engine, read. by rewrite !take_take. }
  assert (engine_of (detect_format content) = detect_excel_engine content) as Hagree.
  { unfold detect_excel_engine, detect_format.
    by repeat destruct (bool_decide _). }
  split; [|split; [|by split]]; clear Hhead Hagree;
    unfold detect_excel_engine, read; rewrite !take_take;
    change (2 `min` 8) with 2; change (8 `min` 8) with 8;
    destruct (bool_decide_reflect (take 2 content = ZIP_SIGNATURE)) as [H2|H2];
    destruct (bool_decide_reflect (take 8 content = OLE2_SIGNATURE)) as [H8|H8];
    (split; intros Hc; try done;
     first [by apply Hz | by apply Ho
           | exfalso; apply H2; by apply Hz
           | exfalso; apply H8; by apply Ho
           | exfalso; by apply (Hex (proj1 Hz H2))]).
Qed.

End ExcelFormats.

(** ** Reading a mapping file *)

Section MappingFile.
Import Convert MappingSpec.

Lemma load_line_lookup (mapping : gmap string val_entry) (line key : string) :
  load_line mapping line !! key =
    if binds key (fields line) then Some (entry_of (fields line)) else mapping !! key.
Proof.
  unfold load_line, binds. fold (fields line).
  destruct (3 <=? length (fields line)); [|done]. simpl.
  destruct (String.eqb_spec (nth 0 (fields line) EmptyString) key) as [<-|Hne].
  - by rewrite lookup_insert_eq.
  - by rewrite lookup_insert_ne.
Qed.

Lemma load_lines_lookup (lines : list string) (mapping : gmap string val_entry)
    (key : string) :
  foldl load_line mapping lines !! key =
    match last (List.filter (binds key) (fields <$> lines)) with
    | Some parts => Some (entry_of parts)
    | None => mapping !! key
    end.
Proof.
  revert mapping. induction lines as [|line lines IH]; intros mapping; [done|].
  cbn [foldl]. rewrite IH, load_line_lookup, fmap_cons. cbn [List.filter].
  destruct (binds key (fields line)); [|done].
  rewrite last_cons. by destruct (last _).
Qed.

(** X2: the first line of a mapping file is never read as data; of the
    lines below it only those with at least three tab-separated fields count,
    and when several of them start with the same identifier the last one
    sets its entry.  A file that is absent gives the empty mapping. *)
Theorem mapping_file_last_line_wins (content key : string) :
  load_isin_validation_mapping (Some content) !! key
    = entry_of <$> last (List.filter (binds key) (data_lines content))
  /\ load_isin_validation_mapping None !! key = None.
Proof.
  split; [|done]. unfold load_isin_validation_mapping, data_lines.
  rewrite load_lines_lookup. by destruct (last _).
Qed.

End MappingFile.

(** ** Letter case *)

Section LetterCase.
Import Convert Recon.


End LetterCase.

(** ** The rows the extractor emits *)

Section EmittedRows.
Context `{PyFloat}.
Import Convert.

(** An emitted row is the resolution of a row that was read, is no stop
    row and has a market value other than zero. *)
Lemma step_emit (df : sheet) (s : Schema)
    (isin_mapping : gmap string master_entry)
    (validation_mapping : gmap string val_entry)
    (idx : Z) (js : list Z) (p : ProcessedRow) :
  step df s isin_mapping validation_mapping idx js = Ok (Emit p) ->
  exists row_data isin_original name market_value quantity,
    iloc df (Some idx) = Ok row_data
    /\ is_stop_row row_data = Ok false
    /\ is_aggregation_row name isin_original (full_text row_data) = false
    /\ is_zero market_value = false
    /\ p = resolve isin_mapping validation_mapping isin_original name
             market_value quantity.
Proof.
  unfold step.
  destruct (iloc df (Some idx)) as [row_data|]; [|done]. simpl.
  destruct (iloc row_data (isin_col s)) as [ic|]; [|done]. simpl.
  destruct (iloc row_data (name_col s)) as [nc|]; [|done]. simpl.
  destruct (is_stop_row row_data) as [[]|] eqn:Hstop; try done. simpl.
  destruct (is_aggregation_row _ _ _) eqn:Hagg; [done|].
  destruct (if _ && _ then _ else _) as [[]|]; try done. simpl.
  destruct (cell_value row_data (market_value_col s)) as [mv|]; [|done]. simpl.
  destruct (is_zero mv) eqn:Hz; [done|].
  destruct (cell_value row_data (quantity_col s)) as [q|]; [|done]. simpl.
  intros [= <-]. by exists row_data, (cell_text ic), (cell_text nc), mv, q.
Qed.

Lemma walk_emitted (df : sheet) (s : Schema)
    (isin_mapping : gmap string master_entry)
    (validation_mapping : gmap string val_entry)
    (idxs : list Z) (rows : list (Z * ProcessedRow)) :
  walk df s isin_mapping validation_mapping idxs = Ok rows ->
  forall i p, (i, p) ∈ rows ->
    exists pre post, idxs = pre ++ i :: post
      /\ step df s isin_mapping validation_mapping i post = Ok (Emit p)
      /\ forall k, k ∈ pre -> exists tl d,
           step df s isin_mapping validation_mapping k tl = Ok d /\ d <> Stop.
Proof.
  revert rows. induction idxs as [|idx idxs IH]; intros rows.
  - intros [= <-] i p Hin. by apply elem_of_nil in Hin.
  - rewrite walk_cons.
    destruct (step df s isin_mapping validation_mapping idx idxs) as [d|] eqn:Hd; [|done].
    simpl. destruct d as [| |q].
    + intros [= <-] i p Hin. by apply elem_of_nil in Hin.
    + intros Hw i p Hin. destruct (IH rows Hw i p Hin) as (pre & post & -> & Hs & Hpre).
      exists (idx :: pre), post. split; [done|]. split; [done|].
      intros k [->|Hk]%elem_of_cons; [by exists (pre ++ i :: post), Skip|auto].
    + destruct (walk df s isin_mapping validation_mapping idxs) as [rest|]; [|done].
      simpl. intros [= <-] i p [[= -> ->]|Hin]%elem_of_cons.
      * exists [], idxs. split; [done|]. split; [done|].
        intros k Hk. by apply elem_of_nil in Hk.
      * destruct (IH rest eq_refl i p Hin) as (pre & post & -> & Hs & Hpre).
        exists (idx :: pre), post. split; [done|]. split; [done|].
        intros k [->|Hk]%elem_of_cons; [by exists (pre ++ i :: post), (Emit q)|auto].
Qed.

Lemma resolve_assigned (isin_mapping : gmap string master_entry)
    (validation_mapping : gmap string val_entry)
    (isin name : string) (mv q : num) :
  let p := resolve isin_mapping validation_mapping isin name mv q in
  isin_original p = isin /\ instrument_name p = name
  /\ market_value p = mv /\ quantity p = q
  /\ isin_assigned p = assign_isin isin name
  /\ is_valid_isin (isin_assigned p) = true
  /\ (isin_assigned p = ISIN_OTHER -> Text.truthy (mapping_category p) = true).
Proof.
  simpl. repeat split.
  - unfold assign_isin. by destruct (is_valid_isin isin) eqn:E.
  - intros ->. rewrite String.eqb_refl. cbn [andb].
    destruct (Text.truthy (from_option val_category EmptyString
                             (validation_mapping !! ISIN_OTHER))) eqn:E; simpl; done.
Qed.

Lemma filter_ext_Forall {A : Type} (f g : A -> bool) (l : list A) :
  Forall (fun x => f x = g x) l -> List.filter f l = List.filter g l.
Proof.
  induction 1 as [|x l Hx _ IH]; [done|]. simpl. by rewrite Hx, IH.
Qed.

Lemma process_sheet_rows (df : sheet) (s : Schema)
    (isin_mapping : gmap string master_entry)
    (validation_mapping : gmap string val_entry)
    (rows : list ProcessedRow) (total : num) (unmapped : list (string * string)) :
  process_sheet df s isin_mapping validation_mapping = Ok (rows, total, unmapped) ->
  Forall Report.well_formed rows.
Proof.
  unfold process_sheet, emitted.
  destruct (start_idx s) as [start|]; [|done]. simpl.
  destruct (walk df s isin_mapping validation_mapping _) as [indexed|] eqn:Hw; [|done].
  simpl. intros [= <- _ _].
  apply Forall_forall. intros p ([i p'] & -> & Hin)%list_elem_of_fmap. simpl.
  destruct (walk_emitted _ _ _ _ _ _ Hw i p' Hin) as (pre & post & _ & Hstep & _).
  apply step_emit in Hstep as (rd & isin & name & mv & q & _ & _ & _ & Hz & ->).
  destruct (resolve_assigned isin_mapping validation_mapping isin name mv q)
    as (Ho & Hn & Hm & _ & Ha & Hv & Hc).
  unfold Report.well_formed. by rewrite Ho, Hn, Hm.
Qed.

(** X7: whatever the sheet and the schema, when the extractor returns,
    every row it emits has a valid assigned identifier (the original one when
    that is valid, 'IN9999999999' otherwise), a market value other than zero,
    and a mapping category when it is filed under 'IN9999999999'; and the
    list of unmapped identifiers holds every row the master has no entry for,
    cash rows included. *)
Theorem emitted_rows_well_formed (df : sheet) (s : Schema)
    (isin_mapping : gmap string master_entry)
    (validation_mapping : gmap string val_entry)
    (rows : list ProcessedRow) (total : num) (unmapped : list (string * string)) :
  process_sheet df s isin_mapping validation_mapping = Ok (rows, total, unmapped) ->
  Forall (fun p =>
            is_valid_isin (isin_assigned p) = true
            /\ isin_assigned p = assign_isin (isin_original p) (instrument_name p)
            /\ is_zero (market_value p) = false
            /\ (isin_assigned p = ISIN_OTHER -> Text.truthy (mapping_category p) = true))
         rows
  /\ unmapped = (fun r => (isin_assigned r, instrument_name r)) <$>
                List.filter (fun r => is_none (isin_mapping !! isin_assigned r)) rows.
Proof.
  intros Hp. pose proof (process_sheet_rows _ _ _ _ _ _ _ Hp) as Hall.
  split; [exact Hall|].
  unfold process_sheet in Hp.
  destruct (emitted df s isin_mapping validation_mapping) as [indexed|]; [|done].
  simpl in Hp. injection Hp as <- _ <-. f_equal. apply filter_ext_Forall.
  eapply Forall_impl; [exact Hall|]. intros p (-> & _). apply Bool.andb_true_r.
Qed.

Lemma filter_all_length {A : Type} (f : A -> bool) (l : list A) :
  Forall (fun x => f x = true) l -> length (List.filter f l) = length l.
Proof. induction 1 as [|x l Hx _ IH]; [done|]. simpl. rewrite Hx. simpl. by rewrite IH. Qed.

(** X9: on the rows the extractor returns, the count of valid
    identifiers that [process_fund] prints is the number of rows, so its count
    of "assigned" identifiers is always zero; and the breakdown of rows
    without a valid original identifier has no key but 'IN9999999999'. *)
Theorem report_counts (df : sheet) (s : Schema)
    (isin_mapping : gmap string master_entry)
    (validation_mapping : gmap string val_entry)
    (rows : list ProcessedRow) (total : num) (unmapped : list (string * string)) :
  process_sheet df s isin_mapping validation_mapping = Ok (rows, total, unmapped) ->
  Report.valid_isin_count rows = length rows
  /\ Report.assigned_count rows = 0
  /\ forall key entry, Report.assigned_breakdown rows !! key = Some entry ->
                       key = ISIN_OTHER.
Proof.
  intros Hp. pose proof (process_sheet_rows _ _ _ _ _ _ _ Hp) as Hall.
  assert (Report.valid_isin_count rows = length rows) as Hcount.
  { apply filter_all_length. eapply Forall_impl; [exact Hall|]. by intros p [? _]. }
  split; [exact Hcount|]. split; [unfold Report.assigned_count; lia|].
  unfold Report.assigned_breakdown.
  apply (foldl_invariant
           (fun m : gmap string Report.breakdown =>
              forall key entry, m !! key = Some entry -> key = ISIN_OTHER)).
  - intros key entry. by rewrite lookup_empty.
  - intros m p Hin Hm key entry. unfold Report.breakdown_step.
    destruct (is_valid_isin (isin_original p)) eqn:Hv; simpl; [apply Hm|].
    rewrite Forall_forall in Hall. destruct (Hall p Hin) as (_ & Ha & _).
    unfold assign_isin in Ha. rewrite Hv in Ha. rewrite Ha.
    destruct (decide (key = ISIN_OTHER)) as [->|Hne]; [done|].
    rewrite lookup_insert_ne by done. apply Hm.
Qed.

(** *** The grand-total row ends the extraction *)

Lemma total_row_is_stop_row (r : row) (col : option Z) (v : num) :
  total_in_row r col = Ok (Some v) -> is_stop_row r = Ok true.
Proof.
  unfold total_in_row, pattern1, pattern2, pattern3, is_stop_row.
  destruct (Text.contains "grand total" _); [done|]. simpl.
  destruct (Text.contains "total net assets" _); [done|].
  destruct (first_cell_lower r) as [fc|]; [|done]. simpl.
  by destruct (String.eqb fc "total").
Qed.

Lemma find_grand_total_from_row (df : sheet) (col : option Z) (idx n : Z) (v : option num) :
  find_grand_total_from idx df col = Ok (Some n, v) ->
  exists (i : nat) (r : row),
    n = (idx + Z.of_nat i + 1)%Z /\ df !! i = Some r /\ is_stop_row r = Ok true.
Proof.
  revert idx. induction df as [|r df IH]; intros idx; [done|]. simpl.
  destruct (total_in_row r col) as [[w|]|] eqn:Hr; simpl; [| |done].
  - intros [= <- _]. exists 0, r. split; [lia|]. split; [done|].
    by eapply total_row_is_stop_row.
  - intros (i & r' & -> & Hi & Hs)%IH. exists (S i), r'. split; [lia|]. done.
Qed.

Lemma step_at_stop_row (df : sheet) (s : Schema)
    (isin_mapping : gmap string master_entry)
    (validation_mapping : gmap string val_entry)
    (i : nat) (r : row) (js : list Z) (d : decision) :
  df !! i = Some r -> is_stop_row r = Ok true ->
  step df s isin_mapping validation_mapping (Z.of_nat i) js = Ok d -> d = Stop.
Proof.
  intros Hr Hstop. unfold step. rewrite (iloc_nat _ _ _ Hr). simpl.
  destruct (iloc r (isin_col s)) as [ic|]; [|done]. simpl.
  destruct (iloc r (name_col s)) as [nc|]; [|done]. simpl.
  rewrite Hstop. simpl. by intros [= <-].
Qed.

Lemma range_split (a b k : Z) (pre post : list Z) :
  range a b = pre ++ k :: post ->
  pre = range a k /\ post = range (k + 1) b /\ (a <= k < b)%Z.
Proof.
  revert a. induction pre as [|x pre IH]; intros a Hr.
  - destruct (Z.lt_ge_cases a b) as [Hab|Hab].
    + rewrite range_cons in Hr by done. injection Hr as -> ->.
      split; [by rewrite range_nil by lia|]. split; [done|lia].
    + by rewrite range_nil in Hr by lia.
  - destruct (Z.lt_ge_cases a b) as [Hab|Hab].
    + rewrite range_cons in Hr by done. injection Hr as -> Hr.
      destruct (IH _ Hr) as (-> & -> & Hk).
      split; [|split; [done|lia]].
      rewrite (range_cons x k) by lia. done.
    + by rewrite range_nil in Hr by lia.
Qed.

(** X8: the row [find_grand_total] reports is a row at which the
    extractor stops: when it lies at or below the first data row, every
    emitted row comes from a sheet row before it. *)
Theorem grand_total_row_ends_extraction (df : sheet) (s : Schema)
    (isin_mapping : gmap string master_entry)
    (validation_mapping : gmap string val_entry)
    (n start : Z) (v : option num) (rows : list (Z * ProcessedRow)) :
  find_grand_total df (market_value_col s) = Ok (Some n, v) ->
  start_idx s = Ok start -> (0 <= start < n)%Z ->
  emitted df s isin_mapping validation_mapping = Ok rows ->
  (exists r, df !! Z.to_nat (n - 1) = Some r /\ is_stop_row r = Ok true)
  /\ forall i p, (i, p) ∈ rows -> (start <= i < n - 1)%Z.
Proof.
  intros Hfind Hstart Hn Hem.
  apply find_grand_total_from_row in Hfind as (k & r & -> & Hk & Hstop).
  replace (Z.to_nat (0 + Z.of_nat k + 1 - 1)) with k by lia.
  split; [by exists r|].
  intros i p Hin. unfold emitted in Hem. rewrite Hstart in Hem. simpl in Hem.
  destruct (walk_emitted _ _ _ _ _ _ Hem i p Hin) as (pre & post & Hrange & Hstep & Hpre).
  destruct (range_split _ _ _ _ _ Hrange) as (-> & -> & Hi).
  split; [lia|].
  destruct (Z.lt_ge_cases i (0 + Z.of_nat k + 1 - 1)) as [?|Hge]; [done|]. exfalso.
  assert (Z.of_nat k = i \/ Z.of_nat k ∈ range start i) as [<-|Hbefore].
  { destruct (decide (Z.of_nat k = i)) as [?|Hne]; [by left|right].
    unfold range. apply list_elem_of_fmap. exists (Z.to_nat (Z.of_nat k - start)).
    split; [lia|]. apply elem_of_seq. lia. }
  - by pose proof (step_at_stop_row _ _ _ _ _ _ _ _ Hk Hstop Hstep).
  - destruct (Hpre _ Hbefore) as (tl & d & Hd & Hns).
    by pose proof (step_at_stop_row _ _ _ _ _ _ _ _ Hk Hstop Hd).
Qed.

End EmittedRows.

(** ** What a detected schema says *)

Section DetectedSchema.
Context `{PyFloat}.
Import Convert SchemaSpec.

Ltac split_roles :=
  repeat match goal with
         | H : Forall _ (_ :: _) |- _ => apply Forall_cons in H as [? H]
         | H : NoDup (_ :: _) |- _ => apply NoDup_cons in H as [? H]
         | H : _ ∉ _ :: _ |- _ => apply not_elem_of_cons in H as [? H]
         end.

Ltac solve_roles :=
  repeat match goal with
         | |- Forall _ (_ :: _) => apply Forall_cons; split; [lia|]
         | |- Forall _ [] => apply Forall_nil
         | |- NoDup (_ :: _) => apply NoDup_cons; split
         | |- NoDup [] => apply NoDup_nil
         | |- _ ∉ _ :: _ => apply not_elem_of_cons; split; [lia|]
         | |- _ ∉ [] => apply not_elem_of_nil
         end.

Lemma classify_roles_ok (lo k : Z) (acc : roles) (c : cell) :
  (lo <= k)%Z -> roles_ok lo k acc -> roles_ok lo (k + 1) (classify acc k c).
Proof.
  intros Hk [Hin Hnd]. destruct acc as [[[ic nc] mc] qc].
  unfold roles_ok, classify.
  destruct ic as [i|], nc as [n|], mc as [m|], qc as [q|]; simpl in *; split_roles;
    repeat match goal with
           | |- context [if ?b then _ else _] => destruct b
           end; simpl; split; solve_roles; done.
Qed.

Lemma classify_from_roles_ok (lo k : Z) (header : row) (acc : roles) :
  (lo <= k)%Z -> roles_ok lo k acc ->
  roles_ok lo (k + Z.of_nat (length header)) (classify_from k header acc).
Proof.
  revert k acc. induction header as [|c header IH]; intros k acc Hk Hacc.
  - simpl. by rewrite Z.add_0_r.
  - cbn [classify_from length].
    replace (k + Z.of_nat (S (length header)))%Z
      with ((k + 1) + Z.of_nat (length header))%Z by lia.
    apply IH; [lia|]. by apply classify_roles_ok.
Qed.

(** Once found, the identifier column is kept. *)
Lemma classify_from_isin_set (k i : Z) (header : row) (nc mc qc : option Z) :
  Spec.isin_role (classify_from k header (Some i, nc, mc, qc)) = Some i.
Proof.
  revert k nc mc qc. induction header as [|c header IH]; intros k nc mc qc; [done|].
  cbn [classify_from]. unfold classify. simpl. rewrite Bool.andb_false_r.
  repeat match goal with
         | |- context [if ?b then _ else _] => destruct b
         end; apply IH.
Qed.

(** The identifier column is the first header cell that names it. *)
Lemma classify_from_isin_first (k : Z) (header : row) (nc mc qc : option Z) (i : Z) :
  Spec.isin_role (classify_from k header (None, nc, mc, qc)) = Some i ->
  exists pre c post,
    header = pre ++ c :: post /\ i = (k + Z.of_nat (length pre))%Z
    /\ names_isin c = true /\ Forall (fun c' => names_isin c' = false) pre.
Proof.
  revert k nc mc qc. induction header as [|c header IH]; intros k nc mc qc; [done|].
  cbn [classify_from]. unfold classify at 1.
  fold (names_isin c). destruct (names_isin c) eqn:Hc; simpl.
  - rewrite classify_from_isin_set. intros [= <-].
    exists [], c, header. repeat split; [simpl; lia|done|constructor].
  - repeat match goal with
           | |- context [if ?b then _ else _] => destruct b
           end;
      (intros (pre & c' & post & -> & -> & Hc' & Hpre)%IH;
       exists (c :: pre), c', post; repeat split; [simpl; lia|done|by constructor]).
Qed.

Lemma find_header_first (df : sheet) (idx h : Z) :
  find_header_from idx df = Some h ->
  exists (n : nat) (r : row),
    h = (idx + Z.of_nat n)%Z /\ df !! n = Some r /\ has_isin r = true
    /\ Forall (fun r' => has_isin r' = false) (take n df).
Proof.
  revert idx. induction df as [|r df IH]; intros idx; [done|]. simpl.
  destruct (has_isin r) eqn:Hr.
  - intros [= <-]. exists 0, r. repeat split; [lia|done|constructor].
  - intros (n & r' & -> & Hn & Hr' & Hpre)%IH.
    exists (S n), r'. repeat split; [lia|done..|by constructor].
Qed.

(** The parts of a successful detection. *)
Lemma detect_schema_parts (df : sheet) (s : Schema) :
  detect_schema df = Ok s ->
  exists (h : nat) (header : row),
    df !! h = Some header /\ has_isin header = true
    /\ Forall (fun r => has_isin r = false) (take h df)
    /\ classify_from 0 header (None, None, None, None)
       = (isin_col s, name_col s, market_value_col s, quantity_col s)
    /\ find_data_start df (isin_col s)
         (range (Z.of_nat h + 1) (Z.of_nat (length df))) = Ok (data_start_row s)
    /\ find_grand_total df (market_value_col s)
       = Ok (grand_total_row s, grand_total s).
Proof.
  unfold detect_schema.
  destruct (find_header_from 0 df) as [h|] eqn:Hh; [|done].
  apply find_header_first in Hh as (n & r & -> & Hn & Hr & Hpre).
  rewrite Z.add_0_l, (iloc_nat _ _ _ Hn). simpl.
  destruct (classify_from 0 r _) as [[[ic nc] mc] qc] eqn:Hroles.
  destruct (find_data_start _ _ _) as [dsr|] eqn:Hd; [|done]. simpl.
  destruct (find_grand_total _ _) as [[gr gt]|] eqn:Hg; [|done]. simpl.
  intros [= <-]. by exists n, r.
Qed.

(** X3: in a detected schema no column has two roles, every role
    column lies inside the header row (the first row with a cell that holds
    "isin"), and the identifier column is the first such cell of that row. *)
Theorem detected_columns (df : sheet) (s : Schema) :
  detect_schema df = Ok s ->
  exists (h : nat) (header : row),
    df !! h = Some header
    /\ Forall (fun r => has_isin r = false) (take h df)
    /\ NoDup (set_columns s)
    /\ Forall (fun c => (0 <= c < Z.of_nat (length header))%Z) (set_columns s)
    /\ exists pre c post,
         header = pre ++ c :: post /\ isin_col s = Some (Z.of_nat (length pre))
         /\ names_isin c = true /\ Forall (fun c' => names_isin c' = false) pre.
Proof.
  intros (h & header & Hh & Hisin & Hpre & Hroles & _)%detect_schema_parts.
  exists h, header. split; [done|]. split; [done|].
  destruct (classify_from_roles_ok 0 0 header (None, None, None, None))
    as [Hin Hnd]; [lia|split; constructor|].
  rewrite Hroles in Hin, Hnd. split; [exact Hnd|]. split; [exact Hin|].
  pose proof (classify_from_finds_isin header 0 (None, None, None, None) Hisin) as Hic.
  rewrite Hroles in Hic. unfold Spec.isin_role in Hic. simpl in Hic.
  destruct (isin_col s) as [i|] eqn:Hi; [|done].
  destruct (classify_from_isin_first 0 header None None None i)
    as (pre & c & post & -> & -> & Hc & Hno); [by rewrite Hroles|].
  exists pre, c, post. by rewrite Z.add_0_l.
Qed.

Lemma find_data_start_unset (df : sheet) (idxs : list Z) :
  find_data_start df None idxs = Ok None.
Proof. induction idxs as [|j idxs IH]; [done|exact IH]. Qed.

Lemma find_data_start_first (df : sheet) (ic : option Z) (idxs : list Z) (d : Z) :
  find_data_start df ic idxs = Ok (Some d) ->
  exists pre post t,
    idxs = pre ++ (d - 1)%Z :: post
    /\ identifier_at df ic (d - 1) = Ok t /\ Text.startswith "IN" t = true
    /\ Forall (fun j => exists t', identifier_at df ic j = Ok t'
                                   /\ Text.startswith "IN" t' = false) pre.
Proof.
  induction idxs as [|idx idxs IH]; [done|]. cbn [find_data_start].
  destruct (is_none ic) eqn:Hnone.
  { destruct ic; [done|]. by rewrite find_data_start_unset. }
  unfold identifier_at at 2.
  destruct (iloc df (Some idx)) as [r|] eqn:Hr; [|done]. simpl.
  destruct (iloc r ic) as [c|] eqn:Hc; [|done]. simpl.
  destruct (Text.startswith "IN" _) eqn:Hs.
  - intros [= <-]. replace (idx + 1 - 1)%Z with idx by lia.
    exists [], idxs, (Text.strip (if notna c then cell_str c else EmptyString)).
    split; [done|]. unfold identifier_at. rewrite Hr. simpl. rewrite Hc. simpl.
    split; [done|]. split; [done|constructor].
  - intros (pre & post & t & -> & Ht & Hin & Hpre)%IH.
    exists (idx :: pre), post, t. split; [done|]. split; [done|]. split; [done|].
    constructor; [|done]. eexists. unfold identifier_at. rewrite Hr. simpl.
    rewrite Hc. simpl. by split.
Qed.

Lemma data_start_bounds (df : sheet) (s : Schema) (d : Z) :
  detect_schema df = Ok s -> data_start_row s = Some d ->
  (2 <= d <= Z.of_nat (length df))%Z.
Proof.
  intros (h & header & _ & _ & _ & _ & Hstart & _)%detect_schema_parts Hd.
  rewrite Hd in Hstart.
  apply find_data_start_first in Hstart as (pre & post & t & Hrange & _).
  apply range_split in Hrange as (_ & _ & Hb). lia.
Qed.

(** X4: the data-start row of a detected schema lies below the header
    row and inside the sheet; the identifier cell of that row, stripped,
    starts with "IN", and that of no row between the header and it does. *)
Theorem detected_data_start (df : sheet) (s : Schema) (d : Z) :
  detect_schema df = Ok s -> data_start_row s = Some d ->
  exists (h : nat) (t : string),
    find_header_from 0 df = Some (Z.of_nat h)
    /\ (Z.of_nat h + 2 <= d <= Z.of_nat (length df))%Z
    /\ identifier_at df (isin_col s) (d - 1) = Ok t /\ Text.startswith "IN" t = true
    /\ forall j, (Z.of_nat h < j < d - 1)%Z ->
         exists t', identifier_at df (isin_col s) j = Ok t'
                    /\ Text.startswith "IN" t' = false.
Proof.
  intros Hs Hd.
  assert (exists h, find_header_from 0 df = Some (Z.of_nat h)) as [h' Hh'].
  { unfold detect_schema in Hs. destruct (find_header_from 0 df) as [h|] eqn:Hh; [|done].
    apply find_header_first in Hh as (n & _ & -> & _). exists n. f_equal; lia. }
  destruct (detect_schema_parts df s Hs) as (h & header & Hh & Hisin & Hpre & _ & Hstart & _).
  assert (h' = h) as ->.
  { apply find_header_first in Hh' as (n & r & Hn & Hr & Hi & Hno).
    assert (n = h') as -> by lia. clear Hn.
    destruct (Nat.lt_trichotomy h' h) as [Hlt|[?|Hgt]]; [|done|]; exfalso.
    - rewrite Forall_forall in Hpre.
      assert (r ∈ take h df) as Hin.
      { apply list_elem_of_lookup. exists h'. by rewrite lookup_take_lt. }
      specialize (Hpre r Hin). congruence.
    - rewrite Forall_forall in Hno.
      assert (header ∈ take h' df) as Hin.
      { apply list_elem_of_lookup. exists h. by rewrite lookup_take_lt. }
      specialize (Hno header Hin). congruence. }
  rewrite Hd in Hstart.
  apply find_data_start_first in Hstart as (pre & post & t & Hrange & Ht & Hin & Hno).
  apply range_split in Hrange as (-> & -> & Hb).
  exists h, t. split; [done|]. split; [lia|]. split; [done|]. split; [done|].
  intros j Hj. rewrite Forall_forall in Hno. apply Hno.
  unfold range. apply list_elem_of_fmap. exists (Z.to_nat (j - (Z.of_nat h + 1))).
  split; [lia|]. apply elem_of_seq. lia.
Qed.

End DetectedSchema.

(** ** Sheets as data frames: which errors can occur *)

Section Rectangular.
Context `{PyFloat}.
Import Convert Spec SchemaSpec.

Lemma rectangular_row (w : nat) (df : sheet) (i : nat) (r : row) :
  rectangular w df -> df !! i = Some r -> length r = w.
Proof. intros Hrect Hr. by apply (Forall_lookup_1 _ _ _ _ Hrect Hr). Qed.

Lemma columns_in_range (df : sheet) (s : Schema) (w : nat) :
  rectangular w df -> detect_schema df = Ok s ->
  0 < w /\ Forall (fun c => (0 <= c < Z.of_nat w)%Z) (set_columns s)
  /\ isin_col s <> None.
Proof.
  intros Hrect Hs.
  pose proof (detect_schema_isin_col df s Hs) as Hic.
  apply detect_schema_parts in Hs as (h & header & Hh & Hisin & _ & Hroles & _).
  destruct (classify_from_roles_ok 0 0 header (None, None, None, None))
    as [Hin _]; [lia|split; constructor|].
  rewrite Hroles in Hin. rewrite (rectangular_row w df h header Hrect Hh) in Hin.
  split; [|by split].
  rewrite <- (rectangular_row w df h header Hrect Hh).
  destruct header; [done|simpl; lia].
Qed.

Lemma opt_col_in_range (w : nat) (r : row) (l : list Z) (k : option Z) :
  length r = w -> Forall (fun c => (0 <= c < Z.of_nat w)%Z) l ->
  (forall c, k = Some c -> c ∈ l) -> opt_col_ok r k.
Proof.
  intros Hlen Hall Hk. destruct k as [c|]; [|done]. simpl. unfold col_ok.
  rewrite Forall_forall in Hall. specialize (Hall c (Hk c eq_refl)). lia.
Qed.

Lemma set_columns_elem (s : Schema) (c : Z) :
  isin_col s = Some c \/ name_col s = Some c
  \/ market_value_col s = Some c \/ quantity_col s = Some c ->
  c ∈ set_columns s.
Proof.
  unfold set_columns, columns_of.
  destruct (isin_col s), (name_col s), (market_value_col s), (quantity_col s);
    simpl; intros [?|[?|[?|?]]]; simplify_eq; set_solver.
Qed.

Lemma find_data_start_total (df : sheet) (w : nat) (ic : Z) (idxs : list Z) :
  rectangular w df -> (0 <= ic < Z.of_nat w)%Z ->
  Forall (fun j => (0 <= j < Z.of_nat (length df))%Z) idxs ->
  exists d, find_data_start df (Some ic) idxs = Ok d.
Proof.
  intros Hrect Hic. induction 1 as [|j idxs Hj _ [d IH]]; [by eexists|].
  cbn [find_data_start is_none].
  destruct (iloc_row df j Hj) as (r & Hr & ->). simpl.
  destruct (iloc_ok r ic) as [c ->].
  { rewrite (rectangular_row w df _ r Hrect Hr). lia. }
  simpl. destruct (Text.startswith "IN" _); eauto.
Qed.

(** X5: on a sheet whose rows all have the same number of cells, as
    the rows of a data frame do, schema detection fails in one way only:
    [ValueError], when no row has a cell that holds "isin"; otherwise it
    returns a schema. *)
Theorem detect_schema_on_data_frame (w : nat) (df : sheet) :
  rectangular w df ->
  (detect_schema df = Raise ValueError /\ Forall (fun r => has_isin r = false) df)
  \/ (exists s, detect_schema df = Ok s) /\ Exists (fun r => has_isin r = true) df.
Proof.
  intros Hrect.
  destruct (find_header_from 0 df) as [h|] eqn:Hh.
  - right. destruct (find_header_first df 0 h Hh) as (n & header & -> & Hn & Hisin & _).
    split; [|apply Exists_exists; exists header; split; [by eapply list_elem_of_lookup_2|done]].
    unfold detect_schema. rewrite Hh, Z.add_0_l, (iloc_nat _ _ _ Hn). simpl.
    pose proof (rectangular_row w df n header Hrect Hn) as Hw.
    destruct (classify_from_roles_ok 0 0 header (None, None, None, None))
      as [Hin _]; [lia|split; constructor|].
    pose proof (classify_from_finds_isin header 0 (None, None, None, None) Hisin) as Hic.
    destruct (classify_from 0 header _) as [[[ic nc] mc] qc].
    unfold Spec.isin_role in Hic. simpl in Hic. destruct ic as [i|]; [|done].
    unfold columns_of in Hin. rewrite Hw, Z.add_0_l in Hin.
    assert (0 < w) as Hpos by (rewrite <- Hw; destruct header; [done|simpl; lia]).
    destruct (find_data_start_total df w i
                (range (Z.of_nat n + 1) (Z.of_nat (length df))) Hrect) as [d ->].
    { simpl in Hin. by apply Forall_cons in Hin as [? _]. }
    { apply Forall_forall. intros j Hj%elem_of_range. lia. }
    simpl.
    assert (Forall (fun r => r <> [] /\ opt_col_ok r mc) df) as Hwf.
    { eapply Forall_impl; [exact Hrect|]. intros r Hr. split.
      - destruct r; [simpl in Hr; lia|done].
      - eapply opt_col_in_range; [exact Hr|exact Hin|].
        intros c ->. simpl. destruct nc; set_solver. }
    unfold find_grand_total.
    destruct (find_grand_total_from_spec df mc 0 Hwf) as [[-> _]|(k & r & v & -> & _)];
      simpl; eauto.
  - left. split; [unfold detect_schema; by rewrite Hh|].
    clear Hrect. revert Hh. generalize 0%Z.
    induction df as [|r df IH]; intros z; [constructor|]. simpl.
    destruct (has_isin r) eqn:Hr; [done|]. intros Hz. constructor; [done|by eapply IH].
Qed.

(** *** Extraction with a detected schema *)

Lemma detected_schema_fits (w : nat) (df : sheet) (s : Schema) :
  rectangular w df -> detect_schema df = Ok s -> name_col s <> None ->
  schema_fits df s /\ Forall (fun r => r <> []) df.
Proof.
  intros Hrect Hs Hname.
  destruct (columns_in_range df s w Hrect Hs) as (Hpos & Hin & Hisin).
  destruct (isin_col s) as [ic|] eqn:Hic; [|done].
  destruct (name_col s) as [nc|] eqn:Hnc; [|done].
  split.
  - exists ic, nc. split; [done|]. split; [done|].
    eapply Forall_impl; [exact Hrect|]. intros r Hr.
    assert (forall c, c ∈ set_columns s -> col_ok r c) as Hcol.
    { intros c Hc. rewrite Forall_forall in Hin. specialize (Hin c Hc).
      unfold col_ok. simpl in Hr. lia. }
    split; [apply Hcol, set_columns_elem; auto|].
    split; [apply Hcol, set_columns_elem; auto|].
    split.
    + destruct (market_value_col s) as [c|] eqn:Hc; [|done].
      apply Hcol, set_columns_elem; auto.
    + destruct (quantity_col s) as [c|] eqn:Hc; [|done].
      apply Hcol, set_columns_elem; auto.
  - eapply Forall_impl; [exact Hrect|]. intros r Hr. destruct r; [simpl in Hr; lia|done].
Qed.

Lemma step_total (df : sheet) (s : Schema)
    (isin_mapping : gmap string master_entry)
    (validation_mapping : gmap string val_entry) (i : nat) :
  schema_fits df s -> Forall (fun r => r <> []) df -> i < length df ->
  exists d, step df s isin_mapping validation_mapping (Z.of_nat i)
              (range (Z.of_nat i + 1) (Z.of_nat (length df))) = Ok d.
Proof.
  intros Hfits Hne Hi.
  destruct (lookup_lt_is_Some_2 df i Hi) as [r Hr].
  pose proof (Forall_lookup_1 _ _ _ _ Hne Hr) as Hr0.
  assert (exists b, is_stop_row r = Ok b) as [b Hb].
  { unfold is_stop_row. destruct (first_cell_lower_ok r Hr0) as [fc ->].
    destruct (Text.contains "grand total" _); [eauto|].
    destruct (Text.contains "total net assets" _); simpl; eauto. }
  destruct b.
  - exists Stop. by eapply step_at_stop.
  - destruct (step_before_stop df s isin_mapping validation_mapping Hfits i r Hr Hb)
      as (d & Hd & _). eauto.
Qed.

Lemma walk_total (df : sheet) (s : Schema)
    (isin_mapping : gmap string master_entry)
    (validation_mapping : gmap string val_entry) (n start : nat) :
  schema_fits df s -> Forall (fun r => r <> []) df ->
  start + n = length df ->
  exists rows, walk df s isin_mapping validation_mapping
                 (range (Z.of_nat start) (Z.of_nat (length df))) = Ok rows.
Proof.
  intros Hfits Hne. revert start. induction n as [|n IH]; intros start Hn.
  - rewrite range_nil by lia. by eexists.
  - rewrite range_cons by lia. rewrite walk_cons.
    destruct (step_total df s isin_mapping validation_mapping start Hfits Hne)
      as [d ->]; [lia|]. simpl.
    destruct (IH (S start)) as [rows Hrows]; [lia|].
    replace (Z.of_nat start + 1)%Z with (Z.of_nat (S start)) by lia.
    destruct d; [by eexists|by eexists|]. rewrite Hrows. simpl. by eexists.
Qed.

(** X6: with the schema detected on a sheet whose rows all have the
    same number of cells, extraction returns a result when the schema has a
    name column and a data-start row, and raises [TypeError] when one of the
    two is unset; it never fails in another way. *)
Theorem process_sheet_on_data_frame (w : nat) (df : sheet) (s : Schema)
    (isin_mapping : gmap string master_entry)
    (validation_mapping : gmap string val_entry) :
  rectangular w df -> detect_schema df = Ok s ->
  (name_col s <> None -> data_start_row s <> None ->
   exists out, process_sheet df s isin_mapping validation_mapping = Ok out)
  /\ (name_col s = None \/ data_start_row s = None ->
      process_sheet df s isin_mapping validation_mapping = Raise TypeError).
Proof.
  intros Hrect Hs. split.
  - intros Hname Hstart.
    destruct (detected_schema_fits w df s Hrect Hs Hname) as [Hfits Hne].
    destruct (data_start_row s) as [d|] eqn:Hd; [|done].
    pose proof (data_start_bounds df s d Hs Hd) as Hrange.
    unfold process_sheet, emitted, start_idx. rewrite Hd. simpl.
    destruct (walk_total df s isin_mapping validation_mapping
                (length df - Z.to_nat (d - 1)) (Z.to_nat (d - 1)) Hfits Hne)
      as [rows Hrows]; [lia|].
    rewrite Z2Nat.id in Hrows by lia. rewrite Hrows. simpl. by eexists.
  - intros [Hname|Hstart]; [|by apply process_sheet_without_start].
    destruct (data_start_row s) as [d|] eqn:Hd; [|by apply process_sheet_without_start].
    pose proof (data_start_bounds df s d Hs Hd) as Hrange.
    destruct (columns_in_range df s w Hrect Hs) as (Hpos & Hin & Hisin).
    unfold process_sheet, emitted, start_idx. rewrite Hd. simpl.
    rewrite range_cons by lia. rewrite walk_cons. unfold step.
    destruct (iloc_row df (d - 1)) as (r & Hr & ->); [lia|]. simpl.
    destruct (isin_col s) as [ic|] eqn:Hic; [|done].
    destruct (iloc_ok r ic) as [c ->].
    { rewrite Forall_forall in Hin.
      specialize (Hin ic (set_columns_elem s ic (or_introl Hic))).
      rewrite (rectangular_row w df _ r Hrect Hr). lia. }
    simpl. by rewrite Hname.
Qed.

End Rectangular.

(** ** Writing a fund-month to the table *)

Section Upsert.
Context `{PyFloat}.
Import Convert Database.

Lemma filter_app {A : Type} (p : A -> bool) (l k : list A) :
  List.filter p (l ++ k) = List.filter p l ++ List.filter p k.
Proof. apply List.filter_app. Qed.






End Upsert.

(** ** The statements at the sample inputs *)

Lemma sundaram_row_listed :
  Cases.sundaram_row ∈ Recon.no_action (Recon.detect_and_categorize Sample.ledger).
Proof. apply list_elem_of_In. vm_compute. by left. Qed.

Lemma no_action_rows_change_nothing_witness :
  Cases.sundaram_row ∈ Recon.no_action (Recon.detect_and_categorize Sample.ledger)
  /\ Recon.Row.isin_mapped Cases.sundaram_row = Recon.Row.isin_original Cases.sundaram_row.
Proof.
  split; [exact sundaram_row_listed|].
  exact (proj1 (no_action_rows_change_nothing Sample.ledger Cases.sundaram_row
                  sundaram_row_listed)).
Defined.

Lemma zeta_row_listed :
  Cases.zeta_row
    ∈ Recon.rows_of Recon.CD_AGGREGATE
        (Recon.detect_and_categorize (Recon.load_holdings_data Sample.ledger_rows)).
Proof. apply list_elem_of_In. vm_compute. by left. Qed.

Lemma synthetic_identifier_of_issuer_witness :
  (Recon.CD_AGGREGATE = Recon.CD_AGGREGATE /\ "CD" = "CD")
  /\ Cases.zeta_row
       ∈ Recon.rows_of Recon.CD_AGGREGATE
           (Recon.detect_and_categorize (Recon.load_holdings_data Sample.ledger_rows))
  /\ Recon.Row.isin_mapped Cases.zeta_row
     = "SYN" +:+ Text.slice 3 7 (Recon.Row.isin_original Cases.zeta_row) +:+ "CD" +:+ "01".
Proof.
  split; [by split|]. split; [exact zeta_row_listed|].
  exact (proj1 (synthetic_identifier_of_issuer Sample.ledger_rows Recon.CD_AGGREGATE "CD"
                  Cases.zeta_row Cases.zeta_row (or_introl (conj eq_refl eq_refl))
                  zeta_row_listed zeta_row_listed)).
Defined.

Lemma unrelated_prefixes : NoDup (Recon.Item.name_cut <$> Cases.unrelated).
Proof. apply (bool_decide_unpack _). by vm_compute. Qed.

Lemma distinct_prefixes_need_no_action_witness :
  NoDup (Recon.Item.name_cut <$> Cases.unrelated)
  /\ Recon.corporate_action (Recon.detect_and_categorize Cases.unrelated) = [].
Proof.
  split; [exact unrelated_prefixes|].
  exact (proj1 (distinct_prefixes_need_no_action Cases.unrelated unrelated_prefixes)).
Defined.

Lemma mapping_file_keys_witness :
  ReconSpec.distinct Sample.ledger
  /\ Forall (Forall (fun f => Artifact.plain f = true))
       (Recon.mapping_records (Recon.detect_and_categorize Sample.ledger))
  /\ (is_Some (Convert.load_isin_validation_mapping
                 (Some (Recon.write_mapping_file (Recon.detect_and_categorize Sample.ledger)))
               !! "INE012A01023")
      <-> exists c row,
            row ∈ Recon.rows_of c (Recon.detect_and_categorize Sample.ledger)
            /\ (Recon.Row.action row = "MAP" \/ Recon.Row.action row = "AGGREGATE")
            /\ Recon.Row.isin_original row = "INE012A01023").
Proof.
  split; [exact ledger_distinct|]. split; [exact ledger_plain|].
  exact (proj1 (mapping_file_keys Sample.ledger "INE012A01023"
                  ledger_distinct ledger_valid ledger_plain)).
Defined.

Lemma ledger_rows_long :
  Forall (fun r => 12 <= String.length (IsinSpec.query_isin r)) Sample.ledger_rows.
Proof. apply (bool_decide_unpack _). by vm_compute. Qed.

Lemma load_holdings_data_keeps_witness :
  Forall (fun r => 12 <= String.length (IsinSpec.query_isin r)) Sample.ledger_rows
  /\ Recon.Item.isin <$> Recon.load_holdings_data Sample.ledger_rows
     = IsinSpec.query_isin <$> Sample.ledger_rows.
Proof.
  split; [exact ledger_rows_long|].
  exact (proj1 (load_holdings_data_keeps Sample.ledger_rows ledger_rows_long)).
Defined.

Lemma with_subtotal_processed :
  Convert.process_sheet Sample.with_subtotal Sample.with_subtotal_schema ∅ ∅
  = Ok (Cases.with_subtotal_rows, (Some 300%Z : @num IntFloat.model),
        Cases.with_subtotal_unmapped).
Proof. vm_compute. reflexivity. Qed.

Lemma emitted_rows_well_formed_witness :
  Convert.process_sheet Sample.with_subtotal Sample.with_subtotal_schema ∅ ∅
  = Ok (Cases.with_subtotal_rows, (Some 300%Z : @num IntFloat.model),
        Cases.with_subtotal_unmapped)
  /\ Cases.with_subtotal_unmapped
     = (fun r => (Convert.isin_assigned r, Convert.instrument_name r)) <$>
       List.filter (fun r => Convert.is_none
                               ((∅ : gmap string Convert.master_entry)
                                  !! Convert.isin_assigned r))
         Cases.with_subtotal_rows.
Proof.
  split; [exact with_subtotal_processed|].
  exact (proj2 (emitted_rows_well_formed _ _ _ _ _ _ _ with_subtotal_processed)).
Defined.

Lemma report_counts_witness :
  Convert.process_sheet Sample.with_subtotal Sample.with_subtotal_schema ∅ ∅
  = Ok (Cases.with_subtotal_rows, (Some 300%Z : @num IntFloat.model),
        Cases.with_subtotal_unmapped)
  /\ Report.assigned_count Cases.with_subtotal_rows = 0.
Proof.
  split; [exact with_subtotal_processed|].
  exact (proj1 (proj2 (report_counts _ _ _ _ _ _ _ with_subtotal_processed))).
Defined.

Lemma with_subtotal_emitted :
  Convert.emitted Sample.with_subtotal Sample.with_subtotal_schema ∅ ∅
  = Ok [(1%Z, Cases.holding "INE000000010" "Alpha Ltd" 100);
        (2%Z, Cases.holding "INE000000028" "Beta Ltd" 200)].
Proof. vm_compute. reflexivity. Qed.

Lemma grand_total_row_ends_extraction_witness :
  Convert.find_grand_total Sample.with_subtotal
    (Convert.market_value_col Sample.with_subtotal_schema)
  = Ok (Some 5%Z, Some (Some 300%Z : @num IntFloat.model))
  /\ Convert.start_idx Sample.with_subtotal_schema = Ok 1%Z
  /\ (0 <= 1 < 5)%Z
  /\ Convert.emitted Sample.with_subtotal Sample.with_subtotal_schema ∅ ∅
     = Ok [(1%Z, Cases.holding "INE000000010" "Alpha Ltd" 100);
           (2%Z, Cases.holding "INE000000028" "Beta Ltd" 200)]
  /\ exists r, Sample.with_subtotal !! Z.to_nat (5 - 1) = Some r
               /\ Convert.is_stop_row r = Ok true.
Proof.
  split; [reflexivity|]. split; [reflexivity|]. split; [lia|].
  split; [exact with_subtotal_emitted|].
  exact (proj1 (grand_total_row_ends_extraction Sample.with_subtotal
                  Sample.with_subtotal_schema ∅ ∅ 5 1 _ _
                  eq_refl eq_refl ltac:(lia) with_subtotal_emitted)).
Defined.

Lemma scenario_a_detected :
  Convert.detect_schema Sample.scenario_a = Ok Cases.scenario_a_schema.
Proof. vm_compute. reflexivity. Qed.

Lemma detected_columns_witness :
  Convert.detect_schema Sample.scenario_a = Ok Cases.scenario_a_schema
  /\ exists (h : nat) (header : Convert.row),
       Sample.scenario_a !! h = Some header
       /\ Forall (fun r => Convert.has_isin r = false) (take h Sample.scenario_a)
       /\ NoDup (SchemaSpec.set_columns Cases.scenario_a_schema)
       /\ Forall (fun c => (0 <= c < Z.of_nat (length header))%Z)
            (SchemaSpec.set_columns Cases.scenario_a_schema)
       /\ exists pre c post,
            header = pre ++ c :: post
            /\ Convert.isin_col Cases.scenario_a_schema = Some (Z.of_nat (length pre))
            /\ SchemaSpec.names_isin c = true
            /\ Forall (fun c' => SchemaSpec.names_isin c' = false) pre.
Proof.
  split; [exact scenario_a_detected|].
  exact (detected_columns Sample.scenario_a Cases.scenario_a_schema scenario_a_detected).
Defined.

Lemma detected_data_start_witness :
  Convert.detect_schema Sample.scenario_a = Ok Cases.scenario_a_schema
  /\ Convert.data_start_row Cases.scenario_a_schema = Some 2%Z
  /\ exists (h : nat) (t : string),
       Convert.find_header_from 0 Sample.scenario_a = Some (Z.of_nat h)
       /\ (Z.of_nat h + 2 <= 2 <= Z.of_nat (length Sample.scenario_a))%Z
       /\ SchemaSpec.identifier_at Sample.scenario_a
            (Convert.isin_col Cases.scenario_a_schema) (2 - 1) = Ok t
       /\ Text.startswith "IN" t = true
       /\ forall j, (Z.of_nat h < j < 2 - 1)%Z ->
            exists t', SchemaSpec.identifier_at Sample.scenario_a
                         (Convert.isin_col Cases.scenario_a_schema) j = Ok t'
                       /\ Text.startswith "IN" t' = false.
Proof.
  split; [exact scenario_a_detected|]. split; [reflexivity|].
  exact (detected_data_start Sample.scenario_a Cases.scenario_a_schema 2
           scenario_a_detected eq_refl).
Defined.

Lemma detect_schema_on_data_frame_witness :
  Spec.rectangular 5 Sample.scenario_a
  /\ ((Convert.detect_schema Sample.scenario_a = Raise ValueError
       /\ Forall (fun r => Convert.has_isin r = false) Sample.scenario_a)
      \/ (exists s, Convert.detect_schema Sample.scenario_a = Ok s)
         /\ Exists (fun r => Convert.has_isin r = true) Sample.scenario_a).
Proof.
  split; [exact scenario_a_frame|].
  exact (detect_schema_on_data_frame 5 Sample.scenario_a scenario_a_frame).
Defined.

Lemma process_sheet_on_data_frame_witness :
  Spec.rectangular 5 Sample.scenario_a
  /\ Convert.detect_schema Sample.scenario_a = Ok Cases.scenario_a_schema
  /\ Convert.name_col Cases.scenario_a_schema <> None
  /\ Convert.data_start_row Cases.scenario_a_schema <> None
  /\ exists out, Convert.process_sheet Sample.scenario_a Cases.scenario_a_schema ∅ ∅
                 = Ok out.
Proof.
  split; [exact scenario_a_frame|]. split; [exact scenario_a_detected|].
  split; [done|]. split; [done|].
  exact (proj1 (process_sheet_on_data_frame 5 Sample.scenario_a Cases.scenario_a_schema
                  ∅ ∅ scenario_a_frame scenario_a_detected)
           ltac:(done) ltac:(done)).
Defined.

Lemma bank_name_is_cut_after_bank_witness :
  Recon.bank_match (Text.strip (Text.upper "Zeta Bank Limited CD 08JAN26"))
  = Some "ZETA BANK"
  /\ Recon.extract_company_name "Zeta Bank Limited CD 08JAN26" = "ZETA BANK".
Proof.
  assert (Recon.bank_match (Text.strip (Text.upper "Zeta Bank Limited CD 08JAN26"))
          = Some "ZETA BANK") as Hbank by reflexivity.
  split; [exact Hbank|].
  exact (proj1 (bank_name_is_cut_after_bank (H := IntFloat.model)
                  "Zeta Bank Limited CD 08JAN26" "ZETA BANK" [] Sample.tbill_item Hbank)).
Defined.

Lemma zeta_row_aggregated :
  Cases.zeta_row
    ∈ Recon.cd_aggregate
        (Recon.detect_and_categorize (Recon.load_holdings_data Sample.ledger_rows)).
Proof. apply list_elem_of_In. vm_compute. by left. Qed.

Lemma rows_by_security_type_witness :
  Cases.zeta_row
    ∈ Recon.cd_aggregate
        (Recon.detect_and_categorize (Recon.load_holdings_data Sample.ledger_rows))
  /\ (Text.slice 7 9 (Recon.Row.isin_original Cases.zeta_row) = "16"
      \/ Text.slice 7 9 (Recon.Row.isin_original Cases.zeta_row) = "D6").
Proof.
  split; [exact zeta_row_aggregated|].
  exact (proj1 (proj2 (rows_by_security_type Sample.ledger_rows Cases.zeta_row))
           zeta_row_aggregated).
Defined.

Lemma mapping_columns_round_trip_witness :
  ReconSpec.distinct Sample.ledger
  /\ Forall (Forall (fun f => Artifact.plain f = true))
       (Recon.mapping_records (Recon.detect_and_categorize Sample.ledger))
  /\ Sample.acme_row
       ∈ Recon.rows_of Recon.CORPORATE_ACTION (Recon.detect_and_categorize Sample.ledger)
  /\ (Recon.Row.action Sample.acme_row = "MAP"
      \/ Recon.Row.action Sample.acme_row = "AGGREGATE")
  /\ Convert.mapping_category
       (Convert.resolve ∅
          (Convert.load_isin_validation_mapping
             (Some (Recon.write_mapping_file (Recon.detect_and_categorize Sample.ledger))))
          (Recon.Row.isin_original Sample.acme_row) "Acme Industries Ltd"
          (Some 10%Z : @num IntFloat.model) (Some 0%Z : @num IntFloat.model))
     = Recon.Row.category Sample.acme_row.
Proof.
  split; [exact ledger_distinct|]. split; [exact ledger_plain|].
  split; [exact acme_row_listed|]. split; [by left|].
  exact (proj1 (mapping_columns_round_trip Sample.ledger Recon.CORPORATE_ACTION
                  Sample.acme_row ∅ "Acme Industries Ltd"
                  (Some 10%Z : @num IntFloat.model) (Some 0%Z : @num IntFloat.model)
                  ledger_distinct ledger_valid ledger_plain acme_row_listed
                  (or_introl eq_refl))).
Defined.
